(** * Video synthesis stage of Money-Printer: a shallow embedding

    Source: [src/modules/video_synthesizer.py] (class [VideoSynthesizer])
    and [src/config/settings.py] (class [Settings]).

    Conventions of the embedding.
    - Python [int] values are [Z].  A Python [float] is the rational [Q]
      it stands for.  Where a float decides an integer, in the scale
      factors and the sizes of [_process_resolution], every operation is
      rounded to the nearest double ([round_double]); the continuous
      quantities (audio durations, zoom factors, pan fractions) are
      computed exactly, without the rounding of IEEE arithmetic.
    - A computation that may raise, log and consume the [random] module
      is a function from a state to an outcome, the events it emitted
      (in order) and the new state.
    - The media library (moviepy, PIL), the file system, the clock and the
      random generator are an oracle [Env]: each call answers what the
      oracle says, and every such call may raise a library exception.
    - An exception is an instance of [Exception], which is what the
      [except Exception] clauses of the module catch; [KeyboardInterrupt]
      is not modelled, and [SystemExit] only where [parse_args()] leaves
      [main] through it. *)

From Stdlib Require Import ZArith QArith Qround Qabs Qpower List String Bool Lia Lqa.
From Stdlib Require Import SpecFloat.
From Stdlib Require Import DecimalString.
Import ListNotations.

Open Scope string_scope.
Open Scope Z_scope.
Open Scope Q_scope.

(* ------------------------------------------------------------------ *)
(** ** Exceptions, log records and events *)

(** Text of an exception or of a log record.  The f-strings of the source
    are kept structured: the constructor is the fixed text, its arguments
    the interpolated values. *)
Inductive Message : Type :=
| Text (s : string)
| ImageFileNotFound (path : string)
| AudioFileNotFound (path : string)
| ImageFileEmpty (path : string)
| AudioFileEmpty (path : string)
| InvalidImageDimensions (path : string)
| FailedToValidateImage (cause : Message)
| ImageDimensions (size : list (option Z))
| FailedToLoadImage
| FailedToLoadAudio
| ErrorClosingImageClip (cause : Message)
| ErrorClosingAudioClip (cause : Message)
| InvalidImageClip
| ProcessingImageResolution (img_w img_h target_w target_h : Z)
| KenBurnsDurationNotSet
| ApplyingKenBurns (duration : Q)
| InvalidAudioMissingDuration
| SetImageDuration (duration : Q)
| WritingVideoFile
| AudioDurationExceeds (duration : Q) (max_length : Z) (tolerance : Q)
| SuccessfullyCreated (path : string)
| VideoProcessingErrorLog (cause : Message)
| UnexpectedErrorLog (cause : Message).

(** An exception raised by Python or by a library: its class and text. *)
Record LibError : Type := mkLibError { err_class : string; err_text : string }.

(** Instances of [Exception] that can travel through the module. *)
Inductive exn : Type :=
| VideoProcessingError (msg : Message)
| LibraryError (e : LibError).

(** [str(e)] *)
Definition str (e : exn) : Message :=
  match e with
  | VideoProcessingError m => m
  | LibraryError e => Text (err_text e)
  end.

Inductive Level : Type := INFO | WARNING | ERROR.

Inductive Handle : Type := HImage | HAudio.

Inductive Event : Type :=
| EvLog (lvl : Level) (msg : Message)
| EvOpen (h : Handle)                  (* a clip constructor returned *)
| EvClose (h : Handle)                 (* [close()] was called *)
| EvResize (new_size : Z * Z)          (* [image.resize(new_size)] was called *)
| EvWriteVideo (path : string).        (* [write_videofile] was called *)

(* ------------------------------------------------------------------ *)
(** ** The effect monad *)

Inductive Result (A : Type) : Type :=
| Ok (a : A)
| Raise (e : exn).
Arguments Ok {A} a.
Arguments Raise {A} e.

Definition M (S A : Type) : Type := S -> Result A * list Event * S.

Definition ret {S A} (a : A) : M S A := fun s => (Ok a, [], s).

Definition raise {S A} (e : exn) : M S A := fun s => (Raise e, [], s).

Definition bind {S A B} (m : M S A) (k : A -> M S B) : M S B :=
  fun s =>
    match m s with
    | (Ok a, l1, s1) =>
        match k a s1 with (r, l2, s2) => (r, (l1 ++ l2)%list, s2) end
    | (Raise e, l1, s1) => (Raise e, l1, s1)
    end.

Declare Scope monad_scope.
Delimit Scope monad_scope with monad.
Notation "x <- m ;; k" := (bind m (fun x => k))
  (at level 100, m at next level, right associativity) : monad_scope.
Notation "m ;; k" := (bind m (fun _ => k))
  (at level 100, right associativity) : monad_scope.
Open Scope monad_scope.

Definition emit {S} (ev : Event) : M S unit := fun s => (Ok tt, [ev], s).

Definition log {S} (lvl : Level) (msg : Message) : M S unit := emit (EvLog lvl msg).

(** [try: m  except Exception as e: handler e] *)
Definition try_except {S A} (m : M S A) (handler : exn -> M S A) : M S A :=
  fun s =>
    match m s with
    | (Ok a, l1, s1) => (Ok a, l1, s1)
    | (Raise e, l1, s1) =>
        match handler e s1 with (r, l2, s2) => (r, (l1 ++ l2)%list, s2) end
    end.

(** [try: m  finally: fin].  An exception leaving [fin] replaces the
    outcome of [m]; otherwise the outcome of [m] stands. *)
Definition try_finally {S A} (m : M S A) (fin : M S unit) : M S A :=
  fun s =>
    match m s with
    | (r, l1, s1) =>
        match fin s1 with
        | (Ok _, l2, s2) => (r, (l1 ++ l2)%list, s2)
        | (Raise e, l2, s2) => (Raise e, (l1 ++ l2)%list, s2)
        end
    end.

(** Outcome, events and final state of a run. *)
Definition outcome {S A} (x : Result A * list Event * S) : Result A := fst (fst x).
Definition events {S A} (x : Result A * list Event * S) : list Event := snd (fst x).
Definition final {S A} (x : Result A * list Event * S) : S := snd x.

(* ------------------------------------------------------------------ *)
(** ** Rational helpers for Python arithmetic *)

(** [x < y] on floats. *)
Definition Qltb (x y : Q) : bool := negb (Qle_bool y x).

(** [int(x)] on a float: truncation toward zero. *)
Definition py_int (x : Q) : Z := Z.quot (Qnum x) (Zpos (Qden x)).

(** [min(a, b)]: the first argument unless the second is smaller. *)
Definition py_min (a b : Q) : Q := if Qltb b a then b else a.

(** [bool(x)] for an optional float attribute: [None] and zero are falsy. *)
Definition truthy (d : option Q) : bool :=
  match d with
  | None => false
  | Some q => negb (Qeq_bool q 0)
  end.

(** [round(x)] of Python 3: to the nearest integer, halves to the even one. *)
Definition py_round (x : Q) : Z :=
  let f := Qfloor x in
  let r := x - inject_Z f in
  if Qltb r (1 # 2) then f
  else if Qltb (1 # 2) r then (f + 1)%Z
  else if Z.even f then f else (f + 1)%Z.

(* ------------------------------------------------------------------ *)
(** ** Doubles *)

(** [2 ** k] *)
Definition pow2 (k : Z) : Q := 2 ^ k.

(** The integer [k] with [2**k <= x < 2**(k+1)], for a positive [x]. *)
Definition ilog2 (x : Q) : Z :=
  let k := (Z.log2 (Qnum x) - Z.log2 (Zpos (Qden x)))%Z in
  if Qle_bool (pow2 k) x then k else (k - 1)%Z.

(** The double nearest to [x], ties to the even mantissa, as every
    operation of IEEE 754 binary64 rounds its exact result: 53 bits of
    mantissa, the smallest exponent -1074 (so that small results are
    subnormal or zero); [None] when the nearest double is an infinity. *)
Definition round_double (x : Q) : option Q :=
  if Qeq_bool x 0 then Some 0
  else
    let e := Z.max (ilog2 (Qabs x) - 52) (-1074) in
    let v := inject_Z (py_round (x / pow2 e)) * pow2 e in
    if Qle_bool (pow2 1024) (Qabs v) then None else Some v.

(* ------------------------------------------------------------------ *)
(** ** The [random] module *)

(** State of the generator: the number of draws made so far. *)
Definition Rng : Type := nat.

Record RandomOracle : Type := mkRandomOracle {
  unit_draw : nat -> Q;           (* k-th answer of [random.random()] *)
  index_draw : nat -> nat -> nat  (* k-th answer of [_randbelow(n)] *)
}.

Section Random.
Variable oracle : RandomOracle.

(** [random.uniform(a, b)]: [a + (b - a) * random()]. *)
Definition random_uniform (a b : Q) : M Rng Q :=
  fun k => (Ok (a + (b - a) * unit_draw oracle k), [], S k).

(** [random.choice(seq)]: [seq[_randbelow(len(seq))]]. *)
Definition random_choice {A} (seq : list A) : M Rng A :=
  fun k =>
    match nth_error seq (index_draw oracle k (List.length seq)) with
    | Some x => (Ok x, [], S k)
    | None =>
        (Raise (LibraryError (mkLibError "IndexError" "list index out of range")),
         [], S k)
    end.
End Random.

(* ------------------------------------------------------------------ *)
(** ** Ken Burns configuration and the motion closures *)

Record KenBurnsConfig : Type := mkKenBurnsConfig {
  zoom_range : Q * Q;
  pan_range : Q * Q;
  direction : string
}.

(** [KenBurnsConfig()] *)
Definition default_KenBurnsConfig : KenBurnsConfig :=
  {| zoom_range := (1, 12 # 10);
     pan_range := (- (1 # 2), 1 # 2);
     direction := "random" |}.

Section Motion.
Variable oracle : RandomOracle.
(** The variables the three closures capture. *)
Variable duration : Q.
Variable config : KenBurnsConfig.
Variable direction' : string.   (* [direction] after resolution *)

Definition ease_in_out (t : Q) : Q :=
  let t := t / duration in
  if Qltb t (1 # 2) then 2 * t * t
  else
    let t := t - 1 in
    1 - 2 * t * t.

Definition zoom_effect (t : Q) : Q :=
  let '(zoom_start, zoom_end) := zoom_range config in
  let '(zoom_start, zoom_end) :=
    if String.eqb direction' "out" then (zoom_end, zoom_start)
    else (zoom_start, zoom_end) in
  let progress := ease_in_out t in
  zoom_start + (zoom_end - zoom_start) * progress.

Definition pan_effect (t : Q) : M Rng (Q * Q) :=
  let progress := ease_in_out t in
  u <- random_uniform oracle (fst (pan_range config)) (snd (pan_range config));;
  let pan_x := u * progress in
  v <- random_uniform oracle (fst (pan_range config)) (snd (pan_range config));;
  let pan_y := v * progress in
  ret (pan_x, pan_y).
End Motion.

(* ------------------------------------------------------------------ *)
(** ** Clips *)

(** A [size] attribute: a tuple whose entries are integers or [None]. *)
Definition Size : Type := list (option Z).

(** The image clips the module builds, by the library call that made them. *)
#[warnings="-register-all"]
Inductive ImageClip : Type :=
| LoadedImage (path : string) (size : option Size)     (* [ImageClip(path)] *)
| ZerosImage (width height : Z) (duration : option Q)  (* [ImageClip(np.zeros((height, width, 3)), duration=...)] *)
| Resized (c : ImageClip) (new_size : Z * Z)           (* [c.resize(new_size)] *)
| Positioned (c : ImageClip) (pos : Z * Z)             (* [c.set_position(pos)] *)
| Composite (layers : list ImageClip)                  (* [CompositeVideoClip(layers)] *)
| WithDuration (c : ImageClip) (d : option Q).         (* [c.set_duration(d)] *)

(** The [size] attribute; [None] when it is missing or [None].
    A composite made without [size=] takes the size of its first layer. *)
Fixpoint clip_size (c : ImageClip) : option Size :=
  match c with
  | LoadedImage _ size => size
  | ZerosImage w h _ => Some [Some w; Some h]
  | Resized _ (w, h) => Some [Some w; Some h]
  | Positioned c _ => clip_size c
  | Composite layers =>
      match layers with
      | c :: _ => clip_size c
      | [] => None
      end
  | WithDuration c _ => clip_size c
  end.

(** The [duration] attribute.  A clip loaded from a file has none; a
    composite has the longest of its layers' when each layer has one. *)
Fixpoint clip_duration (c : ImageClip) : option Q :=
  match c with
  | LoadedImage _ _ => None
  | ZerosImage _ _ d => d
  | Resized c _ => clip_duration c
  | Positioned c _ => clip_duration c
  | Composite layers =>
      (fix longest (ls : list ImageClip) (acc : option Q) : option Q :=
         match ls with
         | [] => acc
         | l :: ls' =>
             match clip_duration l with
             | None => None
             | Some d =>
                 longest ls'
                   (match acc with
                    | None => Some d
                    | Some a => Some (if Qltb a d then d else a)
                    end)
             end
         end) layers None
  | WithDuration _ d => d
  end.

Record AudioFileClip : Type := mkAudioFileClip {
  audio_path : string;
  audio_duration : option Q
}.

(** The clip after [resize(zoom_effect)] and [set_position(pan_effect)]. *)
Record MotionClip : Type := mkMotionClip {
  base : ImageClip;
  resize_fn : Q -> Q;
  position_fn : Q -> M Rng (Q * Q)
}.

(** [CompositeVideoClip([image]).set_audio(audio)] *)
Record Video : Type := mkVideo {
  video_layers : list MotionClip;
  video_audio : AudioFileClip
}.

(** [not size or None in size], with a missing attribute counted in. *)
Definition invalid_size (size : option Size) : bool :=
  match size with
  | None => true
  | Some [] => true
  | Some entries =>
      existsb (fun x => match x with None => true | Some _ => false end) entries
  end.

(* ------------------------------------------------------------------ *)
(** ** Settings and the outside world *)

Record Settings : Type := mkSettings {
  MAX_VIDEO_LENGTH : Z;
  DURATION_TOLERANCE : Q;
  OUTPUT_RESOLUTION : Z * Z;
  OUTPUT_DIR : string
}.

(** The defaults of [config/settings.py]. *)
Definition default_Settings : Settings :=
  {| MAX_VIDEO_LENGTH := 180;
     DURATION_TOLERANCE := 1 # 2;
     OUTPUT_RESOLUTION := (1024, 1024)%Z;
     OUTPUT_DIR := "output" |}.

Record Env : Type := mkEnv {
  path_exists : string -> bool;                      (* [os.path.exists] *)
  path_getsize : string -> Z;                        (* [os.path.getsize] *)
  Image_open : string -> LibError + Size;            (* [Image.open(p)]: error, or [img.size] *)
  ImageClip_new : string -> LibError + option Size;  (* [ImageClip(p)]: error, or its [size] *)
  AudioFileClip_new : string -> LibError + option Q; (* [AudioFileClip(p)]: error, or its [duration] *)
  close_error : Handle -> option LibError;           (* what [close()] raises, if anything *)
  resize_error : Z * Z -> option LibError;           (* what [resize(new_size)] raises *)
  frame_times : list Q;                              (* the times of the frames [write_videofile] draws *)
  write_error : string -> option LibError;           (* what [write_videofile(p)] raises *)
  time_time : Q;                                     (* [time.time()] *)
  random : RandomOracle
}.

(** [os.path.join(a, b)] for a relative [b]. *)
Definition path_join (a b : string) : string :=
  if (String.length a =? 0)%nat then b
  else if String.eqb (substring (String.length a - 1) 1 a) "/" then a ++ b
  else a ++ "/" ++ b.

(** [str(n)] for an integer. *)
Definition str_int (n : Z) : string := NilZero.string_of_int (Z.to_int n).

(** A library call that either raises or returns. *)
Definition lib_call {S A} (r : LibError + A) : M S A :=
  match r with
  | inl e => raise (LibraryError e)
  | inr a => ret a
  end.

Definition lib_action {S} (r : option LibError) : M S unit :=
  match r with
  | Some e => raise (LibraryError e)
  | None => ret tt
  end.

(** [for x in l: body(x)] *)
Fixpoint for_each {S A} (l : list A) (body : A -> M S unit) : M S unit :=
  match l with
  | [] => ret tt
  | x :: rest => body x;; for_each rest body
  end.

(** [OverflowError(text)] *)
Definition OverflowError (text : string) : exn :=
  LibraryError (mkLibError "OverflowError" text).

(** [a / b] on integers: the exact quotient, correctly rounded. *)
Definition truediv {S} (a b : Z) : M S Q :=
  if (b =? 0)%Z
  then raise (LibraryError (mkLibError "ZeroDivisionError" "division by zero"))
  else
    match round_double (inject_Z a / inject_Z b) with
    | Some q => ret q
    | None =>
        raise (OverflowError "integer division result too large for a float")
    end.

(** [float(n)], the conversion an integer undergoes in [n * x]. *)
Definition float_of_int {S} (n : Z) : M S Q :=
  match round_double (inject_Z n) with
  | Some f => ret f
  | None => raise (OverflowError "int too large to convert to float")
  end.

(** [n * x] for an integer [n] and a float [x]; [None] is an infinity. *)
Definition int_times_float {S} (n : Z) (x : Q) : M S (option Q) :=
  f <- float_of_int n;;
  ret (round_double (f * x)).

(** [int(x)] on a float that may be an infinity. *)
Definition int_of_float {S} (x : option Q) : M S Z :=
  match x with
  | Some q => ret (py_int q)
  | None => raise (OverflowError "cannot convert float infinity to integer")
  end.

(** [round(x)] on a float that may be an infinity. *)
Definition round_of_float {S} (x : option Q) : M S Z :=
  match x with
  | Some q => ret (py_round q)
  | None => raise (OverflowError "cannot convert float infinity to integer")
  end.

(* ------------------------------------------------------------------ *)
(** ** The synthesizer *)

(** Local variables of the generator behind [_manage_clips]. *)
Record Frame : Type := mkFrame {
  image_clip : option ImageClip;
  audio_clip : option AudioFileClip
}.

(** Code that does not see the generator's locals, run inside it. *)
Definition lift {S A} (m : M S A) : M (Frame * S) A :=
  fun fs =>
    match m (snd fs) with (r, l, s') => (r, l, (fst fs, s')) end.

Definition get_frame {S} : M (Frame * S) Frame :=
  fun fs => (Ok (fst fs), [], fs).

Definition assign_image_clip {S} (c : ImageClip) : M (Frame * S) unit :=
  fun fs =>
    (Ok tt, [], ({| image_clip := Some c; audio_clip := audio_clip (fst fs) |}, snd fs)).

Definition assign_audio_clip {S} (a : AudioFileClip) : M (Frame * S) unit :=
  fun fs =>
    (Ok tt, [], ({| image_clip := image_clip (fst fs); audio_clip := Some a |}, snd fs)).

(** [image_clip = audio_clip = None] *)
Definition no_clips : Frame := {| image_clip := None; audio_clip := None |}.

(** Enter the generator with its locals set, leave it dropping them. *)
Definition with_frame {S A} (fr : Frame) (m : M (Frame * S) A) : M S A :=
  fun s =>
    match m (fr, s) with (r, l, fs') => (r, l, snd fs') end.

Section Synthesizer.
Variable settings : Settings.   (* [self.settings] *)
Variable env : Env.

Definition _validate_inputs (image_path audio_path : string) : M Rng unit :=
  if negb (path_exists env image_path)
  then raise (VideoProcessingError (ImageFileNotFound image_path))
  else if negb (path_exists env audio_path)
  then raise (VideoProcessingError (AudioFileNotFound audio_path))
  else if (path_getsize env image_path =? 0)%Z
  then raise (VideoProcessingError (ImageFileEmpty image_path))
  else if (path_getsize env audio_path =? 0)%Z
  then raise (VideoProcessingError (AudioFileEmpty audio_path))
  else
    try_except
      (img_size <- lib_call (Image_open env image_path);;
       if invalid_size (Some img_size)
       then raise (VideoProcessingError (InvalidImageDimensions image_path))
       else log INFO (ImageDimensions img_size))
      (fun e => raise (VideoProcessingError (FailedToValidateImage (str e)))).

(** [ImageClip(image_path)] *)
Definition open_image (image_path : string) : M Rng ImageClip :=
  size <- lib_call (ImageClip_new env image_path);;
  emit (EvOpen HImage);;
  ret (LoadedImage image_path size).

(** [AudioFileClip(audio_path)] *)
Definition open_audio (audio_path : string) : M Rng AudioFileClip :=
  d <- lib_call (AudioFileClip_new env audio_path);;
  emit (EvOpen HAudio);;
  ret (mkAudioFileClip audio_path d).

(** [clip.close()] *)
Definition close (h : Handle) : M Rng unit :=
  emit (EvClose h);;
  lib_action (close_error env h).

(** [_manage_clips], the block under [try:], with the [yield] running
    the body of the caller's [with] statement. *)
Definition _manage_clips_try {T} (image_path audio_path : string)
    (body : ImageClip -> AudioFileClip -> M Rng T) : M (Frame * Rng) T :=
  image <- lift (open_image image_path);;
  assign_image_clip image;;
  if invalid_size (clip_size image)
  then raise (VideoProcessingError FailedToLoadImage)
  else
    audio <- lift (open_audio audio_path);;
    assign_audio_clip audio;;
    if negb (truthy (audio_duration audio))
    then raise (VideoProcessingError FailedToLoadAudio)
    else lift (body image audio).

(** [_manage_clips], the block under [finally:]. *)
Definition _manage_clips_finally : M (Frame * Rng) unit :=
  fr <- get_frame;;
  match image_clip fr with
  | Some _ =>
      try_except (lift (close HImage))
        (fun e => log WARNING (ErrorClosingImageClip (str e)))
  | None => ret tt
  end;;
  match audio_clip fr with
  | Some _ =>
      try_except (lift (close HAudio))
        (fun e => log WARNING (ErrorClosingAudioClip (str e)))
  | None => ret tt
  end.

(** [with self._manage_clips(image_path, audio_path) as (image, audio): body] *)
Definition _manage_clips {T} (image_path audio_path : string)
    (body : ImageClip -> AudioFileClip -> M Rng T) : M Rng T :=
  with_frame no_clips
    (try_finally (_manage_clips_try image_path audio_path body)
                 _manage_clips_finally).

(** [image.resize(new_size)] *)
Definition resize (image : ImageClip) (new_size : Z * Z) : M Rng ImageClip :=
  emit (EvResize new_size);;
  lib_action (resize_error env new_size);;
  ret (Resized image new_size).

(** [ImageClip(np.zeros((h, w, 3)), duration=d)] *)
Definition zeros_clip (h w : Z) (d : option Q) : M Rng ImageClip :=
  if ((h <? 0) || (w <? 0))%Z
  then raise (LibraryError
                (mkLibError "ValueError" "negative dimensions are not allowed"))
  else ret (ZerosImage w h d).

Definition _process_resolution (image : ImageClip) : M Rng ImageClip :=
  let '(target_w, target_h) := OUTPUT_RESOLUTION settings in
  if invalid_size (clip_size image)
  then raise (VideoProcessingError InvalidImageClip)
  else
    match clip_size image with
    | Some [Some img_w; Some img_h] =>
        log INFO (ProcessingImageResolution img_w img_h target_w target_h);;
        scale_w <- truediv target_w img_w;;
        scale_h <- truediv target_h img_h;;
        let scale := py_min scale_w scale_h in
        scaled_w <- int_times_float img_w scale;;
        new_w <- int_of_float scaled_w;;
        scaled_h <- int_times_float img_h scale;;
        new_h <- int_of_float scaled_h;;
        let new_size := (new_w, new_h) in
        image <- resize image new_size;;
        if negb ((fst new_size =? target_w)%Z && (snd new_size =? target_h)%Z)
        then
          padded <- zeros_clip target_h target_w (clip_duration image);;
          let x := ((target_w - fst new_size) / 2)%Z in
          let y := ((target_h - snd new_size) / 2)%Z in
          let image := Positioned image (x, y) in
          let image := Composite [padded; image] in
          ret image
        else ret image
    | _ =>
        (* [img_w, img_h = image.size] with another number of entries *)
        raise (LibraryError (mkLibError "ValueError" "wrong number of values to unpack"))
    end.

Definition _apply_enhanced_ken_burns (clip : ImageClip)
    (config : option KenBurnsConfig) : M Rng MotionClip :=
  if negb (truthy (clip_duration clip))
  then raise (VideoProcessingError KenBurnsDurationNotSet)
  else
    let config :=
      match config with
      | None => default_KenBurnsConfig
      | Some c => c
      end in
    match clip_duration clip with
    | Some duration =>
        log INFO (ApplyingKenBurns duration);;
        let direction := direction config in
        direction <-
          (if String.eqb direction "random"
           then random_choice (random env) ["in"; "out"]
           else ret direction);;
        ret {| base := clip;
               resize_fn := zoom_effect duration config direction;
               position_fn := pan_effect (random env) duration config |}
    | None => (* excluded by the guard *)
        raise (VideoProcessingError KenBurnsDurationNotSet)
    end.

Definition _prepare_video_clip (image : ImageClip) (audio : AudioFileClip)
    : M Rng ImageClip :=
  if negb (truthy (audio_duration audio))
  then raise (VideoProcessingError InvalidAudioMissingDuration)
  else
    let image := WithDuration image (audio_duration audio) in
    match audio_duration audio with
    | Some d => log INFO (SetImageDuration d)
    | None => ret tt (* excluded by the guard *)
    end;;
    ret image.

(** What the encoder asks of a layer to draw the frame at [t]: its
    zoom, and its position on the canvas. *)
Definition draw_layer (t : Q) (layer : MotionClip) : M Rng unit :=
  let zoom := resize_fn layer t in
  pos <- position_fn layer t;;
  ret tt.

(** [video.write_videofile(output_path, fps=30, ...)]: the encoder
    draws its frames, each one from every layer, and then returns or
    raises. *)
Definition write_videofile (video : Video) (output_path : string) : M Rng unit :=
  emit (EvWriteVideo output_path);;
  for_each (frame_times env)
    (fun t => for_each (video_layers video) (draw_layer t));;
  lib_action (write_error env output_path).

Definition _render_final_video (image : ImageClip) (audio : AudioFileClip)
    (ken_burns_config : option KenBurnsConfig) : M Rng string :=
  image <- _prepare_video_clip image audio;;
  image <- _apply_enhanced_ken_burns image ken_burns_config;;
  let video := {| video_layers := [image]; video_audio := audio |} in
  let output_path :=
    path_join (OUTPUT_DIR settings)
      ("generated_video_" ++ str_int (py_int (time_time env)) ++ ".mp4") in
  log INFO WritingVideoFile;;
  write_videofile video output_path;;
  ret output_path.

(** [create_video], the block under [with].  The [progress_callback]
    argument is only handed to the encoder as its progress logger and is
    left out. *)
Definition create_video_with (ken_burns_config : option KenBurnsConfig)
    (image : ImageClip) (audio : AudioFileClip) : M Rng (option string) :=
  if negb (truthy (audio_duration audio))
  then raise (VideoProcessingError InvalidAudioMissingDuration)
  else
    match audio_duration audio with
    | Some d =>
        if Qltb (inject_Z (MAX_VIDEO_LENGTH settings)
                 + DURATION_TOLERANCE settings) d
        then raise (VideoProcessingError
                      (AudioDurationExceeds d (MAX_VIDEO_LENGTH settings)
                         (DURATION_TOLERANCE settings)))
        else
          image <- _process_resolution image;;
          output_path <- _render_final_video image audio ken_burns_config;;
          log INFO (SuccessfullyCreated output_path);;
          ret (Some output_path)
    | None => (* excluded by the guard *)
        raise (VideoProcessingError InvalidAudioMissingDuration)
    end.

(** [create_video], the block under [try:]. *)
Definition create_video_try (image_path audio_path : string)
    (ken_burns_config : option KenBurnsConfig) : M Rng (option string) :=
  _validate_inputs image_path audio_path;;
  _manage_clips image_path audio_path (create_video_with ken_burns_config).

(** [create_video], the two [except] clauses. *)
Definition create_video_except (e : exn) : M Rng (option string) :=
  match e with
  | VideoProcessingError _ =>
      log ERROR (VideoProcessingErrorLog (str e));;
      ret None
  | LibraryError _ =>
      log ERROR (UnexpectedErrorLog (str e));;
      ret None
  end.

Definition create_video (image_path audio_path : string)
    (ken_burns_config : option KenBurnsConfig) : M Rng (option string) :=
  try_except (create_video_try image_path audio_path ken_burns_config)
             create_video_except.
End Synthesizer.

(* ------------------------------------------------------------------ *)
(** ** Vocabulary of the statements *)

(** Number of [EvOpen h], and of [EvClose h], in a trace. *)
Definition is_open (h : Handle) (ev : Event) : bool :=
  match ev, h with
  | EvOpen HImage, HImage => true
  | EvOpen HAudio, HAudio => true
  | _, _ => false
  end.

Definition is_close (h : Handle) (ev : Event) : bool :=
  match ev, h with
  | EvClose HImage, HImage => true
  | EvClose HAudio, HAudio => true
  | _, _ => false
  end.

Definition opens (h : Handle) (tr : list Event) : nat :=
  List.length (filter (is_open h) tr).

Definition closes (h : Handle) (tr : list Event) : nat :=
  List.length (filter (is_close h) tr).

(** An event that is neither the opening nor the closing of a clip. *)
Definition handle_free (ev : Event) : bool :=
  match ev with
  | EvOpen _ | EvClose _ => false
  | _ => true
  end.

(** The warning [_manage_clips] logs when closing [h] raised [e]. *)
Definition close_warning (h : Handle) (e : LibError) : Event :=
  match h with
  | HImage => EvLog WARNING (ErrorClosingImageClip (Text (err_text e)))
  | HAudio => EvLog WARNING (ErrorClosingAudioClip (Text (err_text e)))
  end.

(** What one guarded [close()] of the [finally] block leaves in the trace. *)
Definition close_events (env : Env) (h : Handle) : list Event :=
  EvClose h ::
  match close_error env h with
  | Some e => [close_warning h e]
  | None => []
  end.

(** An event of the resolution or rendering work. *)
Definition is_work (ev : Event) : bool :=
  match ev with
  | EvResize _ | EvWriteVideo _ => true
  | _ => false
  end.

(** The record [create_video] logs when the duration check fails. *)
Definition is_duration_failure (ev : Event) : bool :=
  match ev with
  | EvLog ERROR (VideoProcessingErrorLog (AudioDurationExceeds _ _ _)) => true
  | _ => false
  end.

(** The exception [create_video] raises when the duration check fails. *)
Definition is_duration_error (e : exn) : bool :=
  match e with
  | VideoProcessingError (AudioDurationExceeds _ _ _) => true
  | _ => false
  end.

(** An [ERROR] record. *)
Definition is_error_log (ev : Event) : bool :=
  match ev with
  | EvLog ERROR _ => true
  | _ => false
  end.

(** Every event a computation emits satisfies [P], every value it returns
    satisfies [Q] and every exception it raises satisfies [R]. *)
Definition Sat {S A} (P : Event -> Prop) (Q : A -> Prop) (R : exn -> Prop)
    (m : M S A) : Prop :=
  forall s,
    Forall P (events (m s)) /\
    match outcome (m s) with
    | Ok a => Q a
    | Raise e => R e
    end.

(** No [ERROR] record. *)
Definition no_error_log (ev : Event) : Prop := is_error_log ev = false.

(** Not the exception of the duration check. *)
Definition not_duration_error (e : exn) : Prop := is_duration_error e = false.

(** A clip whose position function only draws two random numbers: it
    logs nothing and does not raise. *)
Definition silent_motion (c : MotionClip) : Prop :=
  forall t k, exists pos, position_fn c t k = (Ok pos, [], S (S k)).

(** The path [_render_final_video] writes to and returns. *)
Definition output_path_of (settings : Settings) (env : Env) : string :=
  path_join (OUTPUT_DIR settings)
    ("generated_video_" ++ str_int (py_int (time_time env)) ++ ".mp4").

(** The new size as the specification words it:
    [(round(img_w*scale), round(img_h*scale))], in the arithmetic of the
    code, or the exception that arithmetic raises. *)
Definition spec_new_size (img_w img_h target_w target_h : Z) : Result (Z * Z) :=
  outcome
    ((scale_w <- truediv target_w img_w;;
      scale_h <- truediv target_h img_h;;
      let scale := py_min scale_w scale_h in
      scaled_w <- int_times_float img_w scale;;
      new_w <- round_of_float scaled_w;;
      scaled_h <- int_times_float img_h scale;;
      new_h <- round_of_float scaled_h;;
      ret (new_w, new_h)) tt).

(** The new size as [_process_resolution] computes it, or the exception
    its arithmetic raises. *)
Definition code_new_size (img_w img_h target_w target_h : Z) : Result (Z * Z) :=
  outcome
    ((scale_w <- truediv target_w img_w;;
      scale_h <- truediv target_h img_h;;
      let scale := py_min scale_w scale_h in
      scaled_w <- int_times_float img_w scale;;
      new_w <- int_of_float scaled_w;;
      scaled_h <- int_times_float img_h scale;;
      new_h <- int_of_float scaled_h;;
      ret (new_w, new_h)) tt).

(** Doubles as the Standard Library specifies them, for comparison. *)
Definition double_of_Z (n : Z) : spec_float :=
  binary_normalize 53 1024 n 0 false.

(** The rational a finite double stands for. *)
Definition double_value (f : spec_float) : option Q :=
  match f with
  | S754_zero _ => Some 0
  | S754_finite s m e =>
      Some ((if s then -1 else 1) * inject_Z (Zpos m) * pow2 e)
  | S754_infinity _ | S754_nan => None
  end.

Definition same_double (a b : option Q) : bool :=
  match a, b with
  | Some x, Some y => Qeq_bool x y
  | None, None => true
  | _, _ => false
  end.

(* ------------------------------------------------------------------ *)
(** ** Concrete inputs used to exercise the definitions *)

(** The frames of [seconds] seconds at [fps] frames a second. *)
Definition frames_at (fps seconds : Z) : list Q :=
  map (fun i => inject_Z (Z.of_nat i) / inject_Z fps)
      (seq 0 (Z.to_nat (fps * seconds))).

(** A generator whose successive [random()] answers are 0, 1/4, 1/2, 3/4,
    0, ... and whose index answers are all 0. *)
Definition cycling_oracle : RandomOracle :=
  {| unit_draw := fun k => inject_Z (Z.of_nat (k mod 4)) / 4;
     index_draw := fun _ _ => 0%nat |}.

(** An 800x600 image and 12 seconds of audio, every library call
    succeeding. *)
Definition quiet_env : Env :=
  {| path_exists := fun _ => true;
     path_getsize := fun _ => 4096%Z;
     Image_open := fun _ => inr [Some 800%Z; Some 600%Z];
     ImageClip_new := fun _ => inr (Some [Some 800%Z; Some 600%Z]);
     AudioFileClip_new := fun _ => inr (Some 12);
     close_error := fun _ => None;
     resize_error := fun _ => None;
     frame_times := frames_at 30 12;
     write_error := fun _ => None;
     time_time := 1700000000;
     random := cycling_oracle |}.

(** The same files, with both [close()] calls raising. *)
Definition stubborn_env : Env :=
  {| path_exists := fun _ => true;
     path_getsize := fun _ => 4096%Z;
     Image_open := fun _ => inr [Some 800%Z; Some 600%Z];
     ImageClip_new := fun _ => inr (Some [Some 800%Z; Some 600%Z]);
     AudioFileClip_new := fun _ => inr (Some 12);
     close_error := fun _ => Some (mkLibError "OSError" "handle already gone");
     resize_error := fun _ => None;
     frame_times := frames_at 30 12;
     write_error := fun _ => None;
     time_time := 1700000000;
     random := cycling_oracle |}.

(** A body of the [with] statement that fails in the middle of rendering. *)
Definition crashing_body (image : ImageClip) (audio : AudioFileClip)
    : M Rng string :=
  log INFO WritingVideoFile;;
  raise (LibraryError (mkLibError "IOError" "encoder pipe broken")).

(** No image file at all. *)
Definition missing_image_env : Env :=
  {| path_exists := fun _ => false;
     path_getsize := fun _ => 0%Z;
     Image_open := fun _ => inl (mkLibError "FileNotFoundError" "no such file");
     ImageClip_new := fun _ => inl (mkLibError "FileNotFoundError" "no such file");
     AudioFileClip_new := fun _ => inl (mkLibError "FileNotFoundError" "no such file");
     close_error := fun _ => None;
     resize_error := fun _ => None;
     frame_times := [];
     write_error := fun _ => None;
     time_time := 1700000000;
     random := cycling_oracle |}.

(** Good files, but 200 seconds of audio. *)
Definition long_audio_env : Env :=
  {| path_exists := fun _ => true;
     path_getsize := fun _ => 4096%Z;
     Image_open := fun _ => inr [Some 800%Z; Some 600%Z];
     ImageClip_new := fun _ => inr (Some [Some 800%Z; Some 600%Z]);
     AudioFileClip_new := fun _ => inr (Some 200);
     close_error := fun _ => None;
     resize_error := fun _ => None;
     frame_times := frames_at 30 200;
     write_error := fun _ => None;
     time_time := 1700000000;
     random := cycling_oracle |}.

(** The error record of a run, if it logged one. *)
Definition logged_error (tr : list Event) : option Message :=
  match filter is_error_log tr with
  | EvLog _ msg :: _ => Some msg
  | _ => None
  end.

(* ------------------------------------------------------------------ *)
(** ** Running a computation in a proof *)

Ltac run_monad :=
  cbv [bind ret raise emit log try_except try_finally lift with_frame get_frame
       assign_image_clip assign_audio_clip lib_call lib_action
       outcome events final];
  cbn [fst snd app image_clip audio_clip].

(** Good files, but the image decodes with an empty size. *)
Definition corrupt_image_env : Env :=
  {| path_exists := fun _ => true;
     path_getsize := fun _ => 4096%Z;
     Image_open := fun _ => inr [];
     ImageClip_new := fun _ => inr (Some []);
     AudioFileClip_new := fun _ => inr (Some 12);
     close_error := fun _ => None;
     resize_error := fun _ => None;
     frame_times := frames_at 30 12;
     write_error := fun _ => None;
     time_time := 1700000000;
     random := cycling_oracle |}.

(** [env] with other answers to [close()]. *)
Definition with_close_error (env : Env) (answers : Handle -> option LibError)
    : Env :=
  {| path_exists := path_exists env;
     path_getsize := path_getsize env;
     Image_open := Image_open env;
     ImageClip_new := ImageClip_new env;
     AudioFileClip_new := AudioFileClip_new env;
     close_error := answers;
     resize_error := resize_error env;
     frame_times := frame_times env;
     write_error := write_error env;
     time_time := time_time env;
     random := random env |}.

(** Number of calls of the encoder in a trace. *)
Definition is_write (ev : Event) : bool :=
  match ev with
  | EvWriteVideo _ => true
  | _ => false
  end.

Definition writes (tr : list Event) : nat := List.length (filter is_write tr).

(** An event that opens or closes no clip, calls no encoder and is no
    [ERROR] record. *)
Definition is_quiet (ev : Event) : bool :=
  handle_free ev && negb (is_write ev) && negb (is_error_log ev).

(* ------------------------------------------------------------------ *)
(** ** The rest of the application: its world *)

From Stdlib Require Import Ascii.

(** Source: [src/config/settings.py], [src/modules/story_generator.py],
    [src/modules/image_generator.py], [src/modules/tts_generator.py],
    [src/main.py] and [src/utils/voice_selector.py].

    A Python [str] is a [string] whose characters are the code points
    below 256.  What the code does to the outside is recorded, in order,
    as a list of [Action]s in the state; what the outside answers comes
    from the oracle [AppEnv].  The log records of these modules are
    [EvLog] events whose message is the formatted text. *)

Inductive Action : Type :=
| SetEnviron (key value : string)                 (* [os.environ[key] = value] *)
| Makedirs (path : string)                        (* [os.makedirs(path, exist_ok=True)] *)
| OllamaPost (endpoint model prompt : string)     (* [requests.post(endpoint, json=...)] *)
| Sleep (seconds : Z)                             (* [time.sleep(seconds)] returned *)
| SaveText (path content : string)                (* [open(path, 'w')], [f.write(content)] *)
| ImagePost (api_key prompt : string)             (* the POST to the image API *)
| ImageGet (url : string)                         (* [requests.get(url)] *)
| ImageSave (path : string)                       (* [image.save(path, "PNG")] *)
| SpeechInit (key region voice : string)          (* [SpeechConfig(...)] and the test synthesis *)
| Synthesize (ssml path : string)                 (* [speak_ssml_async(ssml).get()] into [path] *)
| LoadMp3 (path : string)                         (* [AudioSegment.from_mp3(path)] *)
| Speedup (playback_speed : Q)                    (* [audio.speedup(playback_speed=...)] *)
| ExportMp3 (path : string).                      (* [adjusted_audio.export(path, format="mp3")] *)

Record World : Type := mkWorld {
  w_rng : Rng;               (* the [random] module *)
  w_done : list Action       (* what has been done so far, oldest first *)
}.

(** Answer to a request sent with [requests]. *)
Inductive HttpAnswer : Type :=
| RequestFailed (e : LibError)   (* a [RequestException] *)
| OtherFailure (e : LibError)    (* any other exception *)
| Responded (body : string).     (* for Ollama: [response.json().get('response', '')] *)

(** Answer to writing a text file. *)
Inductive SaveAnswer : Type :=
| Saved
| SaveIOError (e : LibError)     (* an [IOError] *)
| SaveOtherError (e : LibError). (* any other exception *)

(** [result.reason] of a speech synthesis. *)
Inductive SynthesisReason : Type :=
| SynthesizingAudioCompleted
| Canceled (error : bool) (reason details : string)
    (* [CancellationDetails]: whether its reason is [Error], the reason and
       the error details as text *)
| OtherReason (name : string).

(** The namespace [parse_args()] returns. *)
Record Args : Type := mkArgs {
  ollama_endpoint : option string;
  ollama_model : option string;
  dalle_key : option string;
  output_dir : option string
}.

(** What [parser.parse_args()] does with the command line: it returns a
    namespace, or, for [--help] and for a command line it cannot parse, it
    leaves through [SystemExit]. *)
Inductive Parsed : Type :=
| Namespace (args : Args)
| SystemExit (code : Z).

(** How a call ends that no [Exception] leaves: it returns, or the
    interpreter exits.  [SystemExit] is not an [Exception]; none of the
    handlers of the program catches it. *)
Inductive Ending (A : Type) : Type :=
| Returned (a : A)
| Exited (code : Z).
Arguments Returned {A} a.
Arguments Exited {A} code.

Record AppEnv : Type := mkAppEnv {
  parse_args : Parsed;
    (* [argparse] on [sys.argv] *)
  import_environ : string -> option string;
    (* [os.environ] when [config.settings] was imported *)
  sleep_error : Z -> option LibError;
    (* what [time.sleep(seconds)] raises for a length that is not negative:
       [OverflowError] when it is too large *)
  makedirs_error : string -> option LibError;
  ollama_post : string -> string -> string -> nat -> HttpAnswer;
    (* endpoint, model, prompt, and how many requests went before *)
  story_save : string -> string -> SaveAnswer;
  image_post : string -> string -> LibError + string;
    (* API key and prompt: the POST, [raise_for_status] and
       [json()['data'][0]['url']] *)
  image_get : string -> LibError + string;
    (* the GET, [raise_for_status] and [.content] *)
  image_decode : string -> option LibError;   (* [Image.open(BytesIO(content))] *)
  image_save : string -> option LibError;
  speech_init : string -> string -> string -> LibError + SynthesisReason;
    (* key, region, voice: an exception, or the reason of the test synthesis *)
  speak_ssml : string -> string -> LibError + SynthesisReason;
  set_voice_error : string -> option LibError;
    (* what assigning [speech_synthesis_voice_name] raises *)
  from_mp3 : string -> LibError + Z;          (* [len(audio)], in milliseconds *)
  speedup_error : Q -> option LibError;
  export_error : string -> option LibError;
  media : Env                                  (* what the synthesizer sees *)
}.

Definition act (a : Action) : M World unit :=
  fun w => (Ok tt, [], {| w_rng := w_rng w; w_done := (w_done w ++ [a])%list |}).

(** Code of the synthesizer, run in the world. *)
Definition with_rng {A} (m : M Rng A) : M World A :=
  fun w =>
    match m (w_rng w) with
    | (r, l, k) => (r, l, {| w_rng := k; w_done := w_done w |})
    end.

(** [bool(s)] for a string. *)
Definition nonempty (s : string) : bool := negb (String.eqb s "").

(** [bool(s)] for an optional string. *)
Definition truthy_str (s : option string) : bool :=
  match s with
  | Some s => nonempty s
  | None => false
  end.

(** [ValueError(text)] *)
Definition ValueError (text : string) : exn :=
  LibraryError (mkLibError "ValueError" text).

(** The text of [str(e)] for the exceptions that reach the handlers of
    these modules.  [create_video] lets no [VideoProcessingError] out, so
    the second case is there for totality only. *)
Definition str_text (e : exn) : string :=
  match e with
  | LibraryError e => err_text e
  | VideoProcessingError _ => "VideoProcessingError"
  end.

(* ------------------------------------------------------------------ *)
(** ** [config/settings.py] *)

(** The whole dataclass.  The four fields the synthesizer reads are the
    record [Settings] above, kept here as [video_settings]. *)
Record AppSettings : Type := mkAppSettings {
  OLLAMA_ENDPOINT : string;
  OLLAMA_MODEL : string;
  DALLE_API_KEY : string;
  AZURE_TTS_KEY : string;
  AZURE_TTS_REGION : string;
  AZURE_TTS_VOICE : string;
  TTS_RATE : Z;
  TTS_PITCH : Z;
  TEMP_DIR : string;
  MAX_RETRIES : Z;
  RETRY_DELAY : Z;
  video_settings : Settings
}.

(** [os.getenv(key, default)] *)
Definition getenv (environ : string -> option string) (key default : string)
    : string :=
  match environ key with
  | Some v => v
  | None => default
  end.

(** The defaults of the dataclass.  They are class attributes: the calls
    of [os.getenv] run once, when the module is imported. *)
Definition Settings_defaults (environ : string -> option string) : AppSettings :=
  {| OLLAMA_ENDPOINT := getenv environ "OLLAMA_ENDPOINT" "http://localhost:11434";
     OLLAMA_MODEL := getenv environ "OLLAMA_MODEL" "mistral";
     DALLE_API_KEY := getenv environ "DALLE_API_KEY" "";
     AZURE_TTS_KEY := getenv environ "AZURE_TTS_KEY" "";
     AZURE_TTS_REGION := getenv environ "AZURE_TTS_REGION" "ukwest";
     AZURE_TTS_VOICE := getenv environ "AZURE_TTS_VOICE" "en-US-JasonNeural";
     TTS_RATE := 0;
     TTS_PITCH := 0;
     TEMP_DIR := "temp";
     MAX_RETRIES := 3;
     RETRY_DELAY := 5;
     video_settings := default_Settings |}.

(** [settings.OUTPUT_DIR = output_dir] *)
Definition set_OUTPUT_DIR (s : AppSettings) (output_dir : string) : AppSettings :=
  {| OLLAMA_ENDPOINT := OLLAMA_ENDPOINT s;
     OLLAMA_MODEL := OLLAMA_MODEL s;
     DALLE_API_KEY := DALLE_API_KEY s;
     AZURE_TTS_KEY := AZURE_TTS_KEY s;
     AZURE_TTS_REGION := AZURE_TTS_REGION s;
     AZURE_TTS_VOICE := AZURE_TTS_VOICE s;
     TTS_RATE := TTS_RATE s;
     TTS_PITCH := TTS_PITCH s;
     TEMP_DIR := TEMP_DIR s;
     MAX_RETRIES := MAX_RETRIES s;
     RETRY_DELAY := RETRY_DELAY s;
     video_settings :=
       {| MAX_VIDEO_LENGTH := MAX_VIDEO_LENGTH (video_settings s);
          DURATION_TOLERANCE := DURATION_TOLERANCE (video_settings s);
          OUTPUT_RESOLUTION := OUTPUT_RESOLUTION (video_settings s);
          OUTPUT_DIR := output_dir |} |}.

(** The prompt of [generate_story]. *)
Definition story_prompt : string :=
"
        Create a short, suspenseful tech horror story suitable for video narration. The story should:
        - Be concise (fitting within 180 seconds when read aloud)
        - Have a clear beginning, middle, and end
        - Focus on modern technology gone wrong (AI, smart homes, social media, etc.)
        - Build tension through atmosphere rather than violence
        - Include subtle horror elements without being explicitly graphic
        - End with an unsettling technological twist
        - Be between 200-250 words
        
        Format the response as a single cohesive story in a Black Mirror style, without any additional commentary.
        Avoid gore, explicit violence, or extreme horror - focus on psychological tension and technological unease.
        ".

Section Application.
Variable env : AppEnv.

(** [os.makedirs(path, exist_ok=True)] *)
Definition makedirs (path : string) : M World unit :=
  act (Makedirs path);;
  lib_action (makedirs_error env path).

(** [Settings()]: the generated [__init__], then [__post_init__]. *)
Definition Settings_new : M World AppSettings :=
  let self := Settings_defaults (import_environ env) in
  if negb (nonempty (DALLE_API_KEY self))
  then raise (ValueError "DALLE_API_KEY environment variable is required")
  else
    makedirs (TEMP_DIR self);;
    makedirs (OUTPUT_DIR (video_settings self));;
    ret self.

(* ---------------------------------------------------------------- *)
(** *** [modules/story_generator.py] *)

Record StoryGenerator : Type := mkStoryGenerator {
  sg_settings : AppSettings;
  sg_endpoint : string;
  sg_story_file : string
}.

(** [StoryGenerator(settings)] *)
Definition StoryGenerator_new (settings : AppSettings) : StoryGenerator :=
  {| sg_settings := settings;
     sg_endpoint := "http://localhost:11434/api/generate";
     sg_story_file :=
       path_join (OUTPUT_DIR (video_settings settings)) "generated_story.txt" |}.

(** Number of requests sent to Ollama so far. *)
Definition is_ollama_post (a : Action) : bool :=
  match a with
  | OllamaPost _ _ _ => true
  | _ => false
  end.

Definition ollama_posts (done : list Action) : nat :=
  List.length (filter is_ollama_post done).

(** The body of the [try] in [_make_request]: the POST,
    [raise_for_status()] and [response.json().get('response', '')]. *)
Definition post_to_ollama (self : StoryGenerator) (prompt : string)
    : M World HttpAnswer :=
  fun w =>
    (Ok (ollama_post env (sg_endpoint self) "deepseek-r1:32b" prompt
           (ollama_posts (w_done w))),
     [],
     {| w_rng := w_rng w;
        w_done := (w_done w
                   ++ [OllamaPost (sg_endpoint self) "deepseek-r1:32b" prompt])%list |}).

(** What [time.sleep(seconds)] raises, if anything: a negative length
    is a [ValueError]. *)
Definition sleep_raises (seconds : Z) : option exn :=
  if (seconds <? 0)%Z
  then Some (ValueError "sleep length must be non-negative")
  else option_map LibraryError (sleep_error env seconds).

(** [time.sleep(seconds)] *)
Definition time_sleep (seconds : Z) : M World unit :=
  match sleep_raises seconds with
  | Some e => raise e
  | None => act (Sleep seconds)
  end.

(** [_make_request], with the depth of recursion still allowed as the
    structural argument. *)
Fixpoint _make_request_from (depth : nat) (self : StoryGenerator)
    (prompt : string) (retries : Z) : M World (option string) :=
  answer <- post_to_ollama self prompt;;
  match answer with
  | Responded body => ret (Some body)
  | OtherFailure e => raise (LibraryError e)
  | RequestFailed e =>
      if (retries <? MAX_RETRIES (sg_settings self))%Z
      then
        log WARNING
          (Text ("Ollama request failed, retrying... ("
                 ++ str_int (retries + 1) ++ "/"
                 ++ str_int (MAX_RETRIES (sg_settings self)) ++ ")"));;
        time_sleep (RETRY_DELAY (sg_settings self));;
        match depth with
        | S depth' => _make_request_from depth' self prompt (retries + 1)
        | O =>
            raise (LibraryError
                     (mkLibError "RecursionError"
                        "maximum recursion depth exceeded"))
        end
      else
        log ERROR
          (Text ("Failed to generate story after "
                 ++ str_int (MAX_RETRIES (sg_settings self))
                 ++ " retries: " ++ err_text e));;
        ret None
  end.

(** [_make_request(prompt, retries)]: the recursion is at most
    [MAX_RETRIES - retries] calls deep. *)
Definition _make_request (self : StoryGenerator) (prompt : string)
    (retries : Z) : M World (option string) :=
  _make_request_from (Z.to_nat (MAX_RETRIES (sg_settings self) - retries))
    self prompt retries.

(* ---------------------------------------------------------------- *)
(** *** [_clean_story]: three substitutions and a strip *)

(** [\s] in a pattern and the characters [str.strip()] removes: the
    white space of Unicode below 256. *)
Definition is_space (c : ascii) : bool :=
  let n := nat_of_ascii c in
  ((9 <=? n) && (n <=? 13) || (28 <=? n) && (n <=? 31)
   || (n =? 32) || (n =? 133) || (n =? 160))%nat.

Fixpoint starts_with (p l : list ascii) : bool :=
  match p, l with
  | [], _ => true
  | a :: p', b :: l' => Ascii.eqb a b && starts_with p' l'
  | _ :: _, [] => false
  end.

(** Length of the shortest prefix of [l] that ends with [needle]. *)
Fixpoint find_end (needle l : list ascii) : option nat :=
  if starts_with needle l then Some (List.length needle)
  else
    match l with
    | [] => None
    | _ :: rest => option_map S (find_end needle rest)
    end.

(** [re.sub(pattern, repl, text)] for a pattern that matches no empty
    string: [match_at l] is the length of the match of the pattern at
    the head of [l], if there is one.  The text is read from the left;
    where the pattern matches, the match is replaced and reading goes on
    behind it ([skip] counts the characters of the match still to pass);
    elsewhere the character is kept. *)
Fixpoint re_sub (match_at : list ascii -> option nat) (repl : list ascii)
    (skip : nat) (l : list ascii) : list ascii :=
  match l with
  | [] => []
  | c :: rest =>
      match skip with
      | S n => re_sub match_at repl n rest
      | O =>
          match match_at l with
          | Some (S n) => repl ++ re_sub match_at repl n rest
          | _ => c :: re_sub match_at repl 0 rest
          end
      end
  end.

(** [<think>.*?</think>] with [re.DOTALL]: up to the first closing tag. *)
Definition think_match (l : list ascii) : option nat :=
  if starts_with (list_ascii_of_string "<think>") l
  then option_map (Nat.add 7)
         (find_end (list_ascii_of_string "</think>") (skipn 7 l))
  else None.

(** [<[^>]+>]: a [<], one character or more other than [>], and a [>]. *)
Definition tag_match (l : list ascii) : option nat :=
  match l with
  | "<"%char :: d :: rest =>
      if Ascii.eqb d ">" then None
      else option_map (Nat.add 2) (find_end [">"%char] rest)
  | _ => None
  end.

(** Number of white space characters at the head of [l]. *)
Fixpoint space_run (l : list ascii) : nat :=
  match l with
  | c :: rest => if is_space c then S (space_run rest) else 0
  | [] => 0
  end.

(** [\s+] *)
Definition space_match (l : list ascii) : option nat :=
  match space_run l with
  | O => None
  | n => Some n
  end.

Fixpoint lstrip (l : list ascii) : list ascii :=
  match l with
  | c :: rest => if is_space c then lstrip rest else l
  | [] => []
  end.

(** [text.strip()] *)
Definition strip (l : list ascii) : list ascii :=
  rev (lstrip (rev (lstrip l))).

Definition clean_chars (l : list ascii) : list ascii :=
  let l := re_sub think_match [] 0 l in
  let l := re_sub tag_match [] 0 l in
  let l := re_sub space_match [" "%char] 0 l in
  strip l.

Definition _clean_story (text : string) : string :=
  string_of_list_ascii (clean_chars (list_ascii_of_string text)).

(** [with open(self.story_file, 'w') as f: f.write(story)] under its
    [try], with the [except IOError] clause. *)
Definition save_story (self : StoryGenerator) (story : string) : M World unit :=
  act (SaveText (sg_story_file self) story);;
  match story_save env (sg_story_file self) story with
  | Saved => log INFO (Text ("Story saved to " ++ sg_story_file self))
  | SaveIOError e =>
      log ERROR (Text ("Failed to save story to file: " ++ err_text e))
  | SaveOtherError e => raise (LibraryError e)
  end.

Definition generate_story (self : StoryGenerator) : M World (option string) :=
  story <- _make_request self story_prompt 0;;
  match story with
  | Some raw =>
      if nonempty raw
      then
        let story := _clean_story raw in
        save_story self story;;
        log INFO (Text "Successfully generated story");;
        ret (Some story)
      else
        log ERROR (Text "Failed to generate story");;
        ret None
  | None =>
      log ERROR (Text "Failed to generate story");;
      ret None
  end.

(* ---------------------------------------------------------------- *)
(** *** [modules/image_generator.py] *)

Definition _generate_image_prompt (story : string) : string :=
  let base_prompt :=
    "Create a modern, minimalist tech scene with dramatic lighting and shadows. " in
  let style_prompt :=
    "Style: Cyberpunk-inspired digital art, muted colors with neon accents, clean lines. " in
  let content_prompt := "Scene showing: " ++ substring 0 200 story in
  let safety_prompt :=
    "Focus on technological elements and atmosphere. Avoid explicit horror or disturbing imagery. Keep it subtle and psychological." in
  base_prompt ++ style_prompt ++ content_prompt ++ ". " ++ safety_prompt.

(** [ImageGenerator(settings).generate_image(story)] *)
Definition generate_image (settings : AppSettings) (story : string)
    : M World (option string) :=
  let prompt := _generate_image_prompt story in
  try_except
    (act (ImagePost (DALLE_API_KEY settings) prompt);;
     image_url <- lib_call (image_post env (DALLE_API_KEY settings) prompt);;
     act (ImageGet image_url);;
     content <- lib_call (image_get env image_url);;
     lib_action (image_decode env content);;
     let output_path := path_join (TEMP_DIR settings) "generated_image.png" in
     act (ImageSave output_path);;
     lib_action (image_save env output_path);;
     log INFO (Text ("Successfully generated and saved image to " ++ output_path));;
     ret (Some output_path))
    (fun e =>
       log ERROR (Text ("Failed to generate image: " ++ str_text e));;
       ret None).

(* ---------------------------------------------------------------- *)
(** *** [modules/tts_generator.py] *)

Record TTSGenerator : Type := mkTTSGenerator {
  tts_settings : AppSettings;
  speech_synthesis_voice_name : string
}.

(** [TTSGenerator(settings)] *)
Definition TTSGenerator_new (settings : AppSettings) : M World TTSGenerator :=
  if negb (nonempty (AZURE_TTS_KEY settings))
  then raise (ValueError "AZURE_TTS_KEY is required for TTS generation")
  else
    try_except
      (log INFO (Text ("Initializing Azure Speech Service in region: "
                       ++ AZURE_TTS_REGION settings));;
       act (SpeechInit (AZURE_TTS_KEY settings) (AZURE_TTS_REGION settings)
              (AZURE_TTS_VOICE settings));;
       test_reason <- lib_call (speech_init env (AZURE_TTS_KEY settings)
                                  (AZURE_TTS_REGION settings)
                                  (AZURE_TTS_VOICE settings));;
       match test_reason with
       | SynthesizingAudioCompleted =>
           log INFO (Text ("Successfully initialized TTS with region: "
                           ++ AZURE_TTS_REGION settings));;
           ret {| tts_settings := settings;
                  speech_synthesis_voice_name := AZURE_TTS_VOICE settings |}
       | Canceled true _ details =>
           raise (ValueError ("Speech service error: " ++ details))
       | Canceled false _ _ =>
           raise (ValueError
                    "Speech synthesis test failed: ResultReason.Canceled")
       | OtherReason name =>
           raise (ValueError ("Speech synthesis test failed: " ++ name))
       end)
      (fun e =>
         log ERROR (Text ("Failed to initialize speech config: " ++ str_text e));;
         raise (ValueError
                  ("Failed to initialize Azure Speech service. Please check your credentials. Error: "
                   ++ str_text e))).

(** [set_voice(voice_id)]: the generator after the call, and the value
    returned. *)
Definition set_voice (self : TTSGenerator) (voice_id : string)
    : M World (TTSGenerator * bool) :=
  match set_voice_error env voice_id with
  | None =>
      log INFO (Text ("Set TTS voice to " ++ voice_id));;
      ret ({| tts_settings := tts_settings self;
              speech_synthesis_voice_name := voice_id |}, true)
  | Some e =>
      log ERROR (Text ("Failed to set voice " ++ voice_id ++ ": " ++ err_text e));;
      ret (self, false)
  end.

(** [current_duration / target_duration], a float by an integer. *)
Definition float_div (a : Q) (b : Z) : M World Q :=
  if (b =? 0)%Z
  then raise (LibraryError
                (mkLibError "ZeroDivisionError" "float division by zero"))
  else ret (a / inject_Z b).

(** The two durations of the "Audio adjusted" record are printed with
    one decimal; they are left out of its text. *)
Definition _adjust_audio_speed (self : TTSGenerator) (audio_path : string)
    (target_duration : Z) : M World (option string) :=
  try_except
    (act (LoadMp3 audio_path);;
     len_audio <- lib_call (from_mp3 env audio_path);;
     let current_duration := inject_Z len_audio / 1000 in
     if Qltb (inject_Z target_duration) current_duration
     then
       speed_factor <- float_div current_duration target_duration;;
       act (Speedup speed_factor);;
       lib_action (speedup_error env speed_factor);;
       let adjusted_path :=
         path_join (TEMP_DIR (tts_settings self)) "narration_adjusted.mp3" in
       act (ExportMp3 adjusted_path);;
       lib_action (export_error env adjusted_path);;
       log INFO (Text "Audio adjusted");;
       ret (Some adjusted_path)
     else ret (Some audio_path))
    (fun e =>
       log ERROR (Text ("Failed to adjust audio speed: " ++ str_text e));;
       ret None).

(** The double quote character. *)
Definition dquote : string := String "034"%char EmptyString.

Definition generate_audio (self : TTSGenerator) (text : string)
    : M World (option string) :=
  try_except
    (let output_path := path_join (TEMP_DIR (tts_settings self)) "narration.mp3" in
     let ssml_text :=
       "<speak version=" ++ dquote ++ "1.0" ++ dquote
       ++ " xmlns=" ++ dquote ++ "http://www.w3.org/2001/10/synthesis" ++ dquote
       ++ " xml:lang=" ++ dquote ++ "en-US" ++ dquote ++ ">"
       ++ "<voice name=" ++ dquote ++ speech_synthesis_voice_name self ++ dquote
       ++ ">" ++ text ++ "</voice>"
       ++ "</speak>" in
     log INFO (Text ("Using SSML: " ++ ssml_text));;
     act (Synthesize ssml_text output_path);;
     reason <- lib_call (speak_ssml env ssml_text output_path);;
     match reason with
     | SynthesizingAudioCompleted =>
         final_path <-
           _adjust_audio_speed self output_path
             (MAX_VIDEO_LENGTH (video_settings (tts_settings self)));;
         if negb (truthy_str final_path)
         then ret None
         else
           match final_path with
           | Some p =>
               log INFO (Text ("Successfully generated audio file at " ++ p))
           | None => ret tt
           end;;
           ret final_path
     | Canceled is_error cancel_reason details =>
         log ERROR
           (Text ("Speech synthesis canceled: " ++ cancel_reason ++ ". "
                  ++ (if is_error then "Error details: " ++ details else "")));;
         ret None
     | OtherReason name =>
         log ERROR (Text ("Speech synthesis failed with reason: " ++ name));;
         ret None
     end)
    (fun e =>
       log ERROR (Text ("Failed to generate audio: " ++ str_text e));;
       ret None).

(* ---------------------------------------------------------------- *)
(** *** [main.py] *)

(** [if value: os.environ[key] = value] *)
Definition override_environ (key : string) (value : option string)
    : M World unit :=
  match value with
  | Some v => if nonempty v then act (SetEnviron key v) else ret tt
  | None => ret tt
  end.

(** [main] from [# Generate story] on: the four stages, each one run
    only if the one before returned something truthy. *)
Definition main_stages (settings : AppSettings) (story_gen : StoryGenerator)
    (tts_gen : TTSGenerator) : M World (option string) :=
  log INFO (Text "Generating story...");;
  story <- generate_story story_gen;;
  match story with
  | Some story =>
      if negb (nonempty story) then ret None
      else
        log INFO (Text "Generating image...");;
        image_path <- generate_image settings story;;
        match image_path with
        | Some image_path =>
            if negb (nonempty image_path) then ret None
            else
              log INFO (Text "Generating audio narration...");;
              audio_path <- generate_audio tts_gen story;;
              match audio_path with
              | Some audio_path =>
                  if negb (nonempty audio_path) then ret None
                  else
                    log INFO (Text "Creating final video...");;
                    video_path <-
                      with_rng (create_video (video_settings settings)
                                  (media env) image_path audio_path None);;
                    match video_path with
                    | Some video_path =>
                        if negb (nonempty video_path) then ret None
                        else
                          log INFO (Text ("Video generation complete! Output: "
                                          ++ video_path));;
                          ret (Some video_path)
                    | None => ret None
                    end
              | None => ret None
              end
        | None => ret None
        end
  | None => ret None
  end.

(** [main], the block under [try:]: the settings and the components,
    then the stages. *)
Definition main_try (args : Args) : M World (option string) :=
  settings <- Settings_new;;
  settings <-
    match output_dir args with
    | Some dir =>
        if nonempty dir
        then
          let settings := set_OUTPUT_DIR settings dir in
          makedirs (OUTPUT_DIR (video_settings settings));;
          ret settings
        else ret settings
    | None => ret settings
    end;;
  let story_gen := StoryGenerator_new settings in
  tts_gen <- TTSGenerator_new settings;;
  main_stages settings story_gen tts_gen.

(** [main], after the command line is parsed. *)
Definition main_with (args : Args) : M World (option string) :=
  override_environ "OLLAMA_ENDPOINT" (ollama_endpoint args);;
  override_environ "OLLAMA_MODEL" (ollama_model args);;
  override_environ "DALLE_API_KEY" (dalle_key args);;
  try_except (main_try args)
    (fun e =>
       log ERROR (Text ("Video generation failed: " ++ str_text e));;
       ret None).

(** [main()].  [parse_args()] is called outside the [try]: when it
    leaves through [SystemExit], so does [main]. *)
Definition main : M World (Ending (option string)) :=
  match parse_args env with
  | Namespace args =>
      video_path <- main_with args;;
      ret (Returned video_path)
  | SystemExit code => ret (Exited code)
  end.

(** What [n] failed attempts leave behind: each a request, then a sleep. *)
Definition retry_actions (self : StoryGenerator) (prompt : string) (n : nat)
    : list Action :=
  List.concat
    (repeat [OllamaPost (sg_endpoint self) "deepseek-r1:32b" prompt;
             Sleep (RETRY_DELAY (sg_settings self))] n).

(** The answer to the request sent after [n] others. *)
Definition story_answer (self : StoryGenerator) (prompt : string) (n : nat)
    : HttpAnswer :=
  ollama_post env (sg_endpoint self) "deepseek-r1:32b" prompt n.
End Application.

(* ------------------------------------------------------------------ *)
(** ** Concrete worlds used to exercise the application *)

(** The command line with no option, and with every option. *)
Definition no_args : Args :=
  {| ollama_endpoint := None; ollama_model := None;
     dalle_key := None; output_dir := None |}.

Definition all_args : Args :=
  {| ollama_endpoint := Some "http://ollama.example:11434";
     ollama_model := Some "llama3";
     dalle_key := Some "sk-from-the-command-line";
     output_dir := Some "out" |}.

Definition HTTP_503 : LibError := mkLibError "HTTPError" "503 Server Error".

(** Every call of a library succeeds; Ollama answers [answers n] to the
    request sent after [n] others. *)
Definition app_env (answers : nat -> HttpAnswer)
    (environ : string -> option string) : AppEnv :=
  {| parse_args := Namespace no_args;
     import_environ := environ;
     sleep_error := fun _ => None;
     makedirs_error := fun _ => None;
     ollama_post := fun _ _ _ n => answers n;
     story_save := fun _ _ => Saved;
     image_post := fun _ _ => inr "https://images.example/1.png";
     image_get := fun _ => inr "PNG";
     image_decode := fun _ => None;
     image_save := fun _ => None;
     speech_init := fun _ _ _ => inr SynthesizingAudioCompleted;
     speak_ssml := fun _ _ => inr SynthesizingAudioCompleted;
     set_voice_error := fun _ => None;
     from_mp3 := fun _ => inr 12000%Z;
     speedup_error := fun _ => None;
     export_error := fun _ => None;
     media := quiet_env |}.

(** Ollama fails twice, then answers. *)
Definition flaky_ollama : AppEnv :=
  app_env (fun n => if (n <? 2)%nat then RequestFailed HTTP_503
                    else Responded "Once upon a time")
          (fun _ => None).

(** Ollama never answers. *)
Definition dead_ollama : AppEnv :=
  app_env (fun _ => RequestFailed HTTP_503) (fun _ => None).

(** Ollama answers at once, with a thinking block and stray blanks. *)
Definition chatty_ollama : AppEnv :=
  app_env (fun _ => Responded "<think>plan</think> A  dark  tale.")
          (fun _ => None).

(** The synthesized narration lasts 200 seconds. *)
Definition long_speech : AppEnv :=
  {| parse_args := Namespace no_args;
     import_environ := fun _ => None;
     sleep_error := fun _ => None;
     makedirs_error := fun _ => None;
     ollama_post := fun _ _ _ _ => Responded "A dark tale.";
     story_save := fun _ _ => Saved;
     image_post := fun _ _ => inr "https://images.example/1.png";
     image_get := fun _ => inr "PNG";
     image_decode := fun _ => None;
     image_save := fun _ => None;
     speech_init := fun _ _ _ => inr SynthesizingAudioCompleted;
     speak_ssml := fun _ _ => inr SynthesizingAudioCompleted;
     set_voice_error := fun _ => None;
     from_mp3 := fun _ => inr 200000%Z;
     speedup_error := fun _ => None;
     export_error := fun _ => None;
     media := long_audio_env |}.

(** [env] run on another command line. *)
Definition on_command_line (parsed : Parsed) (env : AppEnv) : AppEnv :=
  {| parse_args := parsed;
     import_environ := import_environ env;
     sleep_error := sleep_error env;
     makedirs_error := makedirs_error env;
     ollama_post := ollama_post env;
     story_save := story_save env;
     image_post := image_post env;
     image_get := image_get env;
     image_decode := image_decode env;
     image_save := image_save env;
     speech_init := speech_init env;
     speak_ssml := speak_ssml env;
     set_voice_error := set_voice_error env;
     from_mp3 := from_mp3 env;
     speedup_error := speedup_error env;
     export_error := export_error env;
     media := media env |}.

(** A retry delay below zero. *)
Definition hasty_settings : AppSettings :=
  {| OLLAMA_ENDPOINT := "http://localhost:11434";
     OLLAMA_MODEL := "mistral";
     DALLE_API_KEY := "sk";
     AZURE_TTS_KEY := "azure-key";
     AZURE_TTS_REGION := "ukwest";
     AZURE_TTS_VOICE := "en-US-JasonNeural";
     TTS_RATE := 0;
     TTS_PITCH := 0;
     TEMP_DIR := "temp";
     MAX_RETRIES := 3;
     RETRY_DELAY := -1;
     video_settings := default_Settings |}.

(* ------------------------------------------------------------------ *)
(** ** Vocabulary for the runs of [main] *)

(** What [if value: os.environ[key] = value] does. *)
Definition environ_update (key : string) (value : option string) : list Action :=
  match value with
  | Some v => if nonempty v then [SetEnviron key v] else []
  | None => []
  end.

(** The three assignments at the head of [main]. *)
Definition overrides (args : Args) : list Action :=
  (environ_update "OLLAMA_ENDPOINT" (ollama_endpoint args)
   ++ environ_update "OLLAMA_MODEL" (ollama_model args)
   ++ environ_update "DALLE_API_KEY" (dalle_key args))%list.

(** The document [generate_audio] sends for a voice and a text. *)
Definition ssml_of (voice text : string) : string :=
  "<speak version=" ++ dquote ++ "1.0" ++ dquote
  ++ " xmlns=" ++ dquote ++ "http://www.w3.org/2001/10/synthesis" ++ dquote
  ++ " xml:lang=" ++ dquote ++ "en-US" ++ dquote ++ ">"
  ++ "<voice name=" ++ dquote ++ voice ++ dquote
  ++ ">" ++ text ++ "</voice>"
  ++ "</speak>".

(** The settings [main] works with: those of the import, with the output
    directory of the command line if one is given. *)
Definition main_settings (env : AppEnv) (args : Args) : AppSettings :=
  let settings := Settings_defaults (import_environ env) in
  match output_dir args with
  | Some dir => if nonempty dir then set_OUTPUT_DIR settings dir else settings
  | None => settings
  end.

(** What [main] does before the first stage, when nothing fails: the
    directories and the test of the speech service. *)
Definition setup_actions (env : AppEnv) (args : Args) : list Action :=
  let s0 := Settings_defaults (import_environ env) in
  ([Makedirs (TEMP_DIR s0); Makedirs (OUTPUT_DIR (video_settings s0))]
   ++ match output_dir args with
      | Some dir => if nonempty dir then [Makedirs dir] else []
      | None => []
      end
   ++ [SpeechInit (AZURE_TTS_KEY s0) (AZURE_TTS_REGION s0) (AZURE_TTS_VOICE s0)])%list.

(** What [_adjust_audio_speed] does to the outside. *)
Definition is_audio_action (a : Action) : bool :=
  match a with
  | LoadMp3 _ | Speedup _ | ExportMp3 _ => true
  | _ => false
  end.

(** The world after some actions more. *)
Definition world_after (w : World) (acts : list Action) : World :=
  {| w_rng := w_rng w; w_done := (w_done w ++ acts)%list |}.

(** The environment at import: both keys set, or none. *)
Definition keys_set (key : string) : option string :=
  if String.eqb key "DALLE_API_KEY" then Some "sk-from-the-environment"
  else if String.eqb key "AZURE_TTS_KEY" then Some "azure-key"
  else None.

Definition only_dalle_key (key : string) : option string :=
  if String.eqb key "DALLE_API_KEY" then Some "sk-from-the-environment"
  else None.

Definition healthy_world : AppEnv :=
  app_env (fun _ => Responded "<think>plot</think> The router  blinked.") keys_set.

(* ------------------------------------------------------------------ *)
(** ** Vocabulary for [_clean_story] *)

(** The pattern [match_at] matches nowhere in [l]. *)
Fixpoint matches_nowhere (match_at : list ascii -> option nat) (l : list ascii)
    : bool :=
  match l with
  | [] => true
  | _ :: rest =>
      match match_at l with
      | None => matches_nowhere match_at rest
      | Some _ => false
      end
  end.

(** White space squeezed from left to right: each run becomes one blank.
    [in_run] tells that the character before was white space. *)
Fixpoint squeeze (in_run : bool) (l : list ascii) : list ascii :=
  match l with
  | [] => []
  | c :: rest =>
      if is_space c
      then if in_run then squeeze true rest else " "%char :: squeeze true rest
      else c :: squeeze false rest
  end.

(** No two white space characters side by side. *)
Fixpoint no_adjacent_spaces (l : list ascii) : bool :=
  match l with
  | c :: rest =>
      match rest with
      | d :: _ => negb (is_space c && is_space d) && no_adjacent_spaces rest
      | [] => true
      end
  | [] => true
  end.

(** The list does not begin with white space. *)
Definition starts_clean (l : list ascii) : bool :=
  match l with
  | c :: _ => negb (is_space c)
  | [] => true
  end.

(** The normal form [_clean_story] produces. *)
Definition cleaned (r : list ascii) : Prop :=
  (forall c, In c r -> is_space c = true -> c = " "%char) /\
  no_adjacent_spaces r = true /\
  starts_clean r = true /\
  starts_clean (rev r) = true /\
  (forall pre post, r = (pre ++ post)%list -> tag_match post = None).


(* ------------------------------------------------------------------ *)
(** ** Comparison lemmas *)

Open Scope list_scope.

Lemma Qltb_lt (x y : Q) : Qltb x y = true <-> x < y.
Proof.
  unfold Qltb. rewrite negb_true_iff.
  split; intro H.
  - apply Qnot_le_lt. intro Hle. apply Qle_bool_iff in Hle. congruence.
  - destruct (Qle_bool y x) eqn:E; [|reflexivity].
    apply Qle_bool_iff in E. exfalso. revert E. apply Qlt_not_le. exact H.
Qed.

Lemma Qltb_ge (x y : Q) : Qltb x y = false <-> y <= x.
Proof.
  unfold Qltb. rewrite negb_false_iff. apply Qle_bool_iff.
Qed.

Lemma truthy_Some (d : option Q) :
  truthy d = true -> exists q, d = Some q /\ ~ q == 0.
Proof.
  destruct d as [q|]; simpl; [|discriminate].
  intro H. exists q. split; [reflexivity|].
  intro Hq. apply Qeq_bool_iff in Hq. rewrite Hq in H. discriminate.
Qed.

(* ------------------------------------------------------------------ *)
(** ** The easing curve *)

Section Easing.
Variable duration : Q.
Hypothesis duration_nonzero : ~ duration == 0.

Lemma ease_in_out_low (t : Q) :
  t / duration < 1 # 2 ->
  ease_in_out duration t == 2 * (t / duration) * (t / duration).
Proof.
  intro H. unfold ease_in_out.
  apply Qltb_lt in H. rewrite H. reflexivity.
Qed.

Lemma ease_in_out_high (t : Q) :
  1 # 2 <= t / duration ->
  ease_in_out duration t == 1 - 2 * (1 - t / duration) * (1 - t / duration).
Proof.
  intro H. unfold ease_in_out.
  apply Qltb_ge in H. rewrite H. ring.
Qed.

Lemma normalized_start : 0 / duration == 0.
Proof. field. exact duration_nonzero. Qed.

Lemma normalized_end : duration / duration == 1.
Proof. field. exact duration_nonzero. Qed.

Lemma normalized_middle : (duration / 2) / duration == 1 # 2.
Proof. field. exact duration_nonzero. Qed.

Lemma ease_in_out_start : ease_in_out duration 0 == 0.
Proof.
  rewrite ease_in_out_low; rewrite normalized_start; [ring | reflexivity].
Qed.

Lemma ease_in_out_end : ease_in_out duration duration == 1.
Proof.
  rewrite ease_in_out_high; rewrite normalized_end; [ring | discriminate].
Qed.

Lemma ease_in_out_middle : ease_in_out duration (duration / 2) == 1 # 2.
Proof.
  rewrite ease_in_out_high; rewrite normalized_middle; [ring | discriminate].
Qed.

Lemma ease_in_out_monotone (t1 t2 : Q) :
  0 <= t1 / duration -> t1 / duration <= t2 / duration -> t2 / duration <= 1 ->
  ease_in_out duration t1 <= ease_in_out duration t2.
Proof.
  intros H0 H12 H1.
  destruct (Qlt_le_dec (t1 / duration) (1 # 2)) as [L1|G1];
    destruct (Qlt_le_dec (t2 / duration) (1 # 2)) as [L2|G2].
  - rewrite (ease_in_out_low t1 L1), (ease_in_out_low t2 L2).
    set (u := t1 / duration) in *. set (v := t2 / duration) in *. nra.
  - rewrite (ease_in_out_low t1 L1), (ease_in_out_high t2 G2).
    set (u := t1 / duration) in *. set (v := t2 / duration) in *.
    assert (2 * u * u <= 1 # 2) by nra.
    assert (2 * (1 - v) * (1 - v) <= 1 # 2) by nra.
    lra.
  - exfalso. set (u := t1 / duration) in *. set (v := t2 / duration) in *. lra.
  - rewrite (ease_in_out_high t1 G1), (ease_in_out_high t2 G2).
    set (u := t1 / duration) in *. set (v := t2 / duration) in *. nra.
Qed.

Lemma ease_in_out_range (t : Q) :
  0 <= t / duration -> t / duration <= 1 ->
  0 <= ease_in_out duration t /\ ease_in_out duration t <= 1.
Proof.
  intros H0 H1. split.
  - apply Qle_trans with (ease_in_out duration 0).
    + rewrite ease_in_out_start. apply Qle_refl.
    + apply ease_in_out_monotone; rewrite ?normalized_start; lra.
  - apply Qle_trans with (ease_in_out duration duration).
    + apply ease_in_out_monotone; rewrite ?normalized_end; lra.
    + rewrite ease_in_out_end. apply Qle_refl.
Qed.

Variable config : KenBurnsConfig.

Lemma zoom_effect_in (d : string) (t : Q) :
  String.eqb d "out" = false ->
  zoom_effect duration config d t =
  fst (zoom_range config)
  + (snd (zoom_range config) - fst (zoom_range config)) * ease_in_out duration t.
Proof.
  intro H. unfold zoom_effect. destruct (zoom_range config) as [z0 z1].
  rewrite H. reflexivity.
Qed.

Lemma zoom_effect_out (t : Q) :
  zoom_effect duration config "out" t =
  snd (zoom_range config)
  + (fst (zoom_range config) - snd (zoom_range config)) * ease_in_out duration t.
Proof.
  unfold zoom_effect. destruct (zoom_range config) as [z0 z1]. reflexivity.
Qed.
End Easing.

(* ------------------------------------------------------------------ *)
(** ** Claims on the motion engine *)

(** C2.  For a non-zero clip duration the easing of [ease_in_out] takes the
    values 0, 1/2 and 1 at normalized progress 0, 1/2 and 1, equals
    [2u^2] below one half and [1 - 2(1-u)^2] from one half on (with
    [u = t/duration]), and is non-decreasing for [u] in [0,1].  Hence the
    zoom for direction [in] starts at [zoom_range[0]] at [t = 0] and ends at
    [zoom_range[1]] at [t = duration], and the two are exchanged for [out]. *)
Theorem ease_in_out_shape_and_zoom_endpoints
    (duration : Q) (config : KenBurnsConfig) (Hd : ~ duration == 0) :
  ease_in_out duration 0 == 0 /\
  ease_in_out duration duration == 1 /\
  ease_in_out duration (duration / 2) == 1 # 2 /\
  (forall t, t / duration < 1 # 2 ->
     ease_in_out duration t == 2 * (t / duration) * (t / duration)) /\
  (forall t, 1 # 2 <= t / duration ->
     ease_in_out duration t == 1 - 2 * (1 - t / duration) * (1 - t / duration)) /\
  (forall t1 t2,
     0 <= t1 / duration -> t1 / duration <= t2 / duration -> t2 / duration <= 1 ->
     ease_in_out duration t1 <= ease_in_out duration t2) /\
  zoom_effect duration config "in" 0 == fst (zoom_range config) /\
  zoom_effect duration config "in" duration == snd (zoom_range config) /\
  zoom_effect duration config "out" 0 == snd (zoom_range config) /\
  zoom_effect duration config "out" duration == fst (zoom_range config).
Proof.
  split; [|split; [|split; [|split; [|split; [|split; [|split; [|split; [|split]]]]]]]].
  - apply ease_in_out_start; exact Hd.
  - apply ease_in_out_end; exact Hd.
  - apply ease_in_out_middle; exact Hd.
  - intros t Ht. apply ease_in_out_low; exact Ht.
  - intros t Ht. apply ease_in_out_high; exact Ht.
  - intros t1 t2. apply ease_in_out_monotone; exact Hd.
  - rewrite zoom_effect_in by reflexivity.
    rewrite (ease_in_out_start duration Hd). ring.
  - rewrite zoom_effect_in by reflexivity.
    rewrite (ease_in_out_end duration Hd). ring.
  - rewrite zoom_effect_out.
    rewrite (ease_in_out_start duration Hd). ring.
  - rewrite zoom_effect_out.
    rewrite (ease_in_out_end duration Hd). ring.
Qed.

Lemma ease_in_out_shape_and_zoom_endpoints_witness :
  ~ 12 == 0 /\
  zoom_effect 12 default_KenBurnsConfig "in" 0 == 1 /\
  zoom_effect 12 default_KenBurnsConfig "in" 12 == 12 # 10.
Proof.
  assert (Hd : ~ 12 == 0) by discriminate.
  split; [exact Hd|].
  pose proof (ease_in_out_shape_and_zoom_endpoints 12 default_KenBurnsConfig Hd) as H.
  split; [apply H | apply H].
Defined.

(** C7, as stated, fails: nothing clamps the normalized progress.  With a
    duration of one second the eased progress one second before the start
    is 2, not the 0 of [t = 0]; one second after the end it is -1, not
    the 1 of [t = duration]; the zoom of the default configuration follows. *)
Lemma ease_in_out_no_clamp_counterexample :
  ~ ease_in_out 1 (-1) == ease_in_out 1 0 /\
  ~ ease_in_out 1 2 == ease_in_out 1 1 /\
  ~ zoom_effect 1 default_KenBurnsConfig "in" (-1)
    == zoom_effect 1 default_KenBurnsConfig "in" 0 /\
  ~ zoom_effect 1 default_KenBurnsConfig "in" 2
    == zoom_effect 1 default_KenBurnsConfig "in" 1.
Proof.
  split; [|split; [|split]]; vm_compute; discriminate.
Qed.

(** C7, amended.  For a positive duration, [ease_in_out] normalizes
    [u = t/duration] and applies the two branches without clamping: inside
    the clip ([0 <= t <= duration]) the progress stays in [0,1]; before the
    start it is [2u^2], strictly above the value at [t = 0]; after the end
    it is [1 - 2(u-1)^2], strictly below the value at [t = duration]. *)
Theorem ease_in_out_unclamped (duration t : Q) (Hd : 0 < duration) :
  (0 <= t -> t <= duration ->
     0 <= ease_in_out duration t /\ ease_in_out duration t <= 1) /\
  (t < 0 ->
     ease_in_out duration t == 2 * (t / duration) * (t / duration) /\
     ease_in_out duration 0 < ease_in_out duration t) /\
  (duration < t ->
     ease_in_out duration t == 1 - 2 * (t / duration - 1) * (t / duration - 1) /\
     ease_in_out duration t < ease_in_out duration duration).
Proof.
  assert (Hnz : ~ duration == 0) by lra.
  assert (Hinv : 0 < / duration) by (apply Qinv_lt_0_compat; exact Hd).
  assert (Hu : t / duration == t * / duration) by reflexivity.
  assert (Hone : duration * / duration == 1) by (field; exact Hnz).
  split; [|split].
  - intros H0 H1. apply ease_in_out_range; [exact Hnz | | ]; rewrite Hu; nra.
  - intro Hneg. split.
    + apply ease_in_out_low. rewrite Hu. nra.
    + rewrite (ease_in_out_start duration Hnz).
      rewrite ease_in_out_low by (rewrite Hu; nra).
      rewrite Hu. assert (t * / duration < 0) by nra. nra.
  - intro Hpast. split.
    + rewrite ease_in_out_high by (rewrite Hu; nra). ring.
    + rewrite (ease_in_out_end duration Hnz).
      rewrite ease_in_out_high by (rewrite Hu; nra).
      rewrite Hu. assert (1 < t * / duration) by nra. nra.
Qed.

Lemma ease_in_out_unclamped_witness :
  0 < 2 /\ ease_in_out 2 0 < ease_in_out 2 (-1).
Proof.
  assert (Hd : 0 < 2) by reflexivity.
  split; [exact Hd|].
  destruct (ease_in_out_unclamped 2 (-1) Hd) as [_ [H _]].
  apply H. reflexivity.
Defined.

(** Every call of [pan_effect] takes two fresh answers from the generator. *)
Lemma pan_effect_draws (oracle : RandomOracle) (duration : Q)
    (config : KenBurnsConfig) (t : Q) (k : Rng) :
  pan_effect oracle duration config t k =
  (Ok ((fst (pan_range config)
        + (snd (pan_range config) - fst (pan_range config)) * unit_draw oracle k)
       * ease_in_out duration t,
       (fst (pan_range config)
        + (snd (pan_range config) - fst (pan_range config)) * unit_draw oracle (S k))
       * ease_in_out duration t),
   [], S (S k)).
Proof. reflexivity. Qed.

(** C1 does not hold of the code: [pan_effect] draws both components anew
    at every call, so no pair of targets is held for the clip.  With the
    default configuration, a clip of 10 seconds and a generator answering
    0, 1/4, 1/2, 3/4, two successive evaluations at [t = 5] (eased progress
    1/2) return (-1/4, -1/8) and then (0, 1/8): the first comes from the
    targets (-1/2, -1/4), the second from (0, 1/4). *)
Theorem pan_effect_redrawn_at_every_call :
  exists x1 y1 k1 x2 y2 k2,
    pan_effect cycling_oracle 10 default_KenBurnsConfig 5 0%nat
      = (Ok (x1, y1), [], k1) /\
    pan_effect cycling_oracle 10 default_KenBurnsConfig 5 k1
      = (Ok (x2, y2), [], k2) /\
    ease_in_out 10 5 == 1 # 2 /\
    x1 == - (1 # 2) * ease_in_out 10 5 /\
    y1 == - (1 # 4) * ease_in_out 10 5 /\
    x2 == 0 * ease_in_out 10 5 /\
    y2 == (1 # 4) * ease_in_out 10 5 /\
    ~ x1 == x2 /\ ~ y1 == y2.
Proof.
  do 6 eexists.
  split; [rewrite pan_effect_draws; reflexivity|].
  split; [rewrite pan_effect_draws; reflexivity|].
  split; [|split; [|split; [|split; [|split; [|split]]]]]; vm_compute;
    solve [reflexivity | discriminate].
Qed.

(** C10.  A direction other than ['random'] and ['out'] is taken as it is:
    on a clip whose duration is set, [_apply_enhanced_ken_burns] returns
    without raising and without asking the generator, and the zoom it
    installs is the one of direction ['in'], from [zoom_range[0]] to
    [zoom_range[1]] along the easing, with no exchange. *)
Theorem unvalidated_direction_zooms_in (env : Env) (clip : ImageClip)
    (config : KenBurnsConfig) (k : Rng)
    (Hrandom : direction config <> "random")
    (Hout : direction config <> "out")
    (Hduration : truthy (clip_duration clip) = true) :
  exists duration motion,
    clip_duration clip = Some duration /\
    _apply_enhanced_ken_burns env clip (Some config) k
      = (Ok motion, [EvLog INFO (ApplyingKenBurns duration)], k) /\
    base motion = clip /\
    forall t,
      resize_fn motion t = zoom_effect duration config "in" t /\
      resize_fn motion t =
        fst (zoom_range config)
        + (snd (zoom_range config) - fst (zoom_range config))
          * ease_in_out duration t.
Proof.
  destruct (truthy_Some _ Hduration) as [duration [Hsome _]].
  apply String.eqb_neq in Hrandom. apply String.eqb_neq in Hout.
  exists duration.
  eexists. split; [exact Hsome|].
  split.
  - unfold _apply_enhanced_ken_burns. rewrite Hduration. simpl.
    rewrite Hsome. unfold bind, log, emit, ret. rewrite Hrandom. reflexivity.
  - split; [reflexivity|].
    intro t. simpl. split.
    + rewrite (zoom_effect_in duration config (direction config) t Hout).
      rewrite (zoom_effect_in duration config "in" t) by reflexivity.
      reflexivity.
    + apply zoom_effect_in. exact Hout.
Qed.

Lemma unvalidated_direction_zooms_in_witness :
  exists duration motion,
    clip_duration (WithDuration (LoadedImage "a.png" None) (Some 3)) = Some duration /\
    _apply_enhanced_ken_burns quiet_env
      (WithDuration (LoadedImage "a.png" None) (Some 3))
      (Some {| zoom_range := (1, 2); pan_range := (0, 0); direction := "zoom" |})
      0%nat
      = (Ok motion, [EvLog INFO (ApplyingKenBurns duration)], 0%nat) /\
    base motion = WithDuration (LoadedImage "a.png" None) (Some 3) /\
    forall t,
      resize_fn motion t
        = zoom_effect duration
            {| zoom_range := (1, 2); pan_range := (0, 0); direction := "zoom" |}
            "in" t /\
      resize_fn motion t = 1 + (2 - 1) * ease_in_out duration t.
Proof.
  apply (unvalidated_direction_zooms_in quiet_env
           (WithDuration (LoadedImage "a.png" None) (Some 3))
           {| zoom_range := (1, 2); pan_range := (0, 0); direction := "zoom" |}
           0%nat); simpl; [discriminate | discriminate | reflexivity].
Defined.
(* ------------------------------------------------------------------ *)
(** ** Doubles: the error of one rounding *)

(** *** Powers of two *)

Lemma pow2_pos (k : Z) : 0 < pow2 k.
Proof. unfold pow2. apply Qpower_0_lt. reflexivity. Qed.

Lemma pow2_plus (a b : Z) : pow2 (a + b) == pow2 a * pow2 b.
Proof. unfold pow2. apply Qpower_plus. discriminate. Qed.

Lemma pow2_Z (k : Z) : (0 <= k)%Z -> pow2 k == inject_Z (2 ^ k).
Proof. intro H. unfold pow2. rewrite Zpower_Qpower by exact H. reflexivity. Qed.

Lemma pow2_ge_1 (k : Z) : (0 <= k)%Z -> 1 <= pow2 k.
Proof.
  intro H. rewrite (pow2_Z k H). change 1 with (inject_Z 1).
  rewrite <- Zle_Qle. assert (0 < 2 ^ k)%Z by (apply Z.pow_pos_nonneg; lia). lia.
Qed.

Lemma pow2_le (a b : Z) : (a <= b)%Z -> pow2 a <= pow2 b.
Proof.
  intro H. replace b with (a + (b - a))%Z by lia. rewrite pow2_plus.
  assert (Ha := pow2_pos a). assert (Hd := pow2_ge_1 (b - a) ltac:(lia)).
  nra.
Qed.

Lemma pow2_succ (a : Z) : pow2 (a + 1) == 2 * pow2 a.
Proof. rewrite pow2_plus. change (pow2 1) with 2. ring. Qed.

(** *** The exponent *)

Lemma ilog2_spec (x : Q) :
  0 < x -> pow2 (ilog2 x) <= x /\ x < pow2 (ilog2 x + 1).
Proof.
  intro Hx. unfold ilog2.
  destruct x as [p q]. cbn [Qnum Qden].
  assert (Hp : (0 < p)%Z) by (unfold Qlt in Hx; cbn in Hx; lia).
  set (lp := Z.log2 p). set (lq := Z.log2 (Z.pos q)).
  assert (Hlp : (2 ^ lp <= p < 2 ^ (lp + 1))%Z).
  { unfold lp. rewrite Z.add_1_r. apply Z.log2_spec. exact Hp. }
  assert (Hlq : (2 ^ lq <= Z.pos q < 2 ^ (lq + 1))%Z).
  { unfold lq. rewrite Z.add_1_r. apply Z.log2_spec. lia. }
  assert (Hlp0 : (0 <= lp)%Z) by apply Z.log2_nonneg.
  assert (Hlq0 : (0 <= lq)%Z) by apply Z.log2_nonneg.
  assert (Hx' : p # q == inject_Z p / inject_Z (Z.pos q)) by apply Qmake_Qdiv.
  assert (Qp1 : pow2 lp <= inject_Z p)
    by (rewrite pow2_Z by lia; rewrite <- Zle_Qle; lia).
  assert (Qp2 : inject_Z p < pow2 (lp + 1))
    by (rewrite pow2_Z by lia; rewrite <- Zlt_Qlt; lia).
  assert (Qq1 : pow2 lq <= inject_Z (Z.pos q))
    by (rewrite pow2_Z by lia; rewrite <- Zle_Qle; lia).
  assert (Qq2 : inject_Z (Z.pos q) < pow2 (lq + 1))
    by (rewrite pow2_Z by lia; rewrite <- Zlt_Qlt; lia).
  rewrite pow2_succ in Qp2, Qq2.
  assert (Ha := pow2_pos lp). assert (Hb := pow2_pos lq).
  assert (Hk : pow2 lp == pow2 (lp - lq) * pow2 lq).
  { rewrite <- pow2_plus. replace (lp - lq + lq)%Z with lp by lia. reflexivity. }
  assert (Hkpos := pow2_pos (lp - lq)).
  set (P := inject_Z p) in *. set (Qd := inject_Z (Z.pos q)) in *.
  set (a := pow2 lp) in *. set (b := pow2 lq) in *.
  set (c := pow2 (lp - lq)) in *.
  assert (HQd : 0 < Qd) by lra.
  assert (Hmul : (p # q) * Qd == P) by (rewrite Hx'; field; lra).
  set (x := p # q) in *.
  destruct (Qle_bool c x) eqn:E.
  - apply Qle_bool_iff in E. split; [exact E|].
    rewrite pow2_succ. fold c.
    (* x * Qd = P < 2a = 2 c b <= 2 c Qd *)
    apply Qnot_le_lt. intro Hge. nra.
  - assert (Hlt : x < c).
    { apply Qnot_le_lt. intro Hle. apply Qle_bool_iff in Hle. congruence. }
    replace (lp - lq - 1 + 1)%Z with (lp - lq)%Z by lia. fold c.
    split; [|exact Hlt].
    assert (Hhalf : c == 2 * pow2 (lp - lq - 1)).
    { unfold c. rewrite <- pow2_succ. replace (lp - lq - 1 + 1)%Z with (lp - lq)%Z by lia.
      reflexivity. }
    assert (Hd := pow2_pos (lp - lq - 1)).
    set (d := pow2 (lp - lq - 1)) in *.
    apply Qnot_lt_le. intro Hcontra. nra.
Qed.

(** *** Rounding to an integer *)

Lemma py_round_error (y : Q) :
  Qabs (inject_Z (py_round y) - y) <= 1 # 2.
Proof.
  unfold py_round. cbv zeta.
  assert (H1 := Qfloor_le y). assert (H2 := Qlt_floor y).
  rewrite inject_Z_plus in H2. change (inject_Z 1) with 1 in H2.
  set (f := Qfloor y) in *.
  apply Qabs_Qle_condition.
  destruct (Qltb (y - inject_Z f) (1 # 2)) eqn:E1.
  - apply Qltb_lt in E1. split; lra.
  - apply Qltb_ge in E1.
    destruct (Qltb (1 # 2) (y - inject_Z f)) eqn:E2.
    + apply Qltb_lt in E2. rewrite inject_Z_plus. change (inject_Z 1) with 1.
      split; lra.
    + apply Qltb_ge in E2. destruct (Z.even f).
      * split; lra.
      * rewrite inject_Z_plus. change (inject_Z 1) with 1. split; lra.
Qed.

Lemma py_round_nonneg (y : Q) : 0 <= y -> (0 <= py_round y)%Z.
Proof.
  intro Hy. unfold py_round. cbv zeta.
  assert (Hf : (0 <= Qfloor y)%Z).
  { change 0%Z with (Qfloor 0). apply Qfloor_resp_le. exact Hy. }
  destruct (Qltb _ _); [exact Hf|].
  destruct (Qltb _ _); [lia|]. destruct (Z.even _); lia.
Qed.

(** *** The error of one rounding *)

Lemma Qabs_nonneg_eq (x : Q) : 0 <= x -> Qabs x = x.
Proof.
  destruct x as [p q]. unfold Qle, Qabs. cbn. intro H.
  rewrite Z.abs_eq by lia. reflexivity.
Qed.

Lemma round_double_error (x : Q) :
  0 <= x -> x < pow2 1023 ->
  exists v,
    round_double x = Some v /\ 0 <= v /\
    Qabs (v - x) <= x * pow2 (-53) + pow2 (-1075).
Proof.
  intros Hx0 Hx. unfold round_double.
  destruct (Qeq_bool x 0) eqn:Hz.
  { apply Qeq_bool_iff in Hz. exists 0. split; [reflexivity|].
    split; [lra|]. assert (H := pow2_pos (-53)). assert (H' := pow2_pos (-1075)).
    apply Qabs_Qle_condition. split; nra. }
  assert (Hpos : 0 < x).
  { apply Qeq_bool_neq in Hz. lra. }
  rewrite (Qabs_nonneg_eq x) by lra.
  destruct (ilog2_spec x Hpos) as [Hk1 Hk2].
  set (k := ilog2 x) in *. cbv zeta.
  set (e := Z.max (k - 52) (-1074)).
  assert (Hk : (k <= 1022)%Z).
  { destruct (Z_le_gt_dec k 1022) as [H|H]; [exact H|].
    assert (pow2 1023 <= pow2 k) by (apply pow2_le; lia). lra. }
  assert (He := pow2_pos e).
  assert (Hulp : pow2 e <= x * pow2 (-52) + pow2 (-1074)).
  { assert (H52 := pow2_pos (-52)). assert (H1074 := pow2_pos (-1074)).
    unfold e. destruct (Z.max_spec (k - 52) (-1074)) as [[_ ->]|[_ ->]].
    - nra.
    - replace (k - 52)%Z with (k + -52)%Z by lia. rewrite pow2_plus. nra. }
  assert (Hm := py_round_error (x / pow2 e)).
  assert (Hm0 : (0 <= py_round (x / pow2 e))%Z).
  { apply py_round_nonneg. apply Qle_shift_div_l; lra. }
  set (m := py_round (x / pow2 e)) in *.
  assert (Qm0 : 0 <= inject_Z m).
  { change 0 with (inject_Z 0). rewrite <- Zle_Qle. exact Hm0. }
  assert (Herr : Qabs (inject_Z m * pow2 e - x) <= pow2 e * (1 # 2)).
  { apply Qabs_Qle_condition in Hm. destruct Hm as [Hlo Hhi].
    assert (Hy : x / pow2 e * pow2 e == x) by (field; lra).
    set (y := x / pow2 e) in *.
    apply Qabs_Qle_condition. split; nra. }
  assert (H53 : pow2 (-52) * (1 # 2) == pow2 (-53)) by reflexivity.
  assert (H1075 : pow2 (-1074) * (1 # 2) == pow2 (-1075)) by reflexivity.
  assert (Hbound : Qabs (inject_Z m * pow2 e - x)
                   <= x * pow2 (-53) + pow2 (-1075)).
  { assert (P52 := pow2_pos (-52)). assert (P1074 := pow2_pos (-1074)).
    assert (P53 := pow2_pos (-53)). assert (P1075 := pow2_pos (-1075)).
    set (a := pow2 (-52)) in *. set (b := pow2 (-1074)) in *.
    set (c := pow2 (-53)) in *. set (d := pow2 (-1075)) in *.
    nra. }
  assert (Hv0 : 0 <= inject_Z m * pow2 e) by nra.
  destruct (Qle_bool (pow2 1024) (Qabs (inject_Z m * pow2 e))) eqn:Hov.
  - exfalso. apply Qle_bool_iff in Hov. rewrite Qabs_pos in Hov by exact Hv0.
    apply Qabs_Qle_condition in Hbound. destruct Hbound as [_ Hhi].
    assert (Hsmall : x * pow2 (-53) + pow2 (-1075) <= pow2 1023).
    { assert (P53 : pow2 (-53) <= 1 # 2) by (apply Qle_bool_iff; reflexivity).
      assert (P1075 : pow2 (-1075) <= 1 # 2).
      { apply Qle_trans with (pow2 (-1)); [apply pow2_le; lia|].
        apply Qle_bool_iff. reflexivity. }
      assert (P1023 : 1 <= pow2 1023) by (apply pow2_ge_1; lia).
      assert (Q53 := pow2_pos (-53)).
      set (c := pow2 (-53)) in *. set (d := pow2 (-1075)) in *.
      nra. }
    assert (H1024 : pow2 1024 == 2 * pow2 1023) by (apply (pow2_succ 1023)).
    lra.
  - exists (inject_Z m * pow2 e). split; [reflexivity|].
    split; [exact Hv0 | exact Hbound].
Qed.

Lemma py_int_nonneg (x : Q) :
  0 <= x -> (0 <= py_int x)%Z /\ inject_Z (py_int x) <= x /\ x < inject_Z (py_int x + 1).
Proof.
  intro Hx. unfold py_int.
  assert (Hnum : (0 <= Qnum x)%Z).
  { destruct x as [n d]. unfold Qle in Hx. cbn in Hx |- *. lia. }
  rewrite Z.quot_div_nonneg by lia.
  assert (Hfloor : (Qnum x / Z.pos (Qden x))%Z = Qfloor x)
    by (destruct x; reflexivity).
  rewrite Hfloor.
  split; [rewrite <- Hfloor; apply Z.div_pos; lia|].
  split; [apply Qfloor_le | apply Qlt_floor].
Qed.

Lemma inject_Z_pos (z : Z) : (0 < z)%Z -> 0 < inject_Z z.
Proof. intro H. change 0 with (inject_Z 0). rewrite <- Zlt_Qlt. exact H. Qed.

Lemma inject_Z_nonneg (z : Z) : (0 <= z)%Z -> 0 <= inject_Z z.
Proof. intro H. change 0 with (inject_Z 0). rewrite <- Zle_Qle. exact H. Qed.

Lemma py_min_le (a b : Q) : py_min a b <= a /\ py_min a b <= b.
Proof.
  unfold py_min. destruct (Qltb b a) eqn:E.
  - apply Qltb_lt in E. split; lra.
  - apply Qltb_ge in E. split; lra.
Qed.

Lemma py_min_cases (a b : Q) : py_min a b = a \/ py_min a b = b.
Proof. unfold py_min. destruct (Qltb b a); auto. Qed.

(** *** The sizes of ordinary images *)

(** Rounding keeps a value that is at most [2**50] within an eighth. *)
Lemma round_double_small (x : Q) :
  0 <= x -> x <= inject_Z (2 ^ 50) + 1 ->
  exists v,
    round_double x = Some v /\ 0 <= v /\
    x - x * pow2 (-53) - pow2 (-1075) <= v /\
    v <= x + x * pow2 (-53) + pow2 (-1075).
Proof.
  intros H0 Hb.
  destruct (round_double_error x H0) as [v [Hv [Hv0 Herr]]].
  { apply Qlt_le_trans with (pow2 51).
    - assert (H : pow2 51 == inject_Z (2 ^ 50) + inject_Z (2 ^ 50)) by reflexivity.
      assert (1 < inject_Z (2 ^ 50)) by reflexivity. lra.
    - apply pow2_le. lia. }
  exists v. split; [exact Hv|]. split; [exact Hv0|].
  apply Qabs_Qle_condition in Herr. destruct Herr as [Hlo Hhi].
  split; lra.
Qed.

Lemma Qmul_le (a b c d : Q) :
  0 <= a -> a <= b -> 0 <= c -> c <= d -> a * c <= b * d.
Proof. intros. nra. Qed.

Lemma Qmul_nonneg (a b : Q) : 0 <= a -> 0 <= b -> 0 <= a * b.
Proof. intros. nra. Qed.

Lemma Qdiv_bounds (t n : Q) :
  1 <= n -> 0 <= t -> 0 <= t / n /\ t / n <= t /\ t / n * n == t.
Proof.
  intros Hn Ht.
  assert (Hx : t / n * n == t) by (field; lra).
  set (x := t / n) in *.
  split; [apply Qnot_lt_le; intro H; nra|].
  split; [apply Qnot_lt_le; intro H; nra | exact Hx].
Qed.

Lemma small_constants :
  inject_Z (2 ^ 50) * pow2 (-53) == 1 # 8 /\
  pow2 (-53) <= 1 # 1024 /\
  pow2 (-1075) <= 1 # 1024 /\
  inject_Z (2 ^ 50) * pow2 (-1075) <= 1 # 1024.
Proof.
  split; [reflexivity|]. split; [apply Qle_bool_iff; reflexivity|].
  assert (H : pow2 (-1075) <= pow2 (-60)) by (apply pow2_le; lia).
  assert (H60 : inject_Z (2 ^ 50) * pow2 (-60) == 1 # 1024) by reflexivity.
  assert (H60' : pow2 (-60) <= 1 # 1024) by (apply Qle_bool_iff; reflexivity).
  assert (HB : 0 <= inject_Z (2 ^ 50)) by discriminate.
  split; [lra|].
  assert (H' := Qmul_le (inject_Z (2 ^ 50)) (inject_Z (2 ^ 50))
                  (pow2 (-1075)) (pow2 (-60)) HB (Qle_refl _)
                  (Qlt_le_weak _ _ (pow2_pos _)) H).
  lra.
Qed.

Lemma quotient_rounds (n t : Z) :
  (0 < n < 2 ^ 50)%Z -> (0 <= t < 2 ^ 50)%Z ->
  exists q,
    round_double (inject_Z t / inject_Z n) = Some q /\ 0 <= q /\
    q <= inject_Z t / inject_Z n
         + inject_Z t / inject_Z n * pow2 (-53) + pow2 (-1075).
Proof.
  intros Hn Ht.
  assert (Qn : 1 <= inject_Z n) by (change 1 with (inject_Z 1); rewrite <- Zle_Qle; lia).
  assert (Qt : 0 <= inject_Z t) by (apply inject_Z_nonneg; lia).
  assert (Qt' : inject_Z t <= inject_Z (2 ^ 50)) by (rewrite <- Zle_Qle; lia).
  destruct (Qdiv_bounds _ _ Qn Qt) as [Hx0 [Hxt _]].
  destruct (round_double_small _ Hx0) as [q [Hq [Hq0 [_ Hhi]]]]; [lra|].
  exists q. auto.
Qed.

Lemma scaled_side (n t : Z) (s q : Q) :
  (0 < n < 2 ^ 50)%Z -> (0 <= t < 2 ^ 50)%Z ->
  round_double (inject_Z t / inject_Z n) = Some q ->
  0 <= s -> s <= q ->
  exists f v,
    round_double (inject_Z n) = Some f /\
    round_double (f * s) = Some v /\
    (0 <= py_int v <= t)%Z.
Proof.
  intros Hn Ht Hq Hs0 Hsq.
  destruct (quotient_rounds n t Hn Ht) as [q' [Hq' [_ Hqhi]]].
  rewrite Hq in Hq'. injection Hq' as <-.
  destruct small_constants as [Bu [Us [Es BE]]].
  assert (Qn : 1 <= inject_Z n) by (change 1 with (inject_Z 1); rewrite <- Zle_Qle; lia).
  assert (Qn' : inject_Z n <= inject_Z (2 ^ 50)) by (rewrite <- Zle_Qle; lia).
  assert (Qt : 0 <= inject_Z t) by (apply inject_Z_nonneg; lia).
  assert (Qt' : inject_Z t <= inject_Z (2 ^ 50)) by (rewrite <- Zle_Qle; lia).
  destruct (Qdiv_bounds _ _ Qn Qt) as [Hx0 [Hxt Hx]].
  assert (Pu := Qlt_le_weak _ _ (pow2_pos (-53))).
  assert (Pe := Qlt_le_weak _ _ (pow2_pos (-1075))).
  assert (HB : 0 <= inject_Z (2 ^ 50)) by discriminate.
  set (N := inject_Z n) in *. set (T := inject_Z t) in *.
  set (B := inject_Z (2 ^ 50)) in *.
  set (u := pow2 (-53)) in *. set (eta := pow2 (-1075)) in *.
  set (x := T / N) in *.
  destruct (round_double_small N) as [f [Hf [Hf0 [_ Hfhi]]]];
    [lra | fold B; lra |].
  fold u eta in Hfhi.
  assert (HTu : T * u <= 1 # 8)
    by (assert (H := Qmul_le T B u u Qt Qt' Pu (Qle_refl _)); lra).
  assert (HNu : N * u <= 1 # 8)
    by (assert (H := Qmul_le N B u u ltac:(lra) Qn' Pu (Qle_refl _)); lra).
  assert (HNe : N * eta <= 1 # 1024)
    by (assert (H := Qmul_le N B eta eta ltac:(lra) Qn' Pe (Qle_refl _)); lra).
  assert (Hxe : x * eta <= 1 # 1024)
    by (assert (H := Qmul_le x B eta eta Hx0 ltac:(lra) Pe (Qle_refl _)); lra).
  assert (Hq0 : 0 <= q) by lra.
  assert (Hprod : f * s <= T + (3 # 8)).
  { assert (H1 := Qmul_le f f s q Hf0 (Qle_refl _) Hs0 Hsq).
    assert (H2 := Qmul_le f (N + N * u + eta) q q Hf0 Hfhi Hq0 (Qle_refl _)).
    assert (Hpos : 0 <= N + N * u + eta)
      by (assert (H := Qmul_nonneg N u ltac:(lra) Pu); lra).
    assert (H3 := Qmul_le (N + N * u + eta) (N + N * u + eta)
                    q (x + x * u + eta) Hpos (Qle_refl _) Hq0 Hqhi).
    assert (H4 : (N + N * u + eta) * (x + x * u + eta)
                 == T + 2 * (T * u) + (T * u) * u
                    + (N * eta) * (1 + u) + (x * eta) * (1 + u) + eta * eta).
    { unfold x. field. lra. }
    assert (HTu0 := Qmul_nonneg T u Qt Pu).
    assert (HNe0 := Qmul_nonneg N eta ltac:(lra) Pe).
    assert (Hxe0 := Qmul_nonneg x eta Hx0 Pe).
    assert (H5 := Qmul_le (T * u) (1 # 8) u (1 # 1024) HTu0 HTu Pu Us).
    assert (H6 := Qmul_le (N * eta) (1 # 1024) (1 + u) 2 HNe0 HNe
                    ltac:(lra) ltac:(lra)).
    assert (H7 := Qmul_le (x * eta) (1 # 1024) (1 + u) 2 Hxe0 Hxe
                    ltac:(lra) ltac:(lra)).
    assert (H8 := Qmul_le eta (1 # 1024) eta (1 # 1024) Pe Es Pe Es).
    lra. }
  assert (Hprod0 : 0 <= f * s) by (apply Qmul_nonneg; assumption).
  destruct (round_double_small (f * s) Hprod0) as [v [Hv [Hv0 [_ Hvhi]]]];
    [fold B; lra|].
  fold u eta in Hvhi.
  exists f, v. split; [exact Hf|]. split; [exact Hv|].
  destruct (py_int_nonneg v Hv0) as [Hi0 [Hile _]].
  split; [exact Hi0|].
  assert (Hlt : inject_Z (py_int v) < inject_Z (t + 1)).
  { rewrite inject_Z_plus. change (inject_Z 1) with 1. fold T.
    assert (H := Qmul_le (f * s) (T + (3 # 8)) u u Hprod0 Hprod Pu (Qle_refl _)).
    assert (H' : (T + (3 # 8)) * u == T * u + (3 # 8) * u) by ring.
    lra. }
  rewrite <- Zlt_Qlt in Hlt. lia.
Qed.

(** *** Agreement with the Standard Library's IEEE 754 specification

    The quotient [1024 / 49] and the product [49 * (1024 / 49)], as
    [round_double] gives them and as [SFdiv] and [SFmul] of binary64
    ([prec = 53], [emax = 1024]) give them. *)
Example round_double_quotient_agrees :
  same_double (round_double (1024 / 49))
    (double_value (SFdiv 53 1024 (double_of_Z 1024) (double_of_Z 49))) = true.
Proof. vm_compute. reflexivity. Qed.

Example round_double_product_agrees :
  match round_double (1024 / 49) with
  | Some scale =>
      same_double (round_double (49 * scale))
        (double_value
           (SFmul 53 1024 (double_of_Z 49)
              (SFdiv 53 1024 (double_of_Z 1024) (double_of_Z 49))))
  | None => false
  end = true.
Proof. vm_compute. reflexivity. Qed.

Example round_double_limits :
  round_double (pow2 1024 - pow2 970) = None /\
  same_double (round_double (pow2 1024 - pow2 970 - 1))
    (double_value (S754_finite false (2 ^ 53 - 1) 971)) = true /\
  same_double (round_double (pow2 (-1075))) (Some 0) = true /\
  same_double (round_double (3 * pow2 (-1075))) (Some (pow2 (-1073))) = true.
Proof. repeat split; vm_compute; reflexivity. Qed.

(* ------------------------------------------------------------------ *)
(** ** The resolution normalizer *)

(** The arithmetic of [_process_resolution], whatever the state. *)
Lemma size_arithmetic (img_w img_h target_w target_h : Z) :
  code_new_size img_w img_h target_w target_h =
  if (img_w =? 0)%Z
  then Raise (LibraryError (mkLibError "ZeroDivisionError" "division by zero"))
  else
    match round_double (inject_Z target_w / inject_Z img_w) with
    | None =>
        Raise (OverflowError "integer division result too large for a float")
    | Some scale_w =>
        if (img_h =? 0)%Z
        then Raise (LibraryError
                      (mkLibError "ZeroDivisionError" "division by zero"))
        else
          match round_double (inject_Z target_h / inject_Z img_h) with
          | None =>
              Raise (OverflowError
                       "integer division result too large for a float")
          | Some scale_h =>
              let scale := py_min scale_w scale_h in
              match round_double (inject_Z img_w) with
              | None => Raise (OverflowError "int too large to convert to float")
              | Some float_w =>
                  match round_double (float_w * scale) with
                  | None =>
                      Raise (OverflowError
                               "cannot convert float infinity to integer")
                  | Some scaled_w =>
                      match round_double (inject_Z img_h) with
                      | None =>
                          Raise (OverflowError
                                   "int too large to convert to float")
                      | Some float_h =>
                          match round_double (float_h * scale) with
                          | None =>
                              Raise (OverflowError
                                       "cannot convert float infinity to integer")
                          | Some scaled_h =>
                              Ok (py_int scaled_w, py_int scaled_h)
                          end
                      end
                  end
              end
          end
    end.
Proof.
  unfold code_new_size, truediv, int_times_float, float_of_int, int_of_float.
  destruct (img_w =? 0)%Z; [reflexivity|].
  destruct (round_double (inject_Z target_w / inject_Z img_w)) as [scale_w|];
    [|reflexivity].
  destruct (img_h =? 0)%Z; [reflexivity|].
  destruct (round_double (inject_Z target_h / inject_Z img_h)) as [scale_h|];
    [|reflexivity].
  cbv zeta. run_monad.
  destruct (round_double (inject_Z img_w)) as [float_w|]; [|reflexivity].
  destruct (round_double (float_w * _)) as [scaled_w|]; [|reflexivity].
  destruct (round_double (inject_Z img_h)) as [float_h|]; [|reflexivity].
  destruct (round_double (float_h * _)) as [scaled_h|]; reflexivity.
Qed.

(** For images and canvases below [2**50] pixels a side, the arithmetic
    raises nothing and the new size lies within the canvas. *)
Lemma size_chain (img_w img_h target_w target_h : Z) :
  (0 < img_w < 2 ^ 50)%Z -> (0 < img_h < 2 ^ 50)%Z ->
  (0 <= target_w < 2 ^ 50)%Z -> (0 <= target_h < 2 ^ 50)%Z ->
  exists scale_w scale_h float_w float_h scaled_w scaled_h,
    round_double (inject_Z target_w / inject_Z img_w) = Some scale_w /\
    round_double (inject_Z target_h / inject_Z img_h) = Some scale_h /\
    round_double (inject_Z img_w) = Some float_w /\
    round_double (float_w * py_min scale_w scale_h) = Some scaled_w /\
    round_double (inject_Z img_h) = Some float_h /\
    round_double (float_h * py_min scale_w scale_h) = Some scaled_h /\
    code_new_size img_w img_h target_w target_h
    = Ok (py_int scaled_w, py_int scaled_h) /\
    (0 <= py_int scaled_w <= target_w)%Z /\
    (0 <= py_int scaled_h <= target_h)%Z.
Proof.
  intros Hw Hh Htw Hth.
  destruct (quotient_rounds img_w target_w Hw Htw) as [scale_w [Hsw [Hsw0 _]]].
  destruct (quotient_rounds img_h target_h Hh Hth) as [scale_h [Hsh [Hsh0 _]]].
  destruct (py_min_le scale_w scale_h) as [Hle_w Hle_h].
  assert (Hs0 : 0 <= py_min scale_w scale_h)
    by (destruct (py_min_cases scale_w scale_h) as [E|E]; rewrite E; assumption).
  destruct (scaled_side img_w target_w _ scale_w Hw Htw Hsw Hs0 Hle_w)
    as [float_w [scaled_w [Hfw [Hvw Hbw]]]].
  destruct (scaled_side img_h target_h _ scale_h Hh Hth Hsh Hs0 Hle_h)
    as [float_h [scaled_h [Hfh [Hvh Hbh]]]].
  exists scale_w, scale_h, float_w, float_h, scaled_w, scaled_h.
  repeat (split; [assumption|]).
  split; [|split; assumption].
  rewrite size_arithmetic.
  assert (Ew : (img_w =? 0)%Z = false) by (apply Z.eqb_neq; lia).
  assert (Eh : (img_h =? 0)%Z = false) by (apply Z.eqb_neq; lia).
  rewrite Ew, Hsw, Eh, Hsh. cbv zeta. rewrite Hfw, Hvw, Hfh, Hvh. reflexivity.
Qed.

Section Resolution.
Variable settings : Settings.
Variable env : Env.
Variables target_w target_h : Z.
Hypothesis canvas : OUTPUT_RESOLUTION settings = (target_w, target_h).

Variable image : ImageClip.
Variables img_w img_h : Z.
Hypothesis image_size : clip_size image = Some [Some img_w; Some img_h].

(** When the arithmetic raises, that is what leaves
    [_process_resolution], after the log record alone. *)
Lemma process_resolution_arithmetic_error (e : exn) (k : Rng) :
  code_new_size img_w img_h target_w target_h = Raise e ->
  _process_resolution settings env image k =
  (Raise e,
   [EvLog INFO (ProcessingImageResolution img_w img_h target_w target_h)], k).
Proof.
  rewrite size_arithmetic.
  unfold _process_resolution. rewrite canvas, image_size.
  cbn [invalid_size existsb orb].
  unfold truediv, int_times_float, float_of_int, int_of_float.
  destruct (img_w =? 0)%Z;
    [intro H; injection H as <-; reflexivity|].
  destruct (round_double (inject_Z target_w / inject_Z img_w));
    [|intro H; injection H as <-; reflexivity].
  destruct (img_h =? 0)%Z;
    [intro H; injection H as <-; reflexivity|].
  destruct (round_double (inject_Z target_h / inject_Z img_h));
    [|intro H; injection H as <-; reflexivity].
  cbv zeta. run_monad.
  destruct (round_double (inject_Z img_w)) as [float_w|];
    [|intro H; injection H as <-; reflexivity].
  destruct (round_double (float_w * _));
    [|intro H; injection H as <-; reflexivity].
  destruct (round_double (inject_Z img_h)) as [float_h|];
    [|intro H; injection H as <-; reflexivity].
  destruct (round_double (float_h * _));
    [|intro H; injection H as <-; reflexivity].
  discriminate.
Qed.

Lemma process_resolution_zero_width (k : Rng) :
  img_w = 0%Z ->
  _process_resolution settings env image k =
  (Raise (LibraryError (mkLibError "ZeroDivisionError" "division by zero")),
   [EvLog INFO (ProcessingImageResolution img_w img_h target_w target_h)], k).
Proof.
  intro Hw. apply process_resolution_arithmetic_error.
  rewrite size_arithmetic. subst img_w. reflexivity.
Qed.

Lemma process_resolution_zero_height (k : Rng) :
  img_w <> 0%Z -> img_h = 0%Z ->
  _process_resolution settings env image k =
  (match round_double (inject_Z target_w / inject_Z img_w) with
   | Some _ =>
       Raise (LibraryError (mkLibError "ZeroDivisionError" "division by zero"))
   | None =>
       Raise (OverflowError "integer division result too large for a float")
   end,
   [EvLog INFO (ProcessingImageResolution img_w img_h target_w target_h)], k).
Proof.
  intros Hw Hh.
  assert (H : code_new_size img_w img_h target_w target_h
              = match round_double (inject_Z target_w / inject_Z img_w) with
                | Some _ =>
                    Raise (LibraryError
                             (mkLibError "ZeroDivisionError" "division by zero"))
                | None =>
                    Raise (OverflowError
                             "integer division result too large for a float")
                end).
  { rewrite size_arithmetic. apply Z.eqb_neq in Hw. rewrite Hw. subst img_h.
    destruct (round_double _); reflexivity. }
  destruct (round_double (inject_Z target_w / inject_Z img_w));
    apply process_resolution_arithmetic_error; exact H.
Qed.

Lemma process_resolution_run (new_size : Z * Z) (k : Rng) :
  code_new_size img_w img_h target_w target_h = Ok new_size ->
  (0 <= target_w)%Z -> (0 <= target_h)%Z ->
  resize_error env new_size = None ->
  _process_resolution settings env image k =
  (Ok (if ((fst new_size =? target_w) && (snd new_size =? target_h))%Z
       then Resized image new_size
       else Composite
              [ZerosImage target_w target_h (clip_duration image);
               Positioned (Resized image new_size)
                 (((target_w - fst new_size) / 2)%Z,
                  ((target_h - snd new_size) / 2)%Z)]),
   [EvLog INFO (ProcessingImageResolution img_w img_h target_w target_h);
    EvResize new_size], k).
Proof.
  rewrite size_arithmetic. intros Hnew Htw Hth Hresize.
  unfold _process_resolution. rewrite canvas, image_size.
  cbn [invalid_size existsb orb].
  unfold truediv, int_times_float, float_of_int, int_of_float, resize,
    zeros_clip.
  destruct (img_w =? 0)%Z; [discriminate Hnew|].
  destruct (round_double (inject_Z target_w / inject_Z img_w));
    [|discriminate Hnew].
  destruct (img_h =? 0)%Z; [discriminate Hnew|].
  destruct (round_double (inject_Z target_h / inject_Z img_h));
    [|discriminate Hnew].
  cbv zeta in Hnew |- *. run_monad.
  destruct (round_double (inject_Z img_w)) as [float_w|]; [|discriminate Hnew].
  destruct (round_double (float_w * _)); [|discriminate Hnew].
  destruct (round_double (inject_Z img_h)) as [float_h|]; [|discriminate Hnew].
  destruct (round_double (float_h * _)); [|discriminate Hnew].
  injection Hnew as <-. cbn [fst snd]. rewrite Hresize.
  assert (Hneg : ((target_h <? 0) || (target_w <? 0))%Z = false).
  { apply orb_false_iff. split; apply Z.ltb_ge; assumption. }
  rewrite Hneg.
  match goal with |- context [negb ?b] => destruct b end; reflexivity.
Qed.
End Resolution.
(** C8.  An image whose width or height is zero never gets through
    [_process_resolution]: the size guard lets it pass, and the division
    that computes a scale factor then raises, after the one log record and
    before any resize or composition.  The exception is
    [ZeroDivisionError]; only when the width is not zero and the quotient
    of the widths is too large for a float does the first division raise
    [OverflowError] before the second one is reached, which no canvas
    below [2**1023] pixels allows. *)
Theorem process_resolution_rejects_zero_dimension
    (settings : Settings) (env : Env) (image : ImageClip)
    (img_w img_h : Z) (k : Rng)
    (Hsize : clip_size image = Some [Some img_w; Some img_h])
    (Hzero : img_w = 0%Z \/ img_h = 0%Z) :
  let run := _process_resolution settings env image k in
  let target_w := fst (OUTPUT_RESOLUTION settings) in
  let zero_division :=
    LibraryError (mkLibError "ZeroDivisionError" "division by zero") in
  (outcome run = Raise zero_division \/
   outcome run
   = Raise (OverflowError "integer division result too large for a float")) /\
  (img_w = 0%Z \/ (0 < img_w /\ 0 <= target_w < 2 ^ 1023)%Z ->
   outcome run = Raise zero_division) /\
  events run
    = [EvLog INFO (ProcessingImageResolution img_w img_h
                     (fst (OUTPUT_RESOLUTION settings))
                     (snd (OUTPUT_RESOLUTION settings)))] /\
  existsb is_work (events run) = false.
Proof.
  destruct (OUTPUT_RESOLUTION settings) as [target_w target_h] eqn:Hcanvas.
  cbv zeta. cbn [fst snd].
  destruct (Z.eq_dec img_w 0) as [Hw|Hw].
  - rewrite (process_resolution_zero_width settings env target_w target_h
               Hcanvas image img_w img_h Hsize k Hw).
    cbn [outcome events fst snd]. split; [left; reflexivity|].
    split; [reflexivity|]. split; reflexivity.
  - destruct Hzero as [Hw'|Hh]; [contradiction|].
    rewrite (process_resolution_zero_height settings env target_w target_h
               Hcanvas image img_w img_h Hsize k Hw Hh).
    cbn [outcome events fst snd].
    destruct (round_double (inject_Z target_w / inject_Z img_w)) eqn:Hq.
    + split; [left; reflexivity|]. split; [reflexivity|]. split; reflexivity.
    + split; [right; reflexivity|]. split; [|split; reflexivity].
      intros [Hw0|[Hpos Htw]]; [contradiction|]. exfalso.
      assert (Qn : 1 <= inject_Z img_w)
        by (change 1 with (inject_Z 1); rewrite <- Zle_Qle; lia).
      assert (Qt : 0 <= inject_Z target_w) by (apply inject_Z_nonneg; lia).
      destruct (Qdiv_bounds _ _ Qn Qt) as [Hx0 [Hxt _]].
      destruct (round_double_error _ Hx0) as [v [Hv _]]; [|congruence].
      apply Qle_lt_trans with (inject_Z target_w); [exact Hxt|].
      rewrite (pow2_Z 1023) by lia. rewrite <- Zlt_Qlt. lia.
Qed.

Lemma process_resolution_rejects_zero_dimension_witness :
  outcome (_process_resolution default_Settings quiet_env
             (LoadedImage "image.png" (Some [Some 640%Z; Some 0%Z])) 0%nat)
  = Raise (LibraryError (mkLibError "ZeroDivisionError" "division by zero")).
Proof.
  refine (proj1 (proj2
            (process_resolution_rejects_zero_dimension default_Settings
               quiet_env
               (LoadedImage "image.png" (Some [Some 640%Z; Some 0%Z]))
               640%Z 0%Z 0%nat eq_refl (or_intror eq_refl))) _).
  right. cbn. split; [reflexivity|]. split; [discriminate | reflexivity].
Defined.

(** C5, as stated, fails on the rounding: the code truncates with [int].
    A 1500x1000 image on the 1024x1024 canvas is resized to 1024x682 and
    placed at (0, 171); rounding 682.67 would give a height of 683. *)
Lemma process_resolution_truncates_counterexample :
  _process_resolution default_Settings quiet_env
    (LoadedImage "image.png" (Some [Some 1500%Z; Some 1000%Z])) 0%nat
  = (Ok (Composite
           [ZerosImage 1024 1024 None;
            Positioned
              (Resized (LoadedImage "image.png" (Some [Some 1500%Z; Some 1000%Z]))
                 (1024%Z, 682%Z))
              (0%Z, 171%Z)]),
     [EvLog INFO (ProcessingImageResolution 1500 1000 1024 1024);
      EvResize (1024%Z, 682%Z)], 0%nat) /\
  spec_new_size 1500 1000 1024 1024 = Ok (1024%Z, 683%Z) /\
  code_new_size 1500 1000 1024 1024 <> spec_new_size 1500 1000 1024 1024.
Proof.
  split; [vm_compute; reflexivity|].
  split; [vm_compute; reflexivity|].
  vm_compute. discriminate.
Qed.

(** C5, amended.  For a source image and a canvas below [2**50] pixels a
    side, the image of positive width and height, and a resize the library
    carries out: [_process_resolution] takes
    [scale = min(target_w/img_w, target_h/img_h)] and resizes to
    [(int(img_w*scale), int(img_h*scale))], every quotient and product
    rounded to the nearest double and the result truncated, not rounded.
    None of this arithmetic raises.  It returns the resized image when
    that size is the canvas, and otherwise places it at
    [((target_w - new_w) // 2, (target_h - new_h) // 2)] over a black clip
    of the canvas size; either way the size of the result is the canvas. *)
Theorem process_resolution_letterboxes
    (settings : Settings) (env : Env) (image : ImageClip)
    (img_w img_h target_w target_h : Z) (k : Rng)
    (Hcanvas : OUTPUT_RESOLUTION settings = (target_w, target_h))
    (Hsize : clip_size image = Some [Some img_w; Some img_h])
    (Hw : (0 < img_w < 2 ^ 50)%Z) (Hh : (0 < img_h < 2 ^ 50)%Z)
    (Htw : (0 <= target_w < 2 ^ 50)%Z) (Hth : (0 <= target_h < 2 ^ 50)%Z)
    (Hresize : forall new_size,
       code_new_size img_w img_h target_w target_h = Ok new_size ->
       resize_error env new_size = None) :
  exists scale_w scale_h float_w float_h scaled_w scaled_h,
    (* [target_w / img_w] and [target_h / img_h] *)
    round_double (inject_Z target_w / inject_Z img_w) = Some scale_w /\
    round_double (inject_Z target_h / inject_Z img_h) = Some scale_h /\
    let scale := py_min scale_w scale_h in
    (* [img_w * scale] and [img_h * scale] *)
    round_double (inject_Z img_w) = Some float_w /\
    round_double (float_w * scale) = Some scaled_w /\
    round_double (inject_Z img_h) = Some float_h /\
    round_double (float_h * scale) = Some scaled_h /\
    let new_size := (py_int scaled_w, py_int scaled_h) in
    exists out,
      _process_resolution settings env image k
      = (Ok out,
         [EvLog INFO (ProcessingImageResolution img_w img_h target_w target_h);
          EvResize new_size], k) /\
      (new_size = (target_w, target_h) -> out = Resized image new_size) /\
      (new_size <> (target_w, target_h) ->
         out = Composite
                 [ZerosImage target_w target_h (clip_duration image);
                  Positioned (Resized image new_size)
                    (((target_w - fst new_size) / 2)%Z,
                     ((target_h - snd new_size) / 2)%Z)]) /\
      clip_size out = Some [Some target_w; Some target_h].
Proof.
  destruct (size_chain img_w img_h target_w target_h Hw Hh Htw Hth)
    as [scale_w [scale_h [float_w [float_h [scaled_w [scaled_h
         [Hsw [Hsh [Hfw [Hvw [Hfh [Hvh [Hnew _]]]]]]]]]]]]].
  exists scale_w, scale_h, float_w, float_h, scaled_w, scaled_h.
  repeat (split; [assumption|]).
  cbv zeta. eexists. split.
  - apply (process_resolution_run settings env target_w target_h Hcanvas
             image img_w img_h Hsize _ k Hnew); try lia.
    apply Hresize. exact Hnew.
  - cbn [fst snd].
    set (new_w := py_int scaled_w). set (new_h := py_int scaled_h).
    destruct ((new_w =? target_w)%Z && (new_h =? target_h)%Z) eqn:E.
    + apply andb_true_iff in E. destruct E as [E1 E2].
      apply Z.eqb_eq in E1. apply Z.eqb_eq in E2. rewrite E1, E2.
      split; [reflexivity|]. split; [congruence|]. reflexivity.
    + split; [|split; [reflexivity|reflexivity]].
      intro Heq. injection Heq as E1 E2. rewrite E1, E2 in E.
      rewrite !Z.eqb_refl in E. discriminate.
Qed.

Lemma process_resolution_letterboxes_witness :
  exists out,
    _process_resolution default_Settings quiet_env
      (LoadedImage "image.png" (Some [Some 49%Z; Some 49%Z])) 0%nat
      = (Ok out,
         [EvLog INFO (ProcessingImageResolution 49 49 1024 1024);
          EvResize (1023%Z, 1023%Z)], 0%nat) /\
    clip_size out = Some [Some 1024%Z; Some 1024%Z].
Proof.
  assert (Hsmall : (0 < 49 < 2 ^ 50)%Z) by (split; reflexivity).
  assert (Hcanvas : (0 <= 1024 < 2 ^ 50)%Z) by (split; [discriminate | reflexivity]).
  destruct (process_resolution_letterboxes default_Settings quiet_env
              (LoadedImage "image.png" (Some [Some 49%Z; Some 49%Z]))
              49 49 1024 1024 0%nat eq_refl eq_refl Hsmall Hsmall
              Hcanvas Hcanvas (fun _ _ => eq_refl))
    as [scale_w [scale_h [float_w [float_h [scaled_w [scaled_h
         [Hsw [Hsh [Hfw [Hvw [Hfh [Hvh [out [Hrun [_ [_ Hout]]]]]]]]]]]]]]]].
  exists out. split; [|exact Hout].
  rewrite Hrun. clear Hrun Hout.
  vm_compute in Hsw, Hsh, Hfw, Hfh.
  injection Hsw as <-. injection Hsh as <-.
  injection Hfw as <-. injection Hfh as <-.
  vm_compute in Hvw, Hvh.
  injection Hvw as <-. injection Hvh as <-.
  reflexivity.
Defined.

(* ------------------------------------------------------------------ *)
(** ** Counting openings and closings *)

Lemma opens_app (h : Handle) (l1 l2 : list Event) :
  opens h (l1 ++ l2) = (opens h l1 + opens h l2)%nat.
Proof. unfold opens. rewrite filter_app, length_app. reflexivity. Qed.

Lemma closes_app (h : Handle) (l1 l2 : list Event) :
  closes h (l1 ++ l2) = (closes h l1 + closes h l2)%nat.
Proof. unfold closes. rewrite filter_app, length_app. reflexivity. Qed.

Lemma handle_free_counts (h : Handle) (l : list Event) :
  forallb handle_free l = true -> opens h l = 0%nat /\ closes h l = 0%nat.
Proof.
  unfold opens, closes.
  induction l as [|ev l IH]; cbn [forallb filter]; [split; reflexivity|].
  intro H. apply andb_true_iff in H. destruct H as [Hev Hl].
  destruct (IH Hl) as [IHo IHc].
  destruct ev, h; cbn in Hev |- *; try discriminate; split; assumption.
Qed.

Lemma close_events_counts (env : Env) (h h' : Handle) :
  opens h' (close_events env h) = 0%nat /\
  closes h' (close_events env h) = (if is_close h' (EvClose h) then 1 else 0)%nat.
Proof.
  unfold close_events, close_warning.
  destruct (close_error env h); destruct h, h'; split; reflexivity.
Qed.

(* ------------------------------------------------------------------ *)
(** ** The resource guard, exit path by exit path *)

Section Guard.
Variable env : Env.
Variables image_path audio_path : string.
Variable T : Type.
Variable body : ImageClip -> AudioFileClip -> M Rng T.

Ltac guard_unfold :=
  unfold _manage_clips, _manage_clips_try, _manage_clips_finally,
    open_image, open_audio, close, close_events, close_warning, no_clips.

(** One guarded close, whatever [close()] does. *)
Lemma guarded_close (h : Handle) (msg : Message -> Message) (fs : Frame * Rng) :
  (forall e, EvLog WARNING (msg (Text (err_text e))) = close_warning h e) ->
  try_except (lift (close env h)) (fun e => log WARNING (msg (str e))) fs
  = (Ok tt, close_events env h, fs).
Proof.
  intro Hmsg. unfold close, close_events. run_monad.
  destruct (close_error env h) as [e|]; run_monad.
  - rewrite <- Hmsg. destruct fs; reflexivity.
  - destruct fs; reflexivity.
Qed.

Lemma manage_clips_finally_run (fr : Frame) (k : Rng) :
  _manage_clips_finally env (fr, k)
  = (Ok tt,
     (match image_clip fr with Some _ => close_events env HImage | None => [] end)
     ++ (match audio_clip fr with Some _ => close_events env HAudio | None => [] end),
     (fr, k)).
Proof.
  unfold _manage_clips_finally.
  unfold bind at 1. unfold get_frame at 1. cbn [fst snd app].
  unfold bind.
  destruct (image_clip fr), (audio_clip fr);
    cbv [ret];
    rewrite ?(guarded_close HImage ErrorClosingImageClip) by reflexivity;
    cbv beta iota;
    rewrite ?(guarded_close HAudio ErrorClosingAudioClip) by reflexivity;
    cbv beta iota; cbn [app]; rewrite ?app_nil_r; reflexivity.
Qed.

(** The [try] block alone, by acquisition outcome. *)
Lemma manage_clips_try_run (k : Rng) :
  _manage_clips_try env image_path audio_path body (no_clips, k) =
  match ImageClip_new env image_path with
  | inl e => (Raise (LibraryError e), [], (no_clips, k))
  | inr size =>
      let image := LoadedImage image_path size in
      if invalid_size size
      then (Raise (VideoProcessingError FailedToLoadImage), [EvOpen HImage],
            ({| image_clip := Some image; audio_clip := None |}, k))
      else
        match AudioFileClip_new env audio_path with
        | inl e =>
            (Raise (LibraryError e), [EvOpen HImage],
             ({| image_clip := Some image; audio_clip := None |}, k))
        | inr d =>
            let audio := mkAudioFileClip audio_path d in
            let fr := {| image_clip := Some image; audio_clip := Some audio |} in
            if truthy d
            then (outcome (body image audio k),
                  [EvOpen HImage; EvOpen HAudio] ++ events (body image audio k),
                  (fr, final (body image audio k)))
            else (Raise (VideoProcessingError FailedToLoadAudio),
                  [EvOpen HImage; EvOpen HAudio], (fr, k))
        end
  end.
Proof.
  guard_unfold. run_monad.
  destruct (ImageClip_new env image_path) as [e|size]; run_monad; [reflexivity|].
  cbn [clip_size].
  destruct (invalid_size size); run_monad; [reflexivity|].
  destruct (AudioFileClip_new env audio_path) as [e|d]; run_monad; [reflexivity|].
  cbn [audio_duration].
  destruct (truthy d); cbn [negb]; run_monad; [|reflexivity].
  destruct (body _ _ k) as [[r l] k']. reflexivity.
Qed.

(** The whole guard: the [try] block, then the closings its locals call for;
    outcome and generator state are those of the [try] block. *)
Lemma manage_clips_run (k : Rng) :
  _manage_clips env image_path audio_path body k =
  let tr := _manage_clips_try env image_path audio_path body (no_clips, k) in
  (outcome tr,
   events tr
   ++ (match image_clip (fst (final tr)) with
       | Some _ => close_events env HImage
       | None => []
       end)
   ++ (match audio_clip (fst (final tr)) with
       | Some _ => close_events env HAudio
       | None => []
       end),
   snd (final tr)).
Proof.
  unfold _manage_clips, with_frame, try_finally.
  destruct (_manage_clips_try env image_path audio_path body (no_clips, k))
    as [[r l] [fr k']].
  rewrite manage_clips_finally_run. reflexivity.
Qed.

(** Both clips acquired: opened, the body run, both closed. *)
Lemma manage_clips_acquired (size : option Size) (d : option Q) (k : Rng) :
  ImageClip_new env image_path = inr size ->
  invalid_size size = false ->
  AudioFileClip_new env audio_path = inr d ->
  truthy d = true ->
  _manage_clips env image_path audio_path body k =
  let run := body (LoadedImage image_path size)
                  (mkAudioFileClip audio_path d) k in
  (outcome run,
   [EvOpen HImage; EvOpen HAudio] ++ events run
   ++ close_events env HImage ++ close_events env HAudio,
   final run).
Proof.
  intros Hi Hsize Ha Hd.
  rewrite manage_clips_run, manage_clips_try_run.
  rewrite Hi, Hsize, Ha, Hd. cbv zeta.
  cbn [outcome events final fst snd image_clip audio_clip].
  rewrite <- app_assoc. reflexivity.
Qed.
End Guard.

(** C4.  Whatever the body of the [with] statement does (as long as it
    does not itself open or close the two clips), [_manage_clips] ends with
    the outcome and generator state of its [try] block, after calling
    [close()] once on each clip whose constructor had returned and on no
    other: on normal completion, when the image or the audio fails to open
    or to validate, and when the body raises.  An exception leaving a
    [close()] becomes a warning in the log and changes nothing else. *)
Theorem manage_clips_releases_exactly_once
    (env : Env) (image_path audio_path : string) (T : Type)
    (body : ImageClip -> AudioFileClip -> M Rng T) (k : Rng)
    (Hbody : forall image audio k0,
        forallb handle_free (events (body image audio k0)) = true) :
  let run := _manage_clips env image_path audio_path body k in
  let primary :=
    with_frame no_clips (_manage_clips_try env image_path audio_path body) k in
  outcome run = outcome primary /\
  final run = final primary /\
  events run
    = events primary
      ++ (if (0 <? opens HImage (events primary))%nat
          then close_events env HImage else [])
      ++ (if (0 <? opens HAudio (events primary))%nat
          then close_events env HAudio else []) /\
  (forall h, closes h (events run) = opens h (events run) /\
             (opens h (events run) <= 1)%nat) /\
  (forall h e, close_error env h = Some e ->
               opens h (events run) = 1%nat ->
               In (close_warning h e) (events run)).
Proof.
  cbv zeta. rewrite manage_clips_run. unfold with_frame.
  rewrite manage_clips_try_run.
  destruct (ImageClip_new env image_path) as [e|size].
  { cbn [outcome events final fst snd image_clip audio_clip].
    split; [reflexivity|]. split; [reflexivity|].
    split; [reflexivity|]. split.
    - intro h. destruct h; cbn; lia.
    - intros h e0 _ H. destruct h; discriminate. }
  cbv zeta. destruct (invalid_size size).
  { cbn [outcome events final fst snd image_clip audio_clip].
    split; [reflexivity|]. split; [reflexivity|].
    split; [reflexivity|]. split.
    - intro h. rewrite !opens_app, !closes_app.
      destruct (close_events_counts env HImage h) as [Ho Hc].
      rewrite Ho, Hc. destruct h; cbn; lia.
    - intros h e Herr Hone. destruct h.
      + unfold close_events. rewrite Herr. cbn. auto.
      + rewrite !opens_app in Hone.
        destruct (close_events_counts env HImage HAudio) as [Ho _].
        rewrite Ho in Hone. discriminate. }
  destruct (AudioFileClip_new env audio_path) as [e|d].
  { cbn [outcome events final fst snd image_clip audio_clip].
    split; [reflexivity|]. split; [reflexivity|].
    split; [reflexivity|]. split.
    - intro h. rewrite !opens_app, !closes_app.
      destruct (close_events_counts env HImage h) as [Ho Hc].
      rewrite Ho, Hc. destruct h; cbn; lia.
    - intros h e0 Herr Hone. destruct h.
      + unfold close_events. rewrite Herr. cbn. auto.
      + rewrite !opens_app in Hone.
        destruct (close_events_counts env HImage HAudio) as [Ho _].
        rewrite Ho in Hone. discriminate. }
  cbv zeta.
  assert (Hclose : forall h e, close_error env h = Some e ->
                               In (close_warning h e) (close_events env h)).
  { intros h e Herr. unfold close_events. rewrite Herr. cbn. auto. }
  destruct (truthy d).
  - specialize (Hbody (LoadedImage image_path size)
                      (mkAudioFileClip audio_path d) k).
    destruct (body (LoadedImage image_path size)
                   (mkAudioFileClip audio_path d) k) as [[r l] k'].
    cbn [outcome events final fst snd image_clip audio_clip] in Hbody |- *.
    destruct (handle_free_counts HImage l Hbody) as [HoI HcI].
    destruct (handle_free_counts HAudio l Hbody) as [HoA HcA].
    assert (HopI : opens HImage ([EvOpen HImage; EvOpen HAudio] ++ l) = 1%nat)
      by (rewrite opens_app, HoI; reflexivity).
    assert (HopA : opens HAudio ([EvOpen HImage; EvOpen HAudio] ++ l) = 1%nat)
      by (rewrite opens_app, HoA; reflexivity).
    rewrite HopI, HopA. cbn [Nat.ltb Nat.leb].
    split; [reflexivity|]. split; [reflexivity|].
    split; [reflexivity|]. split.
    + intro h. rewrite !opens_app, !closes_app.
      destruct (close_events_counts env HImage h) as [Ho1 Hc1].
      destruct (close_events_counts env HAudio h) as [Ho2 Hc2].
      rewrite Ho1, Hc1, Ho2, Hc2.
      destruct h; rewrite ?HoI, ?HcI, ?HoA, ?HcA; cbn; lia.
    + intros h e Herr _. apply in_or_app. right.
      apply in_or_app. destruct h; [left | right]; apply Hclose; exact Herr.
  - cbn [outcome events final fst snd image_clip audio_clip].
    split; [reflexivity|]. split; [reflexivity|].
    split; [reflexivity|]. split.
    + intro h. rewrite !opens_app, !closes_app.
      destruct (close_events_counts env HImage h) as [Ho1 Hc1].
      destruct (close_events_counts env HAudio h) as [Ho2 Hc2].
      rewrite Ho1, Hc1, Ho2, Hc2. destruct h; cbn; lia.
    + intros h e Herr _. apply in_or_app. right.
      apply in_or_app. destruct h; [left | right]; apply Hclose; exact Herr.
Qed.

Lemma manage_clips_releases_exactly_once_witness :
  let run :=
    _manage_clips stubborn_env "image.png" "voice.mp3" crashing_body 0%nat in
  outcome run
    = Raise (LibraryError (mkLibError "IOError" "encoder pipe broken")) /\
  closes HImage (events run) = 1%nat /\
  closes HAudio (events run) = 1%nat /\
  In (close_warning HImage (mkLibError "OSError" "handle already gone"))
     (events run).
Proof.
  destruct (manage_clips_releases_exactly_once stubborn_env
              "image.png" "voice.mp3" string crashing_body 0%nat)
    as [Hout [_ [_ [Hcount Hwarn]]]]; [intros; reflexivity|].
  cbv zeta. split; [rewrite Hout; reflexivity|].
  split; [rewrite (proj1 (Hcount HImage)); reflexivity|].
  split; [rewrite (proj1 (Hcount HAudio)); reflexivity|].
  apply Hwarn; reflexivity.
Defined.

(* ------------------------------------------------------------------ *)
(** ** Rules for [Sat] *)

Section SatRules.
Context {S : Type}.
Variable P : Event -> Prop.
Variable R : exn -> Prop.

Lemma sat_ret {A} (Q : A -> Prop) (a : A) :
  Q a -> Sat (S := S) P Q R (ret a).
Proof. intros H s. split; [constructor | exact H]. Qed.

Lemma sat_raise {A} (Q : A -> Prop) (e : exn) :
  R e -> Sat (S := S) (A := A) P Q R (raise e).
Proof. intros H s. split; [constructor | exact H]. Qed.

Lemma sat_emit (Q : unit -> Prop) (ev : Event) :
  P ev -> Q tt -> Sat (S := S) P Q R (emit ev).
Proof. intros H HQ s. split; [repeat constructor; exact H | exact HQ]. Qed.

Lemma sat_log (Q : unit -> Prop) (lvl : Level) (msg : Message) :
  P (EvLog lvl msg) -> Q tt -> Sat (S := S) P Q R (log lvl msg).
Proof. apply sat_emit. Qed.

Lemma sat_bind {A B} (Q1 : A -> Prop) (Q : B -> Prop)
    (m : M S A) (k : A -> M S B) :
  Sat P Q1 R m -> (forall a, Q1 a -> Sat P Q R (k a)) ->
  Sat P Q R (bind m k).
Proof.
  intros Hm Hk s. unfold bind, events, outcome.
  destruct (Hm s) as [Hev Hout]. unfold events, outcome in Hev, Hout.
  destruct (m s) as [[r l1] s1]. cbn [fst snd] in *.
  destruct r as [a|e]; cbn [fst snd].
  - destruct (Hk a Hout s1) as [Hev2 Hout2].
    unfold events, outcome in Hev2, Hout2.
    destruct (k a s1) as [[r2 l2] s2]. cbn [fst snd] in *.
    split; [apply Forall_app; split; assumption | exact Hout2].
  - split; assumption.
Qed.

Lemma sat_try_except {A} (Q : A -> Prop) (R' : exn -> Prop)
    (m : M S A) (handler : exn -> M S A) :
  Sat P Q R' m -> (forall e, R' e -> Sat P Q R (handler e)) ->
  Sat P Q R (try_except m handler).
Proof.
  intros Hm Hh s. unfold try_except, events, outcome.
  destruct (Hm s) as [Hev Hout]. unfold events, outcome in Hev, Hout.
  destruct (m s) as [[r l1] s1]. cbn [fst snd] in *.
  destruct r as [a|e]; cbn [fst snd].
  - split; assumption.
  - destruct (Hh e Hout s1) as [Hev2 Hout2].
    unfold events, outcome in Hev2, Hout2.
    destruct (handler e s1) as [[r2 l2] s2]. cbn [fst snd] in *.
    split; [apply Forall_app; split; assumption | exact Hout2].
Qed.

Lemma sat_lib_call {A} (Q : A -> Prop) (r : LibError + A) :
  (forall e, R (LibraryError e)) -> (forall a, Q a) ->
  Sat (S := S) P Q R (lib_call r).
Proof.
  intros HR HQ. destruct r; [apply sat_raise | apply sat_ret]; auto.
Qed.

Lemma sat_lib_action (Q : unit -> Prop) (r : option LibError) :
  (forall e, R (LibraryError e)) -> Q tt ->
  Sat (S := S) P Q R (lib_action r).
Proof.
  intros HR HQ. destruct r; [apply sat_raise | apply sat_ret]; auto.
Qed.

Lemma sat_truediv (Q : Q -> Prop) (a b : Z) :
  (forall e, R (LibraryError e)) -> (forall q, Q q) ->
  Sat (S := S) P Q R (truediv a b).
Proof.
  intros HR HQ. unfold truediv.
  destruct (b =? 0)%Z; [apply sat_raise; auto|].
  destruct (round_double _); [apply sat_ret | apply sat_raise]; auto.
  apply HR.
Qed.

Lemma sat_float_of_int (Q : Q -> Prop) (n : Z) :
  (forall e, R (LibraryError e)) -> (forall q, Q q) ->
  Sat (S := S) P Q R (float_of_int n).
Proof.
  intros HR HQ. unfold float_of_int.
  destruct (round_double _); [apply sat_ret | apply sat_raise]; auto.
  apply HR.
Qed.

Lemma sat_int_times_float (Q : option Q -> Prop) (n : Z) (x : QArith_base.Q) :
  (forall e, R (LibraryError e)) -> (forall q, Q q) ->
  Sat (S := S) P Q R (int_times_float n x).
Proof.
  intros HR HQ. unfold int_times_float.
  apply sat_bind with (Q1 := fun _ => True).
  - apply sat_float_of_int; auto.
  - intros f _. apply sat_ret. apply HQ.
Qed.

Lemma sat_int_of_float (Q : Z -> Prop) (x : option QArith_base.Q) :
  (forall e, R (LibraryError e)) -> (forall z, Q z) ->
  Sat (S := S) P Q R (int_of_float x).
Proof.
  intros HR HQ. unfold int_of_float.
  destruct x; [apply sat_ret | apply sat_raise]; auto. apply HR.
Qed.

Lemma sat_for_each {A} (Q : unit -> Prop) (l : list A) (body : A -> M S unit) :
  (forall x, In x l -> Sat P (fun _ => True) R (body x)) -> Q tt ->
  Sat P Q R (for_each l body).
Proof.
  intros Hbody HQ. induction l as [|x rest IH]; cbn [for_each].
  - apply sat_ret. exact HQ.
  - apply sat_bind with (Q1 := fun _ => True).
    + apply Hbody. left. reflexivity.
    + intros _ _. apply IH. intros y Hy. apply Hbody. right. exact Hy.
Qed.

Lemma sat_weaken {A} (Q Q' : A -> Prop) (R' : exn -> Prop) (m : M S A) :
  Sat P Q R m -> (forall a, Q a -> Q' a) -> (forall e, R e -> R' e) ->
  Sat P Q' R' m.
Proof.
  intros Hm HQ HR s. destruct (Hm s) as [Hev Hout]. split; [exact Hev|].
  destruct (outcome (m s)); auto.
Qed.
End SatRules.

Lemma sat_lift {S A} (P : Event -> Prop) (Q : A -> Prop) (R : exn -> Prop)
    (m : M S A) :
  Sat P Q R m -> Sat P Q R (lift m).
Proof.
  intros Hm [fr s]. unfold lift, events, outcome. cbn [fst snd].
  destruct (Hm s) as [Hev Hout]. unfold events, outcome in Hev, Hout.
  destruct (m s) as [[r l] s']. exact (conj Hev Hout).
Qed.

Lemma sat_with_frame {S A} (P : Event -> Prop) (Q : A -> Prop) (R : exn -> Prop)
    (fr : Frame) (m : M (Frame * S) A) :
  Sat P Q R m -> Sat P Q R (with_frame fr m).
Proof.
  intros Hm s. unfold with_frame, events, outcome.
  destruct (Hm (fr, s)) as [Hev Hout]. unfold events, outcome in Hev, Hout.
  destruct (m (fr, s)) as [[r l] s']. exact (conj Hev Hout).
Qed.

Lemma sat_random_choice {A} (P : Event -> Prop) (Q : A -> Prop)
    (R : exn -> Prop) (oracle : RandomOracle) (seq : list A) :
  (forall e, R (LibraryError e)) -> (forall a, Q a) ->
  Sat P Q R (random_choice oracle seq).
Proof.
  intros HR HQ k. unfold random_choice, events, outcome.
  destruct (nth_error seq _); cbn [fst snd]; split; auto.
Qed.

Lemma sat_try_finally {S A} (P : Event -> Prop) (Q : A -> Prop)
    (R : exn -> Prop) (m : M S A) (fin : M S unit) :
  Sat P Q R m -> Sat P (fun _ => True) R fin -> Sat P Q R (try_finally m fin).
Proof.
  intros Hm Hfin s. unfold try_finally, events, outcome.
  destruct (Hm s) as [Hev Hout]. unfold events, outcome in Hev, Hout.
  destruct (m s) as [[r l1] s1]. cbn [fst snd] in *.
  destruct (Hfin s1) as [Hev2 Hout2]. unfold events, outcome in Hev2, Hout2.
  destruct (fin s1) as [[r2 l2] s2]. cbn [fst snd] in *.
  destruct r2; cbn [fst snd];
    (split; [apply Forall_app; split; assumption | assumption]).
Qed.

Lemma sat_get_frame {S} (P : Event -> Prop) (Q : Frame -> Prop)
    (R : exn -> Prop) :
  (forall fr, Q fr) -> Sat (S := Frame * S) P Q R get_frame.
Proof. intros HQ s. split; [constructor | apply HQ]. Qed.

Lemma sat_assign_image_clip {S} (P : Event -> Prop) (Q : unit -> Prop)
    (R : exn -> Prop) (c : ImageClip) :
  Q tt -> Sat (S := Frame * S) P Q R (assign_image_clip c).
Proof. intros HQ s. split; [constructor | exact HQ]. Qed.

Lemma sat_assign_audio_clip {S} (P : Event -> Prop) (Q : unit -> Prop)
    (R : exn -> Prop) (a : AudioFileClip) :
  Q tt -> Sat (S := Frame * S) P Q R (assign_audio_clip a).
Proof. intros HQ s. split; [constructor | exact HQ]. Qed.

Ltac sat_step :=
  match goal with
  | |- Sat _ _ _ (bind _ _) =>
      apply sat_bind with (Q1 := fun _ => True); [|intros ? _]
  | |- Sat _ _ _ (ret _) => apply sat_ret
  | |- Sat _ _ _ (raise _) => apply sat_raise
  | |- Sat _ _ _ (log _ _) => apply sat_log
  | |- Sat _ _ _ (emit _) => apply sat_emit
  | |- Sat _ _ _ (lib_call _) => apply sat_lib_call
  | |- Sat _ _ _ (lib_action _) => apply sat_lib_action
  | |- Sat _ _ _ (truediv _ _) => apply sat_truediv
  | |- Sat _ _ _ (int_times_float _ _) => apply sat_int_times_float
  | |- Sat _ _ _ (int_of_float _) => apply sat_int_of_float
  | |- Sat _ _ _ (random_choice _ _) => apply sat_random_choice
  | |- Sat _ _ _ (lift _) => apply sat_lift
  | |- Sat _ _ _ (with_frame _ _) => apply sat_with_frame
  | |- Sat _ _ _ get_frame => apply sat_get_frame
  | |- Sat _ _ _ (assign_image_clip _) => apply sat_assign_image_clip
  | |- Sat _ _ _ (assign_audio_clip _) => apply sat_assign_audio_clip
  | |- Sat _ _ _ (if ?b then _ else _) => destruct b
  | |- Sat _ _ _ (match ?x with _ => _ end) => destruct x
  end.

Ltac sat_auto := repeat sat_step; try (intros; solve [reflexivity | exact I]).

(* ------------------------------------------------------------------ *)
(** ** What the stages of the pipeline may log and raise *)

Section Stages.
Variable settings : Settings.
Variable env : Env.

Lemma process_resolution_sat (image : ImageClip) :
  Sat no_error_log (fun _ => True) not_duration_error
      (_process_resolution settings env image).
Proof.
  unfold _process_resolution, resize, zeros_clip.
  destruct (OUTPUT_RESOLUTION settings) as [target_w target_h].
  sat_auto.
Qed.

Lemma prepare_video_clip_sat (image : ImageClip) (audio : AudioFileClip) :
  Sat no_error_log (fun _ => True) not_duration_error
      (_prepare_video_clip image audio).
Proof. unfold _prepare_video_clip. sat_auto. Qed.

Lemma pan_effect_silent (duration : Q) (config : KenBurnsConfig) (t : Q)
    (k : Rng) :
  exists pos,
    pan_effect (random env) duration config t k = (Ok pos, [], S (S k)).
Proof. unfold pan_effect, random_uniform. run_monad. eexists. reflexivity. Qed.

(** The clip [_apply_enhanced_ken_burns] returns has the pan of the
    module for its position. *)
Lemma apply_enhanced_ken_burns_motion (P : Event -> Prop) (R : exn -> Prop)
    (clip : ImageClip) (config : option KenBurnsConfig) :
  (forall d, P (EvLog INFO (ApplyingKenBurns d))) ->
  (forall e, R (LibraryError e)) ->
  R (VideoProcessingError KenBurnsDurationNotSet) ->
  Sat P silent_motion R (_apply_enhanced_ken_burns env clip config).
Proof.
  intros HP HR HR'. unfold _apply_enhanced_ken_burns.
  destruct (negb (truthy (clip_duration clip))); [apply sat_raise; exact HR'|].
  destruct (clip_duration clip) as [duration|]; [|apply sat_raise; exact HR'].
  apply sat_bind with (Q1 := fun _ => True);
    [apply sat_log; [apply HP | exact I] | intros _ _].
  apply sat_bind with (Q1 := fun _ => True).
  - destruct (String.eqb _ _);
      [apply sat_random_choice; auto | apply sat_ret; exact I].
  - intros direction _. apply sat_ret.
    intros t k. cbn [position_fn]. apply pan_effect_silent.
Qed.

Lemma apply_enhanced_ken_burns_sat (clip : ImageClip)
    (config : option KenBurnsConfig) :
  Sat no_error_log silent_motion not_duration_error
      (_apply_enhanced_ken_burns env clip config).
Proof. apply apply_enhanced_ken_burns_motion; intros; reflexivity. Qed.

(** Drawing the frames only advances the generator: by two answers for
    each layer of each frame. *)
Lemma draw_frames_run (layers : list MotionClip) (times : list Q) (k : Rng) :
  (forall layer, In layer layers -> silent_motion layer) ->
  for_each times (fun t => for_each layers (draw_layer t)) k
  = (Ok tt, [], (k + 2 * List.length layers * List.length times)%nat).
Proof.
  intro Hsilent.
  assert (Hframe : forall t k',
            for_each layers (draw_layer t) k'
            = (Ok tt, [], (k' + 2 * List.length layers)%nat)).
  { intro t. induction layers as [|layer rest IH]; intro k'.
    - cbn. unfold ret. f_equal. unfold Rng. lia.
    - cbn [for_each]. unfold bind at 1. unfold draw_layer at 1. unfold bind at 1.
      destruct (Hsilent layer (or_introl eq_refl) t k') as [pos Hpos].
      rewrite Hpos. cbn [ret app].
      rewrite IH by (intros l Hl; apply Hsilent; right; exact Hl).
      cbn [List.length]. f_equal. unfold Rng. lia. }
  revert k. induction times as [|t rest IH]; intro k.
  - cbn. unfold ret. f_equal. unfold Rng. lia.
  - cbn [for_each]. unfold bind at 1. rewrite Hframe, IH.
    cbn [List.length app]. f_equal. unfold Rng. lia.
Qed.

Lemma write_videofile_run (video : Video) (output_path : string) (k : Rng) :
  (forall layer, In layer (video_layers video) -> silent_motion layer) ->
  write_videofile env video output_path k
  = (match write_error env output_path with
     | Some e => Raise (LibraryError e)
     | None => Ok tt
     end,
     [EvWriteVideo output_path],
     (k + 2 * List.length (video_layers video)
          * List.length (frame_times env))%nat).
Proof.
  intro Hsilent. unfold write_videofile.
  unfold bind at 1. cbv [emit]. unfold bind at 1.
  rewrite (draw_frames_run _ _ _ Hsilent). cbn [app].
  destruct (write_error env output_path); reflexivity.
Qed.

(** The encoder, on layers that draw nothing but random numbers. *)
Lemma write_videofile_sat (P : Event -> Prop) (Q : unit -> Prop)
    (R : exn -> Prop) (video : Video) (output_path : string) :
  (forall layer, In layer (video_layers video) -> silent_motion layer) ->
  P (EvWriteVideo output_path) ->
  (forall e, R (LibraryError e)) -> Q tt ->
  Sat P Q R (write_videofile env video output_path).
Proof.
  intros Hsilent HP HR HQ. unfold write_videofile.
  apply sat_bind with (Q1 := fun _ => True);
    [apply sat_emit; [exact HP | exact I] | intros _ _].
  apply sat_bind with (Q1 := fun _ => True);
    [|intros _ _; apply sat_lib_action; assumption].
  apply sat_for_each; [|exact I]. intros t _.
  apply sat_for_each; [|exact I]. intros layer Hlayer.
  unfold draw_layer. intro k. unfold bind.
  destruct (Hsilent layer Hlayer t k) as [pos Hpos]. rewrite Hpos.
  cbn [events outcome fst snd app ret]. split; [constructor | exact I].
Qed.

Lemma render_final_video_sat (image : ImageClip) (audio : AudioFileClip)
    (config : option KenBurnsConfig) :
  Sat no_error_log
      (fun p => p = output_path_of settings env)
      not_duration_error
      (_render_final_video settings env image audio config).
Proof.
  unfold _render_final_video, output_path_of.
  apply sat_bind with (Q1 := fun _ => True);
    [apply prepare_video_clip_sat | intros ? _].
  apply sat_bind with (Q1 := silent_motion);
    [apply apply_enhanced_ken_burns_sat | intros clip Hclip].
  apply sat_bind with (Q1 := fun _ => True);
    [apply sat_log; [reflexivity | exact I] | intros _ _].
  apply sat_bind with (Q1 := fun _ => True);
    [|intros _ _; apply sat_ret; reflexivity].
  apply write_videofile_sat;
    [intros layer [<-|[]]; exact Hclip | reflexivity
     | intro e; reflexivity | exact I].
Qed.

Lemma validate_inputs_sat (image_path audio_path : string) :
  Sat no_error_log (fun _ => True)
      (fun e => exists m, e = VideoProcessingError m)
      (_validate_inputs env image_path audio_path).
Proof.
  unfold _validate_inputs.
  repeat match goal with
         | |- Sat _ _ _ (if ?b then _ else _) => destruct b
         | |- Sat _ _ _ (raise _) => apply sat_raise; eexists; reflexivity
         end.
  apply sat_try_except with (R' := fun _ => True).
  - sat_auto.
  - intros e _. apply sat_raise. eexists; reflexivity.
Qed.

Lemma manage_clips_sat {T} (Q : T -> Prop) (R : exn -> Prop)
    (image_path audio_path : string)
    (body : ImageClip -> AudioFileClip -> M Rng T) :
  (forall e, R (LibraryError e)) ->
  (forall m, R (VideoProcessingError m)) ->
  (forall image audio, Sat no_error_log Q R (body image audio)) ->
  Sat no_error_log Q R (_manage_clips env image_path audio_path body).
Proof.
  intros HRl HRv Hbody.
  unfold _manage_clips, _manage_clips_try, _manage_clips_finally,
    open_image, open_audio, close.
  apply sat_with_frame, sat_try_finally.
  - repeat first
      [ apply sat_lift, Hbody
      | sat_step ]; try (intros; solve [reflexivity | exact I | auto]).
  - repeat first
      [ apply (sat_try_except _ _ _ (fun _ => True))
      | sat_step
      | intros ? _ ]; try (intros; solve [reflexivity | exact I | auto]).
Qed.

Lemma create_video_with_sat (config : option KenBurnsConfig)
    (image : ImageClip) (audio : AudioFileClip) :
  Sat no_error_log (fun r => r = Some (output_path_of settings env))
      (fun _ => True)
      (create_video_with settings env config image audio).
Proof.
  unfold create_video_with.
  repeat match goal with
         | |- Sat _ _ _ (if ?b then _ else _) => destruct b
         | |- Sat _ _ _ (match ?x with _ => _ end) => destruct x
         | |- Sat _ _ _ (raise _) => apply sat_raise; exact I
         end.
  apply sat_bind with (Q1 := fun _ => True); [|intros image' _].
  - apply sat_weaken with (1 := process_resolution_sat image); auto.
  - apply sat_bind with (Q1 := fun p => p = output_path_of settings env).
    + apply sat_weaken with (1 := render_final_video_sat image' audio config);
        auto.
    + intros p Hp. subst p. sat_auto.
Qed.

Lemma create_video_try_sat (image_path audio_path : string)
    (config : option KenBurnsConfig) :
  Sat no_error_log (fun r => r = Some (output_path_of settings env))
      (fun _ => True)
      (create_video_try settings env image_path audio_path config).
Proof.
  unfold create_video_try.
  apply sat_bind with (Q1 := fun _ => True); [|intros _ _].
  - apply sat_weaken with (1 := validate_inputs_sat image_path audio_path);
      auto.
  - apply manage_clips_sat; auto. apply create_video_with_sat.
Qed.

(** The block under [with] opens and closes no clip itself, so the
    hypothesis on the body in the guard's theorem holds of it. *)
Lemma create_video_with_handle_free (config : option KenBurnsConfig)
    (image : ImageClip) (audio : AudioFileClip) (k : Rng) :
  forallb handle_free
    (events (create_video_with settings env config image audio k)) = true.
Proof.
  assert (H : Sat (fun ev => handle_free ev = true) (fun _ => True)
                (fun _ => True)
                (create_video_with settings env config image audio)).
  { unfold create_video_with.
    repeat match goal with
           | |- Sat _ _ _ (if ?b then _ else _) => destruct b
           | |- Sat _ _ _ (match ?x with _ => _ end) => destruct x
           | |- Sat _ _ _ (raise _) => apply sat_raise; exact I
           end.
    apply sat_bind with (Q1 := fun _ => True); [|intros image' _].
    { unfold _process_resolution, resize, zeros_clip.
      destruct (OUTPUT_RESOLUTION settings) as [target_w target_h].
      sat_auto. }
    apply sat_bind with (Q1 := fun _ => True); [|intros p _; sat_auto].
    unfold _render_final_video.
    apply sat_bind with (Q1 := fun _ => True);
      [unfold _prepare_video_clip; sat_auto | intros ? _].
    apply sat_bind with (Q1 := silent_motion);
      [apply apply_enhanced_ken_burns_motion; intros; solve [reflexivity | exact I]
      | intros clip Hclip].
    apply sat_bind with (Q1 := fun _ => True);
      [apply sat_log; [reflexivity | exact I] | intros _ _].
    apply sat_bind with (Q1 := fun _ => True);
      [|intros _ _; apply sat_ret; exact I].
    apply write_videofile_sat;
      [intros layer [<-|[]]; exact Hclip | reflexivity
       | intro e; exact I | exact I]. }
  destruct (H k) as [Hev _]. apply forallb_forall.
  intros ev Hin. rewrite Forall_forall in Hev. apply Hev. exact Hin.
Qed.
End Stages.

(* ------------------------------------------------------------------ *)
(** ** The orchestrator *)

Lemma no_error_log_filter (l : list Event) :
  Forall no_error_log l -> filter is_error_log l = [].
Proof.
  induction 1 as [|ev l Hev _ IH]; [reflexivity|].
  cbn [filter]. rewrite Hev. exact IH.
Qed.

Lemma no_error_log_no_duration_failure (l : list Event) :
  Forall no_error_log l -> existsb is_duration_failure l = false.
Proof.
  induction 1 as [|ev l Hev _ IH]; [reflexivity|].
  cbn [existsb]. rewrite IH, orb_false_r.
  destruct ev as [lvl msg| | | |]; try reflexivity.
  destruct lvl; try reflexivity. discriminate Hev.
Qed.

Lemma events_bind_prefix {S A B} (m : M S A) (k : A -> M S B) (s : S) :
  exists rest, events (bind m k s) = events (m s) ++ rest.
Proof.
  unfold bind, events. destruct (m s) as [[r l1] s1].
  destruct r as [a|e]; cbn [fst snd].
  - destruct (k a s1) as [[r2 l2] s2]. exists l2. reflexivity.
  - exists []. rewrite app_nil_r. reflexivity.
Qed.

Lemma close_events_quiet (env : Env) (h : Handle) :
  existsb is_work (close_events env h) = false /\
  existsb is_duration_failure (close_events env h) = false.
Proof.
  unfold close_events, close_warning.
  destruct (close_error env h), h; split; reflexivity.
Qed.

Section Orchestrator.
Variable settings : Settings.
Variable env : Env.
Variables image_path audio_path : string.
Variable config : option KenBurnsConfig.

Lemma validate_inputs_pass (img_size : Size) (k : Rng) :
path_exists env image_path = true ->
path_exists env audio_path = true ->
path_getsize env image_path <> 0%Z ->
path_getsize env audio_path <> 0%Z ->
Image_open env image_path = inr img_size ->
invalid_size (Some img_size) = false ->
_validate_inputs env image_path audio_path k
= (Ok tt, [EvLog INFO (ImageDimensions img_size)], k).
Proof.
intros Hi Ha Hsi Hsa Hopen Hvalid. unfold _validate_inputs.
apply Z.eqb_neq in Hsi. apply Z.eqb_neq in Hsa.
rewrite Hi, Ha, Hsi, Hsa. cbn [negb].
run_monad. rewrite Hopen. run_monad. rewrite Hvalid. reflexivity.
Qed.

(** After a validation that passes and an acquisition that succeeds, the
  [try] block is the [with] block between the openings and the closings. *)
Lemma create_video_try_acquired (img_size : Size) (size : option Size)
  (d : option Q) (k : Rng) :
path_exists env image_path = true ->
path_exists env audio_path = true ->
path_getsize env image_path <> 0%Z ->
path_getsize env audio_path <> 0%Z ->
Image_open env image_path = inr img_size ->
invalid_size (Some img_size) = false ->
ImageClip_new env image_path = inr size ->
invalid_size size = false ->
AudioFileClip_new env audio_path = inr d ->
truthy d = true ->
create_video_try settings env image_path audio_path config k =
let block :=
  create_video_with settings env config
    (LoadedImage image_path size) (mkAudioFileClip audio_path d) k in
(outcome block,
 [EvLog INFO (ImageDimensions img_size); EvOpen HImage; EvOpen HAudio]
 ++ events block ++ close_events env HImage ++ close_events env HAudio,
 final block).
Proof.
intros Hi Ha Hsi Hsa Hopen Hvalid Hclip Hcvalid Haudio Hd.
unfold create_video_try, bind.
rewrite (validate_inputs_pass img_size k) by assumption.
rewrite (manage_clips_acquired env image_path audio_path _ _ size d k)
  by assumption.
cbv zeta. destruct (create_video_with _ _ _ _ _ k) as [[r l] k'].
reflexivity.
Qed.

(** What the two [except] clauses make of the outcome of the [try] block. *)
Lemma create_video_run (k : Rng) :
create_video settings env image_path audio_path config k =
let attempt := create_video_try settings env image_path audio_path config k in
match outcome attempt with
| Ok r => attempt
| Raise e =>
    (Ok None,
     events attempt
     ++ [EvLog ERROR
           (match e with
            | VideoProcessingError _ => VideoProcessingErrorLog (str e)
            | LibraryError _ => UnexpectedErrorLog (str e)
            end)],
     final attempt)
end.
Proof.
unfold create_video, try_except, create_video_except.
destruct (create_video_try settings env image_path audio_path config k)
  as [[r l] k'].
destruct r as [a|e]; [reflexivity|].
destruct e; reflexivity.
Qed.
End Orchestrator.

(** C9.  [create_video] returns on every input.  When its [try] block
    returns, that is the result and it is the output path; when anything
    under it raises, [VideoProcessingError] or an exception of a library,
    the exception stops there: one [ERROR] record is appended to the log
    and the call returns [None]. *)
Theorem create_video_never_raises
    (settings : Settings) (env : Env) (image_path audio_path : string)
    (config : option KenBurnsConfig) (k : Rng) :
  let attempt := create_video_try settings env image_path audio_path config k in
  let run := create_video settings env image_path audio_path config k in
  (exists r, outcome run = Ok r) /\
  match outcome attempt with
  | Ok r => run = attempt /\ r = Some (output_path_of settings env)
  | Raise e =>
      outcome run = Ok None /\
      final run = final attempt /\
      exists record,
        events run = events attempt ++ [EvLog ERROR record]
  end.
Proof.
  cbv zeta. rewrite create_video_run. cbv zeta.
  destruct (create_video_try_sat settings env image_path audio_path config k)
    as [_ Hout].
  destruct (outcome (create_video_try settings env image_path audio_path config k))
    as [r|e] eqn:E.
  - split; [exists r; exact E|]. split; [reflexivity | exact Hout].
  - split; [exists None; reflexivity|].
    split; [reflexivity|]. split; [reflexivity|].
    eexists. reflexivity.
Qed.

(** C6, as stated, fails on what a failure carries: the value returned is
    [None] whatever went wrong.  A missing image file and an audio track of
    200 seconds give the same outcome, while the causes, which only the log
    records, differ; so no error kind can be read off the outcome. *)
Lemma create_video_failure_untyped_counterexample :
  let missing :=
    create_video default_Settings missing_image_env "image.png" "voice.mp3"
      None 0%nat in
  let too_long :=
    create_video default_Settings long_audio_env "image.png" "voice.mp3"
      None 0%nat in
  outcome missing = Ok None /\
  outcome too_long = Ok None /\
  logged_error (events missing)
    = Some (VideoProcessingErrorLog (ImageFileNotFound "image.png")) /\
  logged_error (events too_long)
    = Some (VideoProcessingErrorLog (AudioDurationExceeds 200 180 (1 # 2))) /\
  ~ (exists cause_of : Result (option string) -> option Message,
       forall env,
         logged_error
           (events (create_video default_Settings env "image.png" "voice.mp3"
                      None 0%nat))
         = cause_of
             (outcome (create_video default_Settings env "image.png" "voice.mp3"
                         None 0%nat))).
Proof.
  cbv zeta.
  assert (H1 : create_video default_Settings missing_image_env
                 "image.png" "voice.mp3" None 0%nat
               = (Ok None,
                  [EvLog ERROR (VideoProcessingErrorLog (ImageFileNotFound "image.png"))],
                  0%nat)) by (vm_compute; reflexivity).
  assert (H2 : create_video default_Settings long_audio_env
                 "image.png" "voice.mp3" None 0%nat
               = (Ok None,
                  [EvLog INFO (ImageDimensions [Some 800%Z; Some 600%Z]);
                   EvOpen HImage; EvOpen HAudio; EvClose HImage; EvClose HAudio;
                   EvLog ERROR
                     (VideoProcessingErrorLog (AudioDurationExceeds 200 180 (1 # 2)))],
                  0%nat)) by (vm_compute; reflexivity).
  rewrite H1, H2. cbn [outcome events fst snd].
  split; [reflexivity|]. split; [reflexivity|].
  split; [reflexivity|]. split; [reflexivity|].
  intros [cause_of H].
  pose proof (H missing_image_env) as Ha.
  pose proof (H long_audio_env) as Hb.
  rewrite H1 in Ha. rewrite H2 in Hb.
  cbn [outcome events fst snd] in Ha, Hb.
  rewrite <- Hb in Ha. discriminate Ha.
Qed.

(** C6, amended.  [create_video] gives exactly one outcome per call and
    never raises: either the output file path, with no [ERROR] record in
    the log, or [None], with exactly one [ERROR] record in the log, which
    names the cause as a video processing error or as an unexpected error.
    The returned failure itself carries neither kind nor cause. *)
Theorem create_video_single_outcome
    (settings : Settings) (env : Env) (image_path audio_path : string)
    (config : option KenBurnsConfig) (k : Rng) :
  let run := create_video settings env image_path audio_path config k in
  (outcome run = Ok (Some (output_path_of settings env)) /\
   filter is_error_log (events run) = []) \/
  (outcome run = Ok None /\
   exists cause,
     filter is_error_log (events run) = [EvLog ERROR cause] /\
     ((exists m, cause = VideoProcessingErrorLog m) \/
      (exists m, cause = UnexpectedErrorLog m))).
Proof.
  cbv zeta. rewrite create_video_run. cbv zeta.
  destruct (create_video_try_sat settings env image_path audio_path config k)
    as [Hev Hout].
  apply no_error_log_filter in Hev.
  destruct (outcome (create_video_try settings env image_path audio_path config k))
    as [r|e] eqn:E.
  - left. split; [rewrite E, Hout; reflexivity | exact Hev].
  - right. split; [reflexivity|].
    cbn [events fst snd]. rewrite filter_app, Hev. cbn [filter is_error_log app].
    eexists. split; [reflexivity|].
    destruct e; [left | right]; eexists; reflexivity.
Qed.

(** C3.  Once validation has passed and both clips are open, the duration
    check of [create_video] fails exactly when the audio duration exceeds
    [MAX_VIDEO_LENGTH + DURATION_TOLERANCE].  When it does, the call closes
    both clips, logs the error and returns [None], having called neither
    [resize] nor [write_videofile].  When it does not (the bound itself
    included), the run goes on into [_process_resolution]. *)
Theorem duration_check_gate
    (settings : Settings) (env : Env) (image_path audio_path : string)
    (config : option KenBurnsConfig) (k : Rng)
    (img_size : Size) (size : option Size) (d : Q)
    (Himage : path_exists env image_path = true)
    (Haudio : path_exists env audio_path = true)
    (Himage_bytes : path_getsize env image_path <> 0%Z)
    (Haudio_bytes : path_getsize env audio_path <> 0%Z)
    (Hdecode : Image_open env image_path = inr img_size)
    (Hdims : invalid_size (Some img_size) = false)
    (Hclip : ImageClip_new env image_path = inr size)
    (Hclip_size : invalid_size size = false)
    (Htrack : AudioFileClip_new env audio_path = inr (Some d))
    (Hd : ~ d == 0) :
  let bound := inject_Z (MAX_VIDEO_LENGTH settings) + DURATION_TOLERANCE settings in
  let run := create_video settings env image_path audio_path config k in
  let acquired :=
    [EvLog INFO (ImageDimensions img_size); EvOpen HImage; EvOpen HAudio] in
  existsb is_duration_failure (events run) = Qltb bound d /\
  (bound < d ->
     run = (Ok None,
            acquired ++ close_events env HImage ++ close_events env HAudio
            ++ [EvLog ERROR
                  (VideoProcessingErrorLog
                     (AudioDurationExceeds d (MAX_VIDEO_LENGTH settings)
                        (DURATION_TOLERANCE settings)))],
            k) /\
     existsb is_work (events run) = false) /\
  (d <= bound ->
     exists rest,
       events run
       = acquired
         ++ events (_process_resolution settings env
                      (LoadedImage image_path size) k)
         ++ rest).
Proof.
  intros bound run acquired.
  assert (Htruthy : truthy (Some d) = true).
  { cbn [truthy]. destruct (Qeq_bool d 0) eqn:E; [|reflexivity].
    apply Qeq_bool_iff in E. contradiction. }
  assert (Hrun : run = _) by (unfold run; apply create_video_run).
  rewrite (create_video_try_acquired settings env image_path audio_path config
             img_size size (Some d) k) in Hrun by assumption.
  cbv zeta in Hrun. cbn [outcome events final fst snd] in Hrun.
  destruct (close_events_quiet env HImage) as [HwI HfI].
  destruct (close_events_quiet env HAudio) as [HwA HfA].
  assert (Hover : bound < d ->
            create_video_with settings env config
              (LoadedImage image_path size) (mkAudioFileClip audio_path (Some d)) k
            = (Raise (VideoProcessingError
                        (AudioDurationExceeds d (MAX_VIDEO_LENGTH settings)
                           (DURATION_TOLERANCE settings))), [], k)).
  { intro Hlt. unfold create_video_with. cbn [audio_duration].
    rewrite Htruthy. cbn [negb].
    apply Qltb_lt in Hlt. fold bound. rewrite Hlt. reflexivity. }
  assert (Hunder : d <= bound ->
            create_video_with settings env config
              (LoadedImage image_path size) (mkAudioFileClip audio_path (Some d))
            = (image <- _process_resolution settings env (LoadedImage image_path size);;
               output_path <- _render_final_video settings env image
                                (mkAudioFileClip audio_path (Some d)) config;;
               log INFO (SuccessfullyCreated output_path);;
               ret (Some output_path))).
  { intro Hle. unfold create_video_with. cbn [audio_duration].
    rewrite Htruthy. cbn [negb].
    apply Qltb_ge in Hle. fold bound. rewrite Hle. reflexivity. }
  split; [|split].
  - destruct (Qltb bound d) eqn:E.
    + apply Qltb_lt in E. rewrite Hrun, (Hover E).
      cbn [outcome events final fst snd app]. unfold acquired.
      cbn [app existsb is_duration_failure orb].
      rewrite !existsb_app, HfI, HfA. reflexivity.
    + apply Qltb_ge in E. rewrite Hrun.
      pose proof (create_video_with_sat settings env config
                    (LoadedImage image_path size)
                    (mkAudioFileClip audio_path (Some d)) k) as [Hev _].
      pose proof (process_resolution_sat settings env
                    (LoadedImage image_path size)) as Hp.
      assert (Hblock :
                Sat no_error_log (fun _ => True) not_duration_error
                  (create_video_with settings env config
                     (LoadedImage image_path size)
                     (mkAudioFileClip audio_path (Some d)))).
      { rewrite (Hunder E).
        apply sat_bind with (Q1 := fun _ => True); [exact Hp | intros image' _].
        apply sat_bind with (Q1 := fun _ => True); [|intros p _; sat_auto].
        apply sat_weaken
          with (1 := render_final_video_sat settings env image'
                       (mkAudioFileClip audio_path (Some d)) config); auto. }
      destruct (Hblock k) as [_ Hraise].
      apply no_error_log_no_duration_failure in Hev.
      destruct (create_video_with settings env config
                  (LoadedImage image_path size)
                  (mkAudioFileClip audio_path (Some d)) k) as [[r l] k'].
      cbn [outcome events final fst snd] in *.
      destruct r as [a|e]; cbn [events fst snd]; unfold acquired;
        cbn [app existsb is_duration_failure orb].
      * rewrite !existsb_app, Hev, HfI, HfA. reflexivity.
      * rewrite !existsb_app, Hev, HfI, HfA. cbn [existsb orb].
        unfold not_duration_error in Hraise.
        destruct e as [m|le]; [|reflexivity].
        destruct m; cbn in Hraise |- *; try reflexivity. discriminate Hraise.
  - intro Hlt. rewrite Hrun, (Hover Hlt).
    cbn [outcome events final fst snd app]. unfold acquired.
    split.
    + cbn [app str]. rewrite <- !app_assoc. reflexivity.
    + cbn [app existsb is_work orb].
      rewrite !existsb_app, HwI, HwA. reflexivity.
  - intro Hle. rewrite Hrun, (Hunder Hle).
    match goal with
    | |- context [bind ?m ?f k] =>
        destruct (events_bind_prefix m f k) as [rest Hrest];
        destruct (bind m f k) as [[r l] k'] eqn:Eb
    end.
    cbn [events fst snd] in Hrest. subst l.
    cbn [outcome events final fst snd].
    destruct r as [a|e]; cbn [events fst snd]; unfold acquired;
      eexists; rewrite <- !app_assoc; reflexivity.
Qed.

Lemma duration_check_gate_witness :
  let run :=
    create_video default_Settings long_audio_env "image.png" "voice.mp3"
      None 0%nat in
  run = (Ok None,
         [EvLog INFO (ImageDimensions [Some 800%Z; Some 600%Z]);
          EvOpen HImage; EvOpen HAudio; EvClose HImage; EvClose HAudio;
          EvLog ERROR
            (VideoProcessingErrorLog (AudioDurationExceeds 200 180 (1 # 2)))],
         0%nat) /\
  existsb is_work (events run) = false.
Proof.
  destruct (duration_check_gate default_Settings long_audio_env
              "image.png" "voice.mp3" None 0%nat
              [Some 800%Z; Some 600%Z] (Some [Some 800%Z; Some 600%Z]) 200)
    as [_ [Hover _]]; try reflexivity; try discriminate.
  apply Hover. reflexivity.
Defined.

(* ------------------------------------------------------------------ *)
(** ** The two end-to-end scenarios *)

(** An 800x600 image, 12 seconds of audio, the default settings and
    configuration: the image is resized to 1024x768, the video is written
    and its path returned, and both clips are closed after the success
    record.  The generator has answered 721 times: once for the direction,
    and twice for each of the 360 frames the encoder drew. *)
Example create_video_end_to_end :
  create_video default_Settings quiet_env "image.png" "voice.mp3" None 0%nat
  = (Ok (Some "output/generated_video_1700000000.mp4"),
     [EvLog INFO (ImageDimensions [Some 800%Z; Some 600%Z]);
      EvOpen HImage; EvOpen HAudio;
      EvLog INFO (ProcessingImageResolution 800 600 1024 1024);
      EvResize (1024%Z, 768%Z);
      EvLog INFO (SetImageDuration 12);
      EvLog INFO (ApplyingKenBurns 12);
      EvLog INFO WritingVideoFile;
      EvWriteVideo "output/generated_video_1700000000.mp4";
      EvLog INFO (SuccessfullyCreated "output/generated_video_1700000000.mp4");
      EvClose HImage; EvClose HAudio],
     721%nat).
Proof. vm_compute. reflexivity. Qed.

(** A missing image file: nothing is opened and nothing is written. *)
Example create_video_missing_image :
  create_video default_Settings missing_image_env "image.png" "voice.mp3"
    None 0%nat
  = (Ok None,
     [EvLog ERROR (VideoProcessingErrorLog (ImageFileNotFound "image.png"))],
     0%nat).
Proof. vm_compute. reflexivity. Qed.

(* ------------------------------------------------------------------ *)
(** ** More on the input validator *)

(** X1.  [_validate_inputs] returns exactly when both files exist, both
    are non-empty and the image decodes to a non-empty size without a
    [None] entry.  When it does not return it raises
    [VideoProcessingError], never an exception of a library, and it has
    logged nothing and drawn nothing. *)
Theorem validate_inputs_succeeds_iff
    (env : Env) (image_path audio_path : string) (k : Rng) :
  let run := _validate_inputs env image_path audio_path k in
  (outcome run = Ok tt <->
   path_exists env image_path = true /\
   path_exists env audio_path = true /\
   path_getsize env image_path <> 0%Z /\
   path_getsize env audio_path <> 0%Z /\
   exists img_size,
     Image_open env image_path = inr img_size /\
     invalid_size (Some img_size) = false) /\
  (forall e, outcome run = Raise e ->
     (exists msg, e = VideoProcessingError msg) /\ events run = []) /\
  final run = k.
Proof.
  cbv zeta. unfold _validate_inputs.
  destruct (path_exists env image_path) eqn:Hi; cbn [negb].
  2:{ split; [split; [discriminate | intros [H _]; discriminate H]|].
      split; [|reflexivity].
      intros e He. injection He as <-. split; [eexists|]; reflexivity. }
  destruct (path_exists env audio_path) eqn:Ha; cbn [negb].
  2:{ split; [split; [discriminate | intros [_ [H _]]; discriminate H]|].
      split; [|reflexivity].
      intros e He. injection He as <-. split; [eexists|]; reflexivity. }
  destruct (path_getsize env image_path =? 0)%Z eqn:Hsi.
  { apply Z.eqb_eq in Hsi.
    split; [split; [discriminate | intros [_ [_ [H _]]]; contradiction]|].
    split; [|reflexivity].
    intros e He. injection He as <-. split; [eexists|]; reflexivity. }
  destruct (path_getsize env audio_path =? 0)%Z eqn:Hsa.
  { apply Z.eqb_eq in Hsa.
    split; [split; [discriminate | intros [_ [_ [_ [H _]]]]; contradiction]|].
    split; [|reflexivity].
    intros e He. injection He as <-. split; [eexists|]; reflexivity. }
  apply Z.eqb_neq in Hsi. apply Z.eqb_neq in Hsa.
  run_monad.
  destruct (Image_open env image_path) as [err|img_size]; run_monad.
  { split; [split; [discriminate|]|].
    - intros [_ [_ [_ [_ [sz [H _]]]]]]. discriminate H.
    - split; [|reflexivity].
      intros e He. injection He as <-. split; [eexists|]; reflexivity. }
  destruct (invalid_size (Some img_size)) eqn:Hv; run_monad.
  { split; [split; [discriminate|]|].
    - intros [_ [_ [_ [_ [sz [H Hsz]]]]]]. injection H as <-. congruence.
    - split; [|reflexivity].
      intros e He. injection He as <-. split; [eexists|]; reflexivity. }
  split; [split|].
  - intros _. repeat (split; [assumption || reflexivity|]).
    exists img_size. split; [reflexivity | exact Hv].
  - reflexivity.
  - split; [|reflexivity]. intros e He. discriminate He.
Qed.

(** X2.  With both files present and non-empty, a failure of the decoding
    stage always surfaces as "Failed to validate image: ..." around the
    original text: the text of the library's exception, or, because the
    [except Exception] clause also catches the module's own error, the
    "Invalid image dimensions" message itself.  That inner error never
    leaves [_validate_inputs] unwrapped. *)
Theorem validate_inputs_wraps_decode_failures
    (env : Env) (image_path audio_path : string) (k : Rng)
    (Himage : path_exists env image_path = true)
    (Haudio : path_exists env audio_path = true)
    (Himage_bytes : path_getsize env image_path <> 0%Z)
    (Haudio_bytes : path_getsize env audio_path <> 0%Z) :
  let run := _validate_inputs env image_path audio_path k in
  match Image_open env image_path with
  | inl err =>
      outcome run
      = Raise (VideoProcessingError (FailedToValidateImage (Text (err_text err))))
  | inr img_size =>
      if invalid_size (Some img_size)
      then outcome run
           = Raise (VideoProcessingError
                      (FailedToValidateImage (InvalidImageDimensions image_path)))
      else run = (Ok tt, [EvLog INFO (ImageDimensions img_size)], k)
  end.
Proof.
  cbv zeta. unfold _validate_inputs.
  apply Z.eqb_neq in Himage_bytes. apply Z.eqb_neq in Haudio_bytes.
  rewrite Himage, Haudio, Himage_bytes, Haudio_bytes. cbn [negb].
  run_monad.
  destruct (Image_open env image_path) as [err|img_size]; run_monad;
    [reflexivity|].
  destruct (invalid_size (Some img_size)); reflexivity.
Qed.

Lemma validate_inputs_wraps_decode_failures_witness :
  outcome (_validate_inputs corrupt_image_env "image.png" "voice.mp3" 0%nat)
  = Raise (VideoProcessingError
             (FailedToValidateImage (InvalidImageDimensions "image.png"))).
Proof.
  assert (Hbytes : 4096%Z <> 0%Z) by discriminate.
  exact (validate_inputs_wraps_decode_failures corrupt_image_env
           "image.png" "voice.mp3" 0%nat eq_refl eq_refl Hbytes Hbytes).
Defined.

(* ------------------------------------------------------------------ *)
(** ** More on the motion engine *)

(** X3.  The easing is point-symmetric about the middle of the clip: the
    progress at [t] and the progress at [duration - t] add up to one, for
    every [t] (inside the clip or not). *)
Theorem ease_in_out_symmetric (duration t : Q) (Hd : ~ duration == 0) :
  ease_in_out duration t + ease_in_out duration (duration - t) == 1.
Proof.
  assert (Hmirror : (duration - t) / duration == 1 - t / duration)
    by (field; exact Hd).
  destruct (Qlt_le_dec (t / duration) (1 # 2)) as [Hlow|Hhigh].
  - rewrite (ease_in_out_low duration t Hlow).
    rewrite (ease_in_out_high duration (duration - t))
      by (rewrite Hmirror; lra).
    rewrite Hmirror. ring.
  - rewrite (ease_in_out_high duration t Hhigh).
    destruct (Qlt_le_dec ((duration - t) / duration) (1 # 2)) as [Hlow'|Hhigh'].
    + rewrite (ease_in_out_low duration (duration - t) Hlow').
      rewrite Hmirror. ring.
    + rewrite (ease_in_out_high duration (duration - t) Hhigh').
      assert (Hhalf : t / duration == 1 # 2) by (rewrite Hmirror in Hhigh'; lra).
      rewrite Hmirror, Hhalf. reflexivity.
Qed.

Lemma ease_in_out_symmetric_witness :
  ease_in_out 12 3 + ease_in_out 12 (12 - 3) == 1.
Proof.
  assert (Hd : ~ 12 == 0) by discriminate.
  exact (ease_in_out_symmetric 12 3 Hd).
Defined.

Lemma normalized_inside (duration t : Q) :
  0 < duration -> 0 <= t -> t <= duration ->
  0 <= t / duration /\ t / duration <= 1.
Proof.
  intros Hd H0 H1.
  assert (Hinv : 0 < / duration) by (apply Qinv_lt_0_compat; exact Hd).
  assert (Hone : duration * / duration == 1) by (field; lra).
  assert (Hu : t / duration == t * / duration) by reflexivity.
  rewrite Hu. split; nra.
Qed.

Lemma normalized_monotone (duration t1 t2 : Q) :
  0 < duration -> t1 <= t2 -> t1 / duration <= t2 / duration.
Proof.
  intros Hd H12.
  assert (Hinv : 0 < / duration) by (apply Qinv_lt_0_compat; exact Hd).
  assert (H1 : t1 / duration == t1 * / duration) by reflexivity.
  assert (H2 : t2 / duration == t2 * / duration) by reflexivity.
  rewrite H1, H2. nra.
Qed.

(** X4.  Inside the clip the zoom never leaves the configured range and
    never turns back: whatever the direction string, its value lies
    between the two ends of [zoom_range]; for a range given in increasing
    order it is non-decreasing in [t] for every direction but ['out'], and
    non-increasing for ['out']. *)
Theorem zoom_effect_bounded_and_monotone
    (duration : Q) (config : KenBurnsConfig) (dir : string) (t1 t2 : Q)
    (Hd : 0 < duration)
    (Hstart : 0 <= t1) (Horder : t1 <= t2) (Hend : t2 <= duration) :
  let z0 := fst (zoom_range config) in
  let z1 := snd (zoom_range config) in
  (z0 <= z1 ->
     z0 <= zoom_effect duration config dir t1 /\
     zoom_effect duration config dir t1 <= z1) /\
  (z1 <= z0 ->
     z1 <= zoom_effect duration config dir t1 /\
     zoom_effect duration config dir t1 <= z0) /\
  (z0 <= z1 -> dir <> "out" ->
     zoom_effect duration config dir t1 <= zoom_effect duration config dir t2) /\
  (z0 <= z1 -> dir = "out" ->
     zoom_effect duration config dir t2 <= zoom_effect duration config dir t1).
Proof.
  intros z0 z1.
  assert (Hnz : ~ duration == 0) by lra.
  destruct (normalized_inside duration t1 Hd Hstart) as [Ha1 Hb1]; [lra|].
  destruct (normalized_inside duration t2 Hd) as [Ha2 Hb2]; [lra | lra |].
  pose proof (normalized_monotone duration t1 t2 Hd Horder) as Hmono.
  destruct (ease_in_out_range duration Hnz t1 Ha1 Hb1) as [He0 He1].
  pose proof (ease_in_out_monotone duration t1 t2 Ha1 Hmono Hb2) as Hle.
  set (e1 := ease_in_out duration t1) in *.
  set (e2 := ease_in_out duration t2) in *.
  assert (Hz : forall t,
             zoom_effect duration config dir t
             = if String.eqb dir "out"
               then z1 + (z0 - z1) * ease_in_out duration t
               else z0 + (z1 - z0) * ease_in_out duration t).
  { intro t. destruct (String.eqb dir "out") eqn:E.
    - apply String.eqb_eq in E. subst dir. apply zoom_effect_out.
    - apply zoom_effect_in. exact E. }
  rewrite !Hz. fold e1 e2.
  destruct (String.eqb dir "out") eqn:E.
  - apply String.eqb_eq in E.
    split; [intro; split; nra|]. split; [intro; split; nra|].
    split; [intros _ Hne; contradiction | intros; nra].
  - apply String.eqb_neq in E.
    split; [intro; split; nra|]. split; [intro; split; nra|].
    split; [intros; nra | intros _ Heq; contradiction].
Qed.

Lemma zoom_effect_bounded_and_monotone_witness :
  1 <= zoom_effect 12 default_KenBurnsConfig "in" 3 /\
  zoom_effect 12 default_KenBurnsConfig "in" 3 <= 12 # 10 /\
  zoom_effect 12 default_KenBurnsConfig "in" 3
  <= zoom_effect 12 default_KenBurnsConfig "in" 9.
Proof.
  assert (Hd : 0 < 12) by reflexivity.
  assert (H0 : 0 <= 3) by discriminate.
  assert (H1 : 3 <= 9) by discriminate.
  assert (H2 : 9 <= 12) by discriminate.
  destruct (zoom_effect_bounded_and_monotone 12 default_KenBurnsConfig "in"
              3 9 Hd H0 H1 H2) as [Hin [_ [Hup _]]].
  assert (Hrange : 1 <= 12 # 10) by discriminate.
  destruct (Hin Hrange) as [Ha Hb].
  split; [exact Ha|]. split; [exact Hb|].
  apply Hup; [exact Hrange | discriminate].
Defined.

(** X5.  The pan starts from rest and stays inside the configured range:
    at [t = 0] both offsets are zero whatever the generator answers, and
    for a [pan_range] around zero, generator answers in [0,1] and a time
    inside the clip, each offset lies within [pan_range]. *)
Theorem pan_effect_starts_at_rest_and_bounded
    (oracle : RandomOracle) (duration : Q) (config : KenBurnsConfig)
    (t : Q) (k : Rng)
    (Hd : 0 < duration) (Hstart : 0 <= t) (Hend : t <= duration)
    (Hlow : fst (pan_range config) <= 0) (Hhigh : 0 <= snd (pan_range config))
    (Hdraw1 : 0 <= unit_draw oracle k /\ unit_draw oracle k <= 1)
    (Hdraw2 : 0 <= unit_draw oracle (S k) /\ unit_draw oracle (S k) <= 1) :
  (exists x y, outcome (pan_effect oracle duration config 0 k) = Ok (x, y) /\
               x == 0 /\ y == 0) /\
  (exists x y, outcome (pan_effect oracle duration config t k) = Ok (x, y) /\
               fst (pan_range config) <= x /\ x <= snd (pan_range config) /\
               fst (pan_range config) <= y /\ y <= snd (pan_range config)).
Proof.
  assert (Hnz : ~ duration == 0) by lra.
  rewrite !pan_effect_draws. cbn [outcome fst snd].
  destruct (normalized_inside duration t Hd Hstart Hend) as [Ha Hb].
  destruct (ease_in_out_range duration Hnz t Ha Hb) as [He0 He1].
  pose proof (ease_in_out_start duration Hnz) as Hzero.
  set (e := ease_in_out duration t) in *.
  set (e0 := ease_in_out duration 0) in *.
  destruct (pan_range config) as [lo hi]. cbn [fst snd] in *.
  destruct Hdraw1 as [Hu0 Hu1]. destruct Hdraw2 as [Hv0 Hv1].
  set (u := unit_draw oracle k) in *. set (v := unit_draw oracle (S k)) in *.
  split.
  - eexists. eexists. split; [reflexivity|].
    split; rewrite Hzero; ring.
  - eexists. eexists. split; [reflexivity|].
    assert (Hu : lo <= lo + (hi - lo) * u /\ lo + (hi - lo) * u <= hi)
      by (split; nra).
    assert (Hv : lo <= lo + (hi - lo) * v /\ lo + (hi - lo) * v <= hi)
      by (split; nra).
    destruct Hu as [Hu_lo Hu_hi]. destruct Hv as [Hv_lo Hv_hi].
    set (a := lo + (hi - lo) * u) in *. set (b := lo + (hi - lo) * v) in *.
    repeat split; nra.
Qed.

Lemma pan_effect_starts_at_rest_and_bounded_witness :
  exists x y,
    outcome (pan_effect cycling_oracle 10 default_KenBurnsConfig 5 0%nat)
    = Ok (x, y) /\
    - (1 # 2) <= x /\ x <= 1 # 2 /\ - (1 # 2) <= y /\ y <= 1 # 2.
Proof.
  assert (Hd : 0 < 10) by reflexivity.
  assert (H0 : 0 <= 5) by discriminate.
  assert (H1 : 5 <= 10) by discriminate.
  assert (Hlo : fst (pan_range default_KenBurnsConfig) <= 0) by discriminate.
  assert (Hhi : 0 <= snd (pan_range default_KenBurnsConfig)) by discriminate.
  assert (Hu : 0 <= unit_draw cycling_oracle 0 /\ unit_draw cycling_oracle 0 <= 1)
    by (split; discriminate).
  assert (Hv : 0 <= unit_draw cycling_oracle 1 /\ unit_draw cycling_oracle 1 <= 1)
    by (split; discriminate).
  exact (proj2 (pan_effect_starts_at_rest_and_bounded cycling_oracle 10
                  default_KenBurnsConfig 5 0%nat Hd H0 H1 Hlo Hhi Hu Hv)).
Defined.

(** How [_apply_enhanced_ken_burns] runs on a clip whose duration is set. *)
Lemma apply_enhanced_ken_burns_run (env : Env) (clip : ImageClip)
    (config : option KenBurnsConfig) (d : Q) (k : Rng) :
  clip_duration clip = Some d -> ~ d == 0 ->
  _apply_enhanced_ken_burns env clip config k =
  let cfg := match config with None => default_KenBurnsConfig | Some c => c end in
  if String.eqb (direction cfg) "random"
  then
    match nth_error ["in"; "out"]%string (index_draw (random env) k 2) with
    | Some dir =>
        (Ok {| base := clip;
               resize_fn := zoom_effect d cfg dir;
               position_fn := pan_effect (random env) d cfg |},
         [EvLog INFO (ApplyingKenBurns d)], S k)
    | None =>
        (Raise (LibraryError (mkLibError "IndexError" "list index out of range")),
         [EvLog INFO (ApplyingKenBurns d)], S k)
    end
  else
    (Ok {| base := clip;
           resize_fn := zoom_effect d cfg (direction cfg);
           position_fn := pan_effect (random env) d cfg |},
     [EvLog INFO (ApplyingKenBurns d)], k).
Proof.
  intros Hsome Hd. unfold _apply_enhanced_ken_burns. rewrite Hsome.
  assert (Ht : truthy (Some d) = true).
  { cbn [truthy]. destruct (Qeq_bool d 0) eqn:E; [|reflexivity].
    apply Qeq_bool_iff in E. contradiction. }
  rewrite Ht. cbn [negb]. cbv zeta.
  destruct (String.eqb (direction _) "random").
  - unfold bind, log, emit, ret, random_choice. cbn [List.length app].
    destruct (nth_error _ _); reflexivity.
  - reflexivity.
Qed.

(** X6.  A ['random'] direction (also the one of the default configuration,
    used when no configuration is passed) is resolved once, when the effect
    is applied: one answer of the generator is consumed, and the zoom
    installed on the clip is, for every [t], that of ['in'] or, for every
    [t], that of ['out']. *)
Theorem random_direction_resolved_once
    (env : Env) (clip : ImageClip) (config : option KenBurnsConfig)
    (d : Q) (k : Rng)
    (Hduration : clip_duration clip = Some d) (Hd : ~ d == 0)
    (Hrandom :
       direction (match config with
                  | None => default_KenBurnsConfig
                  | Some c => c
                  end) = "random")
    (Hindex : (index_draw (random env) k 2 < 2)%nat) :
  let cfg := match config with None => default_KenBurnsConfig | Some c => c end in
  exists motion,
    _apply_enhanced_ken_burns env clip config k
    = (Ok motion, [EvLog INFO (ApplyingKenBurns d)], S k) /\
    ((forall t, resize_fn motion t = zoom_effect d cfg "in" t) \/
     (forall t, resize_fn motion t = zoom_effect d cfg "out" t)).
Proof.
  intro cfg.
  rewrite (apply_enhanced_ken_burns_run env clip config d k Hduration Hd).
  cbv zeta. fold cfg. fold cfg in Hrandom. rewrite Hrandom.
  cbn [String.eqb Ascii.eqb Bool.eqb andb].
  destruct (index_draw (random env) k 2) as [|[|n]]; cbn [nth_error].
  - eexists. split; [reflexivity|]. left. reflexivity.
  - eexists. split; [reflexivity|]. right. reflexivity.
  - lia.
Qed.

Lemma random_direction_resolved_once_witness :
  exists motion,
    _apply_enhanced_ken_burns quiet_env
      (WithDuration (LoadedImage "image.png" None) (Some 12)) None 0%nat
    = (Ok motion, [EvLog INFO (ApplyingKenBurns 12)], 1%nat) /\
    ((forall t, resize_fn motion t = zoom_effect 12 default_KenBurnsConfig "in" t) \/
     (forall t, resize_fn motion t = zoom_effect 12 default_KenBurnsConfig "out" t)).
Proof.
  assert (Hd : ~ 12 == 0) by discriminate.
  assert (Hindex : (index_draw (random quiet_env) 0 2 < 2)%nat)
    by (cbn; lia).
  exact (random_direction_resolved_once quiet_env
           (WithDuration (LoadedImage "image.png" None) (Some 12)) None
           12 0%nat eq_refl Hd eq_refl Hindex).
Defined.
(* ------------------------------------------------------------------ *)
(** ** More on the resolution normalizer *)

(** X7.  A source image of positive size is never enlarged past a canvas
    of positive size, and the padding is centred: the resized image, placed
    at its offsets, lies inside the canvas on both axes, the offsets are
    not negative, and the two margins of an axis differ by at most one
    pixel.  This is so in the arithmetic of doubles for every image and
    canvas below [2**50] pixels a side. *)
Theorem process_resolution_fits_canvas
    (settings : Settings) (env : Env) (image : ImageClip)
    (img_w img_h target_w target_h : Z) (k : Rng)
    (Hcanvas : OUTPUT_RESOLUTION settings = (target_w, target_h))
    (Hsize : clip_size image = Some [Some img_w; Some img_h])
    (Hw : (0 < img_w < 2 ^ 50)%Z) (Hh : (0 < img_h < 2 ^ 50)%Z)
    (Htw : (0 < target_w < 2 ^ 50)%Z) (Hth : (0 < target_h < 2 ^ 50)%Z)
    (Hresize : forall new_size,
       code_new_size img_w img_h target_w target_h = Ok new_size ->
       resize_error env new_size = None) :
  exists new_w new_h out,
    _process_resolution settings env image k
    = (Ok out,
       [EvLog INFO (ProcessingImageResolution img_w img_h target_w target_h);
        EvResize (new_w, new_h)], k) /\
    let x := ((target_w - new_w) / 2)%Z in
    let y := ((target_h - new_h) / 2)%Z in
    (out = Resized image (new_w, new_h) \/
     out = Composite [ZerosImage target_w target_h (clip_duration image);
                      Positioned (Resized image (new_w, new_h)) (x, y)]) /\
    (0 <= new_w <= target_w)%Z /\ (0 <= new_h <= target_h)%Z /\
    (0 <= x)%Z /\ (x + new_w <= target_w)%Z /\
    (0 <= y)%Z /\ (y + new_h <= target_h)%Z /\
    (0 <= (target_w - new_w - x) - x <= 1)%Z /\
    (0 <= (target_h - new_h - y) - y <= 1)%Z.
Proof.
  destruct (size_chain img_w img_h target_w target_h Hw Hh
              ltac:(lia) ltac:(lia))
    as [scale_w [scale_h [float_w [float_h [scaled_w [scaled_h
         [_ [_ [_ [_ [_ [_ [Hnew [Hbw Hbh]]]]]]]]]]]]]].
  set (new_w := py_int scaled_w) in *. set (new_h := py_int scaled_h) in *.
  exists new_w, new_h. eexists. split.
  - apply (process_resolution_run settings env target_w target_h Hcanvas
             image img_w img_h Hsize _ k Hnew); try lia.
    apply Hresize. exact Hnew.
  - cbv zeta. cbn [fst snd].
    split.
    { destruct ((new_w =? target_w)%Z && (new_h =? target_h)%Z); auto. }
    pose proof (Z.div_mod (target_w - new_w) 2) as Hx.
    pose proof (Z.mod_pos_bound (target_w - new_w) 2) as Hxm.
    pose proof (Z.div_mod (target_h - new_h) 2) as Hy.
    pose proof (Z.mod_pos_bound (target_h - new_h) 2) as Hym.
    repeat split; lia.
Qed.

Lemma process_resolution_fits_canvas_witness :
  exists new_w new_h out,
    _process_resolution default_Settings quiet_env
      (LoadedImage "image.png" (Some [Some 784%Z; Some 500%Z])) 0%nat
    = (Ok out,
       [EvLog INFO (ProcessingImageResolution 784 500 1024 1024);
        EvResize (new_w, new_h)], 0%nat) /\
    (0 <= new_w <= 1024)%Z /\ (0 <= new_h <= 1024)%Z.
Proof.
  assert (Hw : (0 < 784 < 2 ^ 50)%Z) by (split; reflexivity).
  assert (Hh : (0 < 500 < 2 ^ 50)%Z) by (split; reflexivity).
  assert (Ht : (0 < 1024 < 2 ^ 50)%Z) by (split; reflexivity).
  destruct (process_resolution_fits_canvas default_Settings quiet_env
              (LoadedImage "image.png" (Some [Some 784%Z; Some 500%Z]))
              784 500 1024 1024 0%nat eq_refl eq_refl Hw Hh Ht Ht
              (fun _ _ => eq_refl))
    as [new_w [new_h [out [Hrun [_ [Hbw [Hbh _]]]]]]].
  exists new_w, new_h, out. split; [exact Hrun|]. split; assumption.
Defined.

(** *** The aspect ratio *)

(** Rounding to an integer leaves a whole number alone. *)
Lemma py_round_int (y : Q) (m : Z) : y == inject_Z m -> py_round y = m.
Proof.
  intro Hy. assert (H := py_round_error y).
  apply Qabs_Qle_condition in H. destruct H as [Hlo Hhi].
  set (r := py_round y) in *.
  assert (H1 : (r < m + 1)%Z).
  { rewrite Zlt_Qlt, inject_Z_plus. change (inject_Z 1) with 1. lra. }
  assert (H2 : (m < r + 1)%Z).
  { rewrite Zlt_Qlt, inject_Z_plus. change (inject_Z 1) with 1. lra. }
  lia.
Qed.

(** [float(n)] is exact for a whole number below [2**53]. *)
Lemma round_double_int (n : Z) :
  (0 <= n < 2 ^ 53)%Z ->
  exists v, round_double (inject_Z n) = Some v /\ v == inject_Z n.
Proof.
  intros [H0 Hn]. unfold round_double.
  destruct (Qeq_bool (inject_Z n) 0) eqn:Hz.
  { apply Qeq_bool_iff in Hz. exists 0. split; [reflexivity|].
    symmetry. exact Hz. }
  assert (Hnn : 0 <= inject_Z n) by (apply inject_Z_nonneg; exact H0).
  assert (Hpos : 0 < inject_Z n).
  { apply Qeq_bool_neq in Hz. lra. }
  assert (Hone : 1 <= inject_Z n).
  { change 1 with (inject_Z 1). rewrite <- Zle_Qle.
    change 0 with (inject_Z 0) in Hpos. rewrite <- Zlt_Qlt in Hpos. lia. }
  assert (Htop : inject_Z n < pow2 53).
  { rewrite pow2_Z by lia. rewrite <- Zlt_Qlt. exact Hn. }
  rewrite (Qabs_nonneg_eq (inject_Z n)) by lra.
  destruct (ilog2_spec _ Hpos) as [Hk1 Hk2].
  set (k := ilog2 (inject_Z n)) in *. cbv zeta.
  assert (Hk : (0 <= k <= 52)%Z).
  { split.
    - destruct (Z_le_gt_dec 0 k) as [H|H]; [exact H|]. exfalso.
      assert (Hle : pow2 (k + 1) <= pow2 0) by (apply pow2_le; lia).
      change (pow2 0) with 1 in Hle. lra.
    - destruct (Z_le_gt_dec k 52) as [H|H]; [exact H|]. exfalso.
      assert (Hle : pow2 53 <= pow2 k) by (apply pow2_le; lia). lra. }
  replace (Z.max (k - 52) (-1074)) with (k - 52)%Z by lia.
  assert (He := pow2_pos (k - 52)).
  assert (Hinv : pow2 (52 - k) * pow2 (k - 52) == 1).
  { rewrite <- pow2_plus. replace (52 - k + (k - 52))%Z with 0%Z by lia.
    reflexivity. }
  assert (Hy : inject_Z n / pow2 (k - 52) == inject_Z (n * 2 ^ (52 - k))).
  { rewrite inject_Z_mult, <- pow2_Z by lia.
    set (a := pow2 (52 - k)) in *. set (b := pow2 (k - 52)) in *.
    apply Qmult_inj_r with b; [lra|].
    transitivity (inject_Z n); [field; lra|].
    rewrite <- Qmult_assoc, Hinv. ring. }
  rewrite (py_round_int _ _ Hy).
  assert (Hv : inject_Z (n * 2 ^ (52 - k)) * pow2 (k - 52) == inject_Z n).
  { rewrite inject_Z_mult, <- pow2_Z by lia.
    rewrite <- Qmult_assoc, Hinv. ring. }
  destruct (Qle_bool (pow2 1024) _) eqn:Hov.
  - exfalso. apply Qle_bool_iff in Hov.
    rewrite Hv, Qabs_pos in Hov by exact Hnn.
    assert (Hle : pow2 53 <= pow2 1024) by (apply pow2_le; lia). lra.
  - eexists. split; [reflexivity | exact Hv].
Qed.

(** One side of the new size, for sizes below [2**24]: the double
    [side * scale] is within [2**-27] of the product of the side and the
    scale. *)
Lemma scaled_side_error (n t : Z) (s q : Q) :
  (0 < n < 2 ^ 24)%Z -> (0 <= t < 2 ^ 24)%Z ->
  round_double (inject_Z t / inject_Z n) = Some q ->
  0 <= s -> s <= q ->
  exists f v,
    round_double (inject_Z n) = Some f /\
    round_double (f * s) = Some v /\
    0 <= v /\
    inject_Z n * s - (1 # 134217728) <= v /\
    v <= inject_Z n * s + (1 # 134217728).
Proof.
  intros Hn Ht Hq Hs0 Hsq.
  destruct (quotient_rounds n t ltac:(lia) ltac:(lia)) as [q' [Hq' [_ Hqhi]]].
  rewrite Hq in Hq'. injection Hq' as <-.
  destruct (round_double_int n ltac:(lia)) as [f [Hf Hfn]].
  assert (Qn : 1 <= inject_Z n)
    by (change 1 with (inject_Z 1); rewrite <- Zle_Qle; lia).
  assert (Qn' : inject_Z n <= inject_Z (2 ^ 24)) by (rewrite <- Zle_Qle; lia).
  assert (Qt : 0 <= inject_Z t) by (apply inject_Z_nonneg; lia).
  assert (Qt' : inject_Z t <= inject_Z (2 ^ 24)) by (rewrite <- Zle_Qle; lia).
  destruct (Qdiv_bounds _ _ Qn Qt) as [Hx0 [Hxt Hx]].
  assert (Pu := Qlt_le_weak _ _ (pow2_pos (-53))).
  assert (Pe := Qlt_le_weak _ _ (pow2_pos (-1075))).
  assert (Eu : pow2 (-1075) <= pow2 (-53)) by (apply pow2_le; lia).
  assert (Cu : inject_Z (2 ^ 24) * pow2 (-53) == 1 # 536870912) by reflexivity.
  assert (C24 : inject_Z (2 ^ 24) == 16777216) by reflexivity.
  assert (C50 : inject_Z (2 ^ 50) == 1125899906842624) by reflexivity.
  set (N := inject_Z n) in *. set (T := inject_Z t) in *.
  set (x := T / N) in *.
  set (u := pow2 (-53)) in *. set (eps := pow2 (-1075)) in *.
  set (B := inject_Z (2 ^ 24)) in *.
  assert (HP0 : 0 <= N * s) by (apply Qmul_nonneg; lra).
  assert (HPq : N * s <= N * q) by (apply Qmul_le; lra).
  assert (Hxu : x * u <= B * u) by (apply Qmul_le; lra).
  assert (HNe : N * eps <= B * u) by (apply Qmul_le; lra).
  assert (HNx : N * x == T) by (rewrite Qmult_comm; exact Hx).
  assert (HNxu : N * (x * u) <= B * u).
  { rewrite Qmult_assoc, HNx. apply Qmul_le; lra. }
  assert (HNq : N * q <= N * (x + x * u + eps)) by (apply Qmul_le; lra).
  assert (Hdist : N * (x + x * u + eps) == N * x + N * (x * u) + N * eps)
    by ring.
  assert (HP : N * s <= B + 1) by lra.
  assert (Hfs : f * s == N * s) by (rewrite Hfn; reflexivity).
  destruct (round_double_small (f * s)) as [v [Hv [Hv0 [Hlo Hhi]]]];
    [lra | fold B in C24; lra |].
  exists f, v. split; [exact Hf|]. split; [exact Hv|]. split; [exact Hv0|].
  assert (HPu : f * s * u <= (B + 1) * u) by (apply Qmul_le; lra).
  assert (Hone : (B + 1) * u == B * u + u) by ring.
  assert (Hu : u <= 1 # 536870912) by (apply Qle_bool_iff; reflexivity).
  fold u eps in Hlo, Hhi. split; lra.
Qed.

(** X8.  The resize keeps the aspect ratio up to the truncation of each
    side: for a source image of positive size below [2**24] on a canvas
    of non-negative size below [2**24], the scaling of the code, in
    doubles, returns a new width and height [(new_w, new_h)] with
    [-img_h <= new_w*img_h - new_h*img_w <= img_w]. *)
Theorem process_resolution_keeps_aspect_ratio
    (img_w img_h target_w target_h : Z)
    (Hw : (0 < img_w < 2 ^ 24)%Z) (Hh : (0 < img_h < 2 ^ 24)%Z)
    (Htw : (0 <= target_w < 2 ^ 24)%Z) (Hth : (0 <= target_h < 2 ^ 24)%Z) :
  exists new_w new_h,
    code_new_size img_w img_h target_w target_h = Ok (new_w, new_h) /\
    (- img_h <= new_w * img_h - new_h * img_w <= img_w)%Z.
Proof.
  destruct (quotient_rounds img_w target_w ltac:(lia) ltac:(lia))
    as [scale_w [Hsw [Hsw0 _]]].
  destruct (quotient_rounds img_h target_h ltac:(lia) ltac:(lia))
    as [scale_h [Hsh [Hsh0 _]]].
  destruct (py_min_le scale_w scale_h) as [Hle_w Hle_h].
  assert (Hs0 : 0 <= py_min scale_w scale_h)
    by (destruct (py_min_cases scale_w scale_h) as [E|E]; rewrite E; assumption).
  destruct (scaled_side_error img_w target_w _ scale_w Hw Htw Hsw Hs0 Hle_w)
    as [float_w [a [Hfw [Ha [Ha0 [Halo Hahi]]]]]].
  destruct (scaled_side_error img_h target_h _ scale_h Hh Hth Hsh Hs0 Hle_h)
    as [float_h [b [Hfh [Hb [Hb0 [Hblo Hbhi]]]]]].
  exists (py_int a), (py_int b).
  split.
  { rewrite size_arithmetic.
    assert (Ew : (img_w =? 0)%Z = false) by (apply Z.eqb_neq; lia).
    assert (Eh : (img_h =? 0)%Z = false) by (apply Z.eqb_neq; lia).
    rewrite Ew, Hsw, Eh, Hsh. cbv zeta. rewrite Hfw, Ha, Hfh, Hb.
    reflexivity. }
  set (s := py_min scale_w scale_h) in *.
  destruct (py_int_nonneg a Ha0) as [HA0 [HAlo HAhi]].
  destruct (py_int_nonneg b Hb0) as [HB0 [HBlo HBhi]].
  set (new_w := py_int a) in *. set (new_h := py_int b) in *.
  rewrite inject_Z_plus in HAhi, HBhi.
  change (inject_Z 1) with 1 in HAhi, HBhi.
  assert (Qw : 0 < inject_Z img_w) by (apply inject_Z_pos; lia).
  assert (Qh : 0 < inject_Z img_h) by (apply inject_Z_pos; lia).
  assert (Qw' : inject_Z img_w <= inject_Z (2 ^ 24)) by (rewrite <- Zle_Qle; lia).
  assert (Qh' : inject_Z img_h <= inject_Z (2 ^ 24)) by (rewrite <- Zle_Qle; lia).
  assert (C24 : (1 # 134217728) * inject_Z (2 ^ 24) == 1 # 8) by reflexivity.
  set (W := inject_Z img_w) in *. set (H := inject_Z img_h) in *.
  set (A := inject_Z new_w) in *. set (B := inject_Z new_h) in *.
  set (d := 1 # 134217728) in *. set (L := inject_Z (2 ^ 24)) in *.
  assert (Hd0 : 0 <= d) by discriminate.
  assert (HdW : d * W <= d * L) by (apply Qmul_le; lra).
  assert (HdH : d * H <= d * L) by (apply Qmul_le; lra).
  assert (E1 : (W * s + d) * H == W * s * H + d * H) by ring.
  assert (E2 : (H * s - d) * W == W * s * H - d * W) by ring.
  assert (E3 : (H * s + d) * W == W * s * H + d * W) by ring.
  assert (E4 : (W * s - d) * H == W * s * H - d * H) by ring.
  assert (E5 : (A + 1) * H == A * H + H) by ring.
  assert (E6 : (B + 1) * W == B * W + W) by ring.
  assert (U1 : A * H <= a * H) by (apply Qmult_le_compat_r; lra).
  assert (U2 : a * H <= (W * s + d) * H) by (apply Qmult_le_compat_r; lra).
  assert (U3 : (H * s - d) * W <= b * W) by (apply Qmult_le_compat_r; lra).
  assert (U4 : b * W < (B + 1) * W) by (apply Qmult_lt_compat_r; lra).
  assert (V1 : B * W <= b * W) by (apply Qmult_le_compat_r; lra).
  assert (V2 : b * W <= (H * s + d) * W) by (apply Qmult_le_compat_r; lra).
  assert (V3 : (W * s - d) * H <= a * H) by (apply Qmult_le_compat_r; lra).
  assert (V4 : a * H < (A + 1) * H) by (apply Qmult_lt_compat_r; lra).
  assert (R1 : (new_w * img_h < new_h * img_w + img_w + 1)%Z).
  { rewrite Zlt_Qlt, !inject_Z_plus, !inject_Z_mult.
    change (inject_Z 1) with 1. fold A B W H. lra. }
  assert (R2 : (new_h * img_w < new_w * img_h + img_h + 1)%Z).
  { rewrite Zlt_Qlt, !inject_Z_plus, !inject_Z_mult.
    change (inject_Z 1) with 1. fold A B W H. lra. }
  lia.
Qed.

Lemma process_resolution_keeps_aspect_ratio_witness :
  exists new_w new_h,
    code_new_size 644 483 1024 768 = Ok (new_w, new_h) /\
    (- 483 <= new_w * 483 - new_h * 644 <= 644)%Z.
Proof.
  apply (process_resolution_keeps_aspect_ratio 644 483 1024 768); lia.
Defined.

(* ------------------------------------------------------------------ *)
(** ** Rendering *)

Lemma truthy_nonzero (d : Q) : ~ d == 0 -> truthy (Some d) = true.
Proof.
  intro Hd. cbn [truthy]. destruct (Qeq_bool d 0) eqn:E; [|reflexivity].
  apply Qeq_bool_iff in E. contradiction.
Qed.

(** [_render_final_video] on an audio clip whose duration is set: the
    duration is copied to the image, the effect is applied, and unless
    that raised the encoder is called once; drawing the frames takes two
    answers of the generator each. *)
Lemma render_final_video_run (settings : Settings) (env : Env)
    (image : ImageClip) (audio : AudioFileClip)
    (config : option KenBurnsConfig) (d : Q) (k : Rng) :
  audio_duration audio = Some d -> ~ d == 0 ->
  _render_final_video settings env image audio config k =
  let effect :=
    _apply_enhanced_ken_burns env (WithDuration image (Some d)) config k in
  let path := output_path_of settings env in
  match outcome effect with
  | Raise e => (Raise e, EvLog INFO (SetImageDuration d) :: events effect, final effect)
  | Ok _ =>
      (match write_error env path with
       | Some e => Raise (LibraryError e)
       | None => Ok path
       end,
       EvLog INFO (SetImageDuration d) :: events effect
       ++ [EvLog INFO WritingVideoFile; EvWriteVideo path],
       (final effect + 2 * List.length (frame_times env))%nat)
  end.
Proof.
  intros Hsome Hd.
  unfold _render_final_video, _prepare_video_clip.
  rewrite Hsome, (truthy_nonzero d Hd). cbn [negb]. cbv zeta.
  fold (output_path_of settings env).
  destruct (apply_enhanced_ken_burns_sat env (WithDuration image (Some d))
              config k) as [_ Hmotion].
  unfold bind, log, emit, ret.
  destruct (_apply_enhanced_ken_burns env (WithDuration image (Some d)) config k)
    as [[r l] k'].
  cbn [outcome events final fst snd app] in *.
  destruct r as [motion|e]; [|reflexivity].
  rewrite (write_videofile_run env) by (intros layer [<-|[]]; exact Hmotion).
  cbn [video_layers List.length app].
  replace (k' + 2 * 1 * List.length (frame_times env))%nat
    with (k' + 2 * List.length (frame_times env))%nat by lia.
  destruct (write_error env (output_path_of settings env));
    rewrite ?app_nil_r; reflexivity.
Qed.

(** X9.  [_render_final_video] calls the encoder at most once, always on
    [OUTPUT_DIR/generated_video_<int(time.time())>.mp4], and returns that
    path exactly when the encoder did not raise.  An audio clip without a
    duration makes it raise before anything is logged or written; with a
    duration, and a direction the generator can resolve, the "duration not
    set" error of the effect cannot occur. *)
Theorem render_final_video_writes_once
    (settings : Settings) (env : Env) (image : ImageClip)
    (audio : AudioFileClip) (config : option KenBurnsConfig) (k : Rng) :
  let run := _render_final_video settings env image audio config k in
  let path := output_path_of settings env in
  let cfg := match config with None => default_KenBurnsConfig | Some c => c end in
  (truthy (audio_duration audio) = false ->
     run = (Raise (VideoProcessingError InvalidAudioMissingDuration), [], k)) /\
  (forall d,
     audio_duration audio = Some d -> ~ d == 0 ->
     direction cfg <> "random" \/ (index_draw (random env) k 2 < 2)%nat ->
     events run
     = [EvLog INFO (SetImageDuration d); EvLog INFO (ApplyingKenBurns d);
        EvLog INFO WritingVideoFile; EvWriteVideo path] /\
     outcome run
     = match write_error env path with
       | Some e => Raise (LibraryError e)
       | None => Ok path
       end).
Proof.
  cbv zeta. split.
  - intro Hfalsy. unfold _render_final_video, _prepare_video_clip.
    rewrite Hfalsy. reflexivity.
  - intros d Hsome Hd Hdir.
    rewrite (render_final_video_run settings env image audio config d k Hsome Hd).
    rewrite (apply_enhanced_ken_burns_run env (WithDuration image (Some d))
               config d k eq_refl Hd).
    cbv zeta.
    destruct (String.eqb (direction _) "random") eqn:E.
    + destruct Hdir as [Hne|Hidx];
        [apply String.eqb_eq in E; contradiction|].
      destruct (index_draw (random env) k 2) as [|[|n]]; cbn [nth_error];
        [split; reflexivity | split; reflexivity | lia].
    + split; reflexivity.
Qed.

Lemma render_final_video_writes_once_witness :
  outcome (_render_final_video default_Settings quiet_env
             (LoadedImage "image.png" None)
             (mkAudioFileClip "voice.mp3" (Some 12)) None 0%nat)
  = Ok "output/generated_video_1700000000.mp4"%string.
Proof.
  assert (Hd : ~ 12 == 0) by discriminate.
  assert (Hidx : (index_draw (random quiet_env) 0 2 < 2)%nat) by (cbn; lia).
  exact (proj2 (proj2 (render_final_video_writes_once default_Settings quiet_env
                         (LoadedImage "image.png" None)
                         (mkAudioFileClip "voice.mp3" (Some 12)) None 0%nat)
                  12 eq_refl Hd (or_intror Hidx))).
Defined.

(* ------------------------------------------------------------------ *)
(** ** More on the orchestrator *)

Lemma validate_inputs_failure (env : Env) (image_path audio_path : string)
    (k : Rng) (e : exn) :
  outcome (_validate_inputs env image_path audio_path k) = Raise e ->
  exists msg,
    _validate_inputs env image_path audio_path k
    = (Raise (VideoProcessingError msg), [], k).
Proof.
  unfold _validate_inputs.
  destruct (path_exists env image_path); cbn [negb];
    [|intros _; eexists; reflexivity].
  destruct (path_exists env audio_path); cbn [negb];
    [|intros _; eexists; reflexivity].
  destruct (path_getsize env image_path =? 0)%Z;
    [intros _; eexists; reflexivity|].
  destruct (path_getsize env audio_path =? 0)%Z;
    [intros _; eexists; reflexivity|].
  run_monad.
  destruct (Image_open env image_path) as [err|img_size]; run_monad;
    [intros _; eexists; reflexivity|].
  destruct (invalid_size (Some img_size)); run_monad;
    [intros _; eexists; reflexivity | discriminate].
Qed.

Lemma validate_inputs_success (env : Env) (image_path audio_path : string)
    (k : Rng) :
  outcome (_validate_inputs env image_path audio_path k) = Ok tt ->
  exists img_size,
    _validate_inputs env image_path audio_path k
    = (Ok tt, [EvLog INFO (ImageDimensions img_size)], k).
Proof.
  unfold _validate_inputs.
  destruct (path_exists env image_path); cbn [negb]; [|discriminate].
  destruct (path_exists env audio_path); cbn [negb]; [|discriminate].
  destruct (path_getsize env image_path =? 0)%Z; [discriminate|].
  destruct (path_getsize env audio_path =? 0)%Z; [discriminate|].
  run_monad.
  destruct (Image_open env image_path) as [err|img_size]; run_monad;
    [discriminate|].
  destruct (invalid_size (Some img_size)); run_monad; [discriminate|].
  intros _. eexists. reflexivity.
Qed.

(** X10.  When validation fails, [create_video] stops there: it logs the
    one error record and returns [None] without opening a clip, resizing or
    calling the encoder, and without touching the generator. *)
Theorem create_video_stops_at_failed_validation
    (settings : Settings) (env : Env) (image_path audio_path : string)
    (config : option KenBurnsConfig) (k : Rng) (e : exn)
    (Hfail : outcome (_validate_inputs env image_path audio_path k) = Raise e) :
  create_video settings env image_path audio_path config k
  = (Ok None, [EvLog ERROR (VideoProcessingErrorLog (str e))], k).
Proof.
  destruct (validate_inputs_failure env image_path audio_path k e Hfail)
    as [msg Hrun].
  rewrite Hrun in Hfail. cbn [outcome fst] in Hfail. injection Hfail as <-.
  rewrite create_video_run. unfold create_video_try, bind. rewrite Hrun.
  reflexivity.
Qed.

Lemma create_video_stops_at_failed_validation_witness :
  create_video default_Settings missing_image_env "image.png" "voice.mp3"
    None 0%nat
  = (Ok None,
     [EvLog ERROR (VideoProcessingErrorLog (ImageFileNotFound "image.png"))],
     0%nat).
Proof.
  exact (create_video_stops_at_failed_validation default_Settings
           missing_image_env "image.png" "voice.mp3" None 0%nat
           (VideoProcessingError (ImageFileNotFound "image.png")) eq_refl).
Defined.

(** X11.  Synthesis succeeds whenever nothing stands in its way: with
    inputs that validate, clips that open with a size of two integers and
    a non-zero duration within [MAX_VIDEO_LENGTH + DURATION_TOLERANCE], a
    canvas of non-negative size, the arithmetic of the new size raising
    nothing (no zero side, no overflow) and giving [new_size] in doubles,
    a resize and an encoder that do not raise, and a direction the
    generator can resolve, [create_video] returns the output path after
    exactly the steps below, whatever the two [close()] calls do. *)
Theorem create_video_succeeds
    (settings : Settings) (env : Env) (image_path audio_path : string)
    (config : option KenBurnsConfig) (k : Rng)
    (img_size : Size) (img_w img_h target_w target_h : Z) (new_size : Z * Z)
    (d : Q)
    (Himage : path_exists env image_path = true)
    (Haudio : path_exists env audio_path = true)
    (Himage_bytes : path_getsize env image_path <> 0%Z)
    (Haudio_bytes : path_getsize env audio_path <> 0%Z)
    (Hdecode : Image_open env image_path = inr img_size)
    (Hdims : invalid_size (Some img_size) = false)
    (Hclip : ImageClip_new env image_path = inr (Some [Some img_w; Some img_h]))
    (Htrack : AudioFileClip_new env audio_path = inr (Some d))
    (Hd : ~ d == 0)
    (Hbound : d <= inject_Z (MAX_VIDEO_LENGTH settings) + DURATION_TOLERANCE settings)
    (Hcanvas : OUTPUT_RESOLUTION settings = (target_w, target_h))
    (Htw : (0 <= target_w)%Z) (Hth : (0 <= target_h)%Z)
    (Hnew : code_new_size img_w img_h target_w target_h = Ok new_size)
    (Hresize : resize_error env new_size = None)
    (Hdir :
       direction (match config with
                  | None => default_KenBurnsConfig
                  | Some c => c
                  end) <> "random"
       \/ (index_draw (random env) k 2 < 2)%nat)
    (Hwrite : write_error env (output_path_of settings env) = None) :
  let run := create_video settings env image_path audio_path config k in
  let path := output_path_of settings env in
  outcome run = Ok (Some path) /\
  events run
  = [EvLog INFO (ImageDimensions img_size); EvOpen HImage; EvOpen HAudio;
     EvLog INFO (ProcessingImageResolution img_w img_h target_w target_h);
     EvResize new_size;
     EvLog INFO (SetImageDuration d); EvLog INFO (ApplyingKenBurns d);
     EvLog INFO WritingVideoFile; EvWriteVideo path;
     EvLog INFO (SuccessfullyCreated path)]
    ++ close_events env HImage ++ close_events env HAudio.
Proof.
  cbv zeta. rewrite create_video_run.
  rewrite (create_video_try_acquired settings env image_path audio_path config
             img_size (Some [Some img_w; Some img_h]) (Some d) k)
    by (try assumption; try reflexivity; apply truthy_nonzero; exact Hd).
  cbv zeta.
  assert (Hblock :
            let image := LoadedImage image_path (Some [Some img_w; Some img_h]) in
            let audio := mkAudioFileClip audio_path (Some d) in
            exists k',
              create_video_with settings env config image audio k
              = (Ok (Some (output_path_of settings env)),
                 [EvLog INFO (ProcessingImageResolution img_w img_h target_w target_h);
                  EvResize new_size;
                  EvLog INFO (SetImageDuration d); EvLog INFO (ApplyingKenBurns d);
                  EvLog INFO WritingVideoFile;
                  EvWriteVideo (output_path_of settings env);
                  EvLog INFO (SuccessfullyCreated (output_path_of settings env))],
                 k')).
  { cbv zeta. unfold create_video_with. cbn [audio_duration].
    rewrite (truthy_nonzero d Hd). cbn [negb].
    apply Qltb_ge in Hbound. rewrite Hbound.
    unfold bind at 1.
    rewrite (process_resolution_run settings env target_w target_h Hcanvas
               (LoadedImage image_path (Some [Some img_w; Some img_h]))
               img_w img_h eq_refl new_size k Hnew Htw Hth Hresize).
    cbv zeta. unfold bind at 1.
    match goal with
    | |- context [_render_final_video settings env ?im ?au config k] =>
        pose proof (render_final_video_run settings env im au config d k
                      eq_refl Hd) as Hrender;
        rewrite (apply_enhanced_ken_burns_run env (WithDuration im (Some d))
                   config d k eq_refl Hd) in Hrender
    end.
    cbv zeta in Hrender.
    destruct (String.eqb (direction _) "random") eqn:E.
    - destruct Hdir as [Hne|Hidx];
        [apply String.eqb_eq in E; contradiction|].
      destruct (index_draw (random env) k 2) as [|[|n]];
        cbn [nth_error outcome events final fst snd app] in Hrender;
        try lia;
        rewrite Hwrite in Hrender; rewrite Hrender;
        run_monad; eexists; reflexivity.
    - cbn [outcome events final fst snd app] in Hrender.
      rewrite Hwrite in Hrender. rewrite Hrender.
      run_monad. eexists. reflexivity. }
  cbv zeta in Hblock. destruct Hblock as [k' Hblock]. rewrite Hblock.
  cbn [outcome events final fst snd]. split; reflexivity.
Qed.

Lemma create_video_succeeds_witness :
  outcome (create_video default_Settings stubborn_env "image.png" "voice.mp3"
             None 0%nat)
  = Ok (Some "output/generated_video_1700000000.mp4"%string).
Proof.
  assert (Hbytes : 4096%Z <> 0%Z) by discriminate.
  assert (Hnew : code_new_size 800 600 1024 1024 = Ok (1024%Z, 768%Z))
    by (vm_compute; reflexivity).
  assert (Hd : ~ 12 == 0) by discriminate.
  assert (Hbound : 12 <= inject_Z 180 + (1 # 2)) by discriminate.
  assert (Htw : (0 <= 1024)%Z) by discriminate.
  assert (Hidx : (index_draw (random stubborn_env) 0 2 < 2)%nat) by (cbn; lia).
  exact (proj1 (create_video_succeeds default_Settings stubborn_env
                  "image.png" "voice.mp3" None 0%nat
                  [Some 800%Z; Some 600%Z] 800 600 1024 1024
                  (1024%Z, 768%Z) 12
                  eq_refl eq_refl Hbytes Hbytes eq_refl eq_refl eq_refl
                  eq_refl Hd Hbound eq_refl Htw Htw Hnew eq_refl
                  (or_intror Hidx) eq_refl)).
Defined.

(* ------------------------------------------------------------------ *)
(** ** The shape of a run of the orchestrator *)

Lemma writes_app (l1 l2 : list Event) :
  writes (l1 ++ l2) = (writes l1 + writes l2)%nat.
Proof. unfold writes. rewrite filter_app, length_app. reflexivity. Qed.

Lemma quiet_counts (l : list Event) :
  Forall (fun ev => is_quiet ev = true) l ->
  writes l = 0%nat /\ filter is_error_log l = [] /\
  forall h, opens h l = 0%nat /\ closes h l = 0%nat.
Proof.
  induction 1 as [|ev l Hev _ [IHw [IHe IHh]]].
  - repeat split.
  - unfold is_quiet in Hev.
    apply andb_true_iff in Hev. destruct Hev as [Hev He].
    apply andb_true_iff in Hev. destruct Hev as [Hh Hw].
    apply negb_true_iff in He. apply negb_true_iff in Hw.
    split; [|split].
    + unfold writes in *. cbn [filter]. rewrite Hw. exact IHw.
    + cbn [filter]. rewrite He. exact IHe.
    + intro h. destruct (IHh h) as [IHo IHc]. unfold opens, closes in *.
      destruct ev, h; cbn in Hh |- *; try discriminate; split; assumption.
Qed.

Lemma close_events_writes (env : Env) (h : Handle) :
  writes (close_events env h) = 0%nat /\
  filter is_error_log (close_events env h) = [].
Proof.
  unfold close_events, close_warning.
  destruct (close_error env h), h; split; reflexivity.
Qed.

Section Shape.
Variable settings : Settings.
Variable env : Env.

Let quiet (ev : Event) : Prop := is_quiet ev = true.

Lemma process_resolution_quiet (image : ImageClip) :
  Sat quiet (fun _ => True) (fun _ => True)
      (_process_resolution settings env image).
Proof.
  unfold _process_resolution, resize, zeros_clip.
  destruct (OUTPUT_RESOLUTION settings) as [target_w target_h].
  sat_auto.
Qed.

Lemma apply_enhanced_ken_burns_quiet (clip : ImageClip)
    (config : option KenBurnsConfig) :
  Sat quiet (fun _ => True) (fun _ => True)
      (_apply_enhanced_ken_burns env clip config).
Proof. unfold _apply_enhanced_ken_burns. sat_auto. Qed.

(** The block under [with]: quiet events, then possibly the call of the
    encoder, then possibly the success record; it returns only after
    both, and only the output path. *)
Lemma create_video_with_shape (config : option KenBurnsConfig)
    (image : ImageClip) (audio : AudioFileClip) (k : Rng) :
  let run := create_video_with settings env config image audio k in
  let path := output_path_of settings env in
  exists pre tail,
    events run = pre ++ tail /\
    Forall quiet pre /\
    match outcome run with
    | Ok r =>
        r = Some path /\
        tail = [EvWriteVideo path; EvLog INFO (SuccessfullyCreated path)] /\
        write_error env path = None /\
        exists d, audio_duration audio = Some d /\ ~ d == 0 /\
                  d <= inject_Z (MAX_VIDEO_LENGTH settings)
                       + DURATION_TOLERANCE settings
    | Raise _ => tail = [] \/ tail = [EvWriteVideo path]
    end.
Proof.
  cbv zeta.
  destruct (create_video_with settings env config image audio k)
    as [[r l] k'] eqn:Hrun.
  cbn [outcome events fst snd].
  unfold create_video_with in Hrun.
  destruct (truthy (audio_duration audio)) eqn:Ht; cbn [negb] in Hrun.
  2:{ injection Hrun as <- <- <-.
      exists [], []. split; [reflexivity|]. split; [constructor|].
      left. reflexivity. }
  destruct (truthy_Some _ Ht) as [d [Hsome Hd]]. rewrite Hsome in Hrun.
  destruct (Qltb _ d) eqn:Hb.
  { injection Hrun as <- <- <-.
    exists [], []. split; [reflexivity|]. split; [constructor|].
    left. reflexivity. }
  apply Qltb_ge in Hb.
  unfold bind at 1 in Hrun.
  destruct (process_resolution_quiet image k) as [Hev1 _].
  destruct (_process_resolution settings env image k) as [[r1 l1] k1].
  cbn [events fst snd] in Hev1.
  destruct r1 as [image'|e1].
  2:{ injection Hrun as <- <- <-.
      exists l1, []. rewrite app_nil_r. split; [reflexivity|].
      split; [exact Hev1|]. left. reflexivity. }
  unfold bind at 1 in Hrun.
  rewrite (render_final_video_run settings env image' audio config d k1
             Hsome Hd) in Hrun.
  cbv zeta in Hrun.
  destruct (apply_enhanced_ken_burns_quiet (WithDuration image' (Some d))
              config k1) as [Hev2 _].
  destruct (_apply_enhanced_ken_burns env (WithDuration image' (Some d))
              config k1) as [[r2 l2] k2].
  cbn [outcome events final fst snd] in Hev2, Hrun.
  assert (Hpre : Forall quiet
                   (l1 ++ EvLog INFO (SetImageDuration d) :: l2
                    ++ [EvLog INFO WritingVideoFile])).
  { apply Forall_app. split; [exact Hev1|].
    constructor; [reflexivity|].
    apply Forall_app. split; [exact Hev2|].
    constructor; [reflexivity | constructor]. }
  destruct r2 as [motion|e2].
  2:{ injection Hrun as <- <- <-.
      exists (l1 ++ EvLog INFO (SetImageDuration d) :: l2), [].
      rewrite app_nil_r. split; [reflexivity|]. split; [|left; reflexivity].
      apply Forall_app. split; [exact Hev1|].
      constructor; [reflexivity | exact Hev2]. }
  destruct (write_error env (output_path_of settings env)) eqn:Hw.
  - injection Hrun as <- <- <-.
    exists (l1 ++ EvLog INFO (SetImageDuration d) :: l2
            ++ [EvLog INFO WritingVideoFile]),
           [EvWriteVideo (output_path_of settings env)].
    split; [|split; [exact Hpre | right; reflexivity]].
    cbn [app]. rewrite <- !app_assoc. cbn [app].
    rewrite <- !app_assoc. reflexivity.
  - cbv [bind ret log emit] in Hrun. cbn [app] in Hrun.
    injection Hrun as <- <- <-.
    exists (l1 ++ EvLog INFO (SetImageDuration d) :: l2
            ++ [EvLog INFO WritingVideoFile]),
           [EvWriteVideo (output_path_of settings env);
            EvLog INFO (SuccessfullyCreated (output_path_of settings env))].
    split; [|split; [exact Hpre|]].
    + rewrite <- !app_assoc. cbn [app]. rewrite <- !app_assoc. reflexivity.
    + split; [reflexivity|]. split; [reflexivity|]. split; [reflexivity|].
      exists d. auto.
Qed.

(** The [try] block, by how far it gets. *)
Lemma create_video_try_cases (image_path audio_path : string)
    (config : option KenBurnsConfig) (k : Rng) :
  let attempt :=
    create_video_try settings env image_path audio_path config k in
  (exists msg, attempt = (Raise (VideoProcessingError msg), [], k)) \/
  (exists img_size e opened,
     attempt
     = (Raise e,
        EvLog INFO (ImageDimensions img_size)
        :: map EvOpen opened ++ List.concat (map (close_events env) opened), k) /\
     (opened = [] \/ opened = [HImage] \/ opened = [HImage; HAudio])) \/
  (exists img_size size d,
     AudioFileClip_new env audio_path = inr (Some d) /\ ~ d == 0 /\
     let block :=
       create_video_with settings env config (LoadedImage image_path size)
         (mkAudioFileClip audio_path (Some d)) k in
     attempt
     = (outcome block,
        [EvLog INFO (ImageDimensions img_size); EvOpen HImage; EvOpen HAudio]
        ++ events block
        ++ close_events env HImage ++ close_events env HAudio,
        final block)).
Proof.
  cbv zeta. unfold create_video_try, bind.
  destruct (outcome (_validate_inputs env image_path audio_path k))
    as [[]|e] eqn:Hv.
  2:{ destruct (validate_inputs_failure env image_path audio_path k e Hv)
        as [msg Hrun].
      rewrite Hrun. left. exists msg. reflexivity. }
  destruct (validate_inputs_success env image_path audio_path k Hv)
    as [img_size Hrun].
  rewrite Hrun. right.
  rewrite manage_clips_run, manage_clips_try_run. cbv zeta.
  destruct (ImageClip_new env image_path) as [e|size].
  { left. exists img_size, (LibraryError e), [].
    split; [reflexivity | auto]. }
  destruct (invalid_size size).
  { left. exists img_size, (VideoProcessingError FailedToLoadImage), [HImage].
    split; [|auto].
    cbn [outcome events final fst snd image_clip audio_clip map List.concat app].
    rewrite !app_nil_r. reflexivity. }
  destruct (AudioFileClip_new env audio_path) as [e|d] eqn:Ha.
  { left. exists img_size, (LibraryError e), [HImage].
    split; [|auto].
    cbn [outcome events final fst snd image_clip audio_clip map List.concat app].
    rewrite !app_nil_r. reflexivity. }
  destruct (truthy d) eqn:Ht.
  - right. destruct (truthy_Some _ Ht) as [q [Hq Hnz]]. subst d.
    exists img_size, size, q. split; [reflexivity|]. split; [exact Hnz|].
    cbv zeta.
    destruct (create_video_with settings env config _ _ k) as [[r l] k'].
    cbn [outcome events final fst snd image_clip audio_clip app].
    rewrite <- ?app_assoc. reflexivity.
  - left. exists img_size, (VideoProcessingError FailedToLoadAudio),
      [HImage; HAudio].
    split; [|auto].
    cbn [outcome events final fst snd image_clip audio_clip map List.concat app].
    rewrite !app_nil_r. reflexivity.
Qed.
End Shape.

Lemma create_video_events (settings : Settings) (env : Env)
    (image_path audio_path : string) (config : option KenBurnsConfig)
    (k : Rng) :
  let attempt := create_video_try settings env image_path audio_path config k in
  let run := create_video settings env image_path audio_path config k in
  (forall h, opens h (events run) = opens h (events attempt) /\
             closes h (events run) = closes h (events attempt)) /\
  writes (events run) = writes (events attempt).
Proof.
  cbv zeta. rewrite create_video_run. cbv zeta.
  destruct (create_video_try settings env image_path audio_path config k)
    as [[r l] k'].
  cbn [outcome events final fst snd].
  destruct r as [a|e]; cbn [events fst snd].
  - split; [intro h; split|]; reflexivity.
  - split; [intro h; split|].
    + rewrite opens_app. destruct h; cbn; lia.
    + rewrite closes_app. destruct h; cbn; lia.
    + rewrite writes_app. cbn. lia.
Qed.

(** X12.  On every path through [create_video], whatever the libraries
    answer, each of the two clips is closed exactly as often as it was
    opened, at most once, and the encoder is called at most once. *)
Theorem create_video_releases_what_it_opens
    (settings : Settings) (env : Env) (image_path audio_path : string)
    (config : option KenBurnsConfig) (k : Rng) :
  let run := create_video settings env image_path audio_path config k in
  (forall h, closes h (events run) = opens h (events run) /\
             (opens h (events run) <= 1)%nat) /\
  (writes (events run) <= 1)%nat.
Proof.
  cbv zeta.
  destruct (create_video_events settings env image_path audio_path config k)
    as [Hh Hw].
  cbv zeta in Hh, Hw. rewrite Hw.
  assert (Hgoal :
            (forall h,
               closes h (events (create_video_try settings env image_path
                                   audio_path config k))
               = opens h (events (create_video_try settings env image_path
                                    audio_path config k)) /\
               (opens h (events (create_video_try settings env image_path
                                   audio_path config k)) <= 1)%nat) /\
            (writes (events (create_video_try settings env image_path
                               audio_path config k)) <= 1)%nat).
  { destruct (create_video_try_cases settings env image_path audio_path config k)
      as [[msg H]|[[img_size [e [opened [H Ho]]]]|[img_size [size [d [_ [_ H]]]]]]];
      cbv zeta in H; rewrite H; cbn [events fst snd].
    - split; [intro h; destruct h; cbn; lia | cbn; lia].
    - destruct (close_events_counts env HImage HImage) as [HoII HcII].
      destruct (close_events_counts env HImage HAudio) as [HoIA HcIA].
      destruct (close_events_counts env HAudio HImage) as [HoAI HcAI].
      destruct (close_events_counts env HAudio HAudio) as [HoAA HcAA].
      destruct (close_events_writes env HImage) as [HwI _].
      destruct (close_events_writes env HAudio) as [HwA _].
      cbn [is_close] in HcII, HcIA, HcAI, HcAA.
      destruct Ho as [->|[->| ->]]; cbn [map List.concat app];
        rewrite ?app_nil_r.
      + split; [intro h; destruct h; cbn; lia | cbn; lia].
      + change (EvLog INFO (ImageDimensions img_size)
                :: EvOpen HImage :: close_events env HImage)
          with ([EvLog INFO (ImageDimensions img_size); EvOpen HImage]
                ++ close_events env HImage).
        split; [intro h|].
        * rewrite opens_app, closes_app.
          destruct h; rewrite ?HoII, ?HcII, ?HoIA, ?HcIA; cbn; lia.
        * rewrite writes_app, HwI. cbn. lia.
      + change (EvLog INFO (ImageDimensions img_size)
                :: EvOpen HImage :: EvOpen HAudio
                   :: close_events env HImage ++ close_events env HAudio)
          with ([EvLog INFO (ImageDimensions img_size); EvOpen HImage; EvOpen HAudio]
                ++ close_events env HImage ++ close_events env HAudio).
        split; [intro h|].
        * rewrite !opens_app, !closes_app.
          destruct h;
            rewrite ?HoII, ?HcII, ?HoIA, ?HcIA, ?HoAI, ?HcAI, ?HoAA, ?HcAA;
            cbn; lia.
        * rewrite !writes_app, HwI, HwA. cbn. lia.
    - destruct (close_events_counts env HImage HImage) as [HoII HcII].
      destruct (close_events_counts env HImage HAudio) as [HoIA HcIA].
      destruct (close_events_counts env HAudio HImage) as [HoAI HcAI].
      destruct (close_events_counts env HAudio HAudio) as [HoAA HcAA].
      destruct (close_events_writes env HImage) as [HwI _].
      destruct (close_events_writes env HAudio) as [HwA _].
      cbn [is_close] in HcII, HcIA, HcAI, HcAA.
      destruct (create_video_with_shape settings env config
                  (LoadedImage image_path size)
                  (mkAudioFileClip audio_path (Some d)) k)
        as [pre [tail [Hev [Hpre Htail]]]].
      cbv zeta in Hev, Htail. rewrite Hev.
      destruct (quiet_counts pre Hpre) as [Hwpre [_ Hhpre]].
      assert (Htail' :
                (forall h, opens h tail = 0%nat /\ closes h tail = 0%nat) /\
                (writes tail <= 1)%nat).
      { destruct (outcome (create_video_with settings env config _ _ k)).
        - destruct Htail as [_ [-> _]].
          split; [intro h; destruct h; split; reflexivity | cbn; lia].
        - destruct Htail as [-> | ->];
            (split; [intro h; destruct h; split; reflexivity | cbn; lia]). }
      destruct Htail' as [Hhtail Hwtail].
      split; [intro h|].
      + rewrite !opens_app, !closes_app.
        destruct (Hhpre h) as [Hop Hcp]. destruct (Hhtail h) as [Hot Hct].
        rewrite Hop, Hcp, Hot, Hct.
        destruct h;
          rewrite ?HoII, ?HcII, ?HoIA, ?HcIA, ?HoAI, ?HcAI, ?HoAA, ?HcAA;
          cbn; lia.
      + rewrite !writes_app, Hwpre, HwI, HwA. cbn. lia. }
  destruct Hgoal as [Hbal Hwr].
  split; [|exact Hwr].
  intro h. destruct (Hh h) as [Ho Hc]. rewrite Ho, Hc. apply Hbal.
Qed.

(** X13.  A path returned by [create_video] is the path of a video the
    encoder was asked to write and wrote without raising: the call was
    made once, no [ERROR] record was logged, both clips were opened and
    closed, and the audio duration was non-zero and at most
    [MAX_VIDEO_LENGTH + DURATION_TOLERANCE]. *)
Theorem create_video_success_is_sound
    (settings : Settings) (env : Env) (image_path audio_path : string)
    (config : option KenBurnsConfig) (k : Rng) (p : string)
    (Hsuccess :
       outcome (create_video settings env image_path audio_path config k)
       = Ok (Some p)) :
  let run := create_video settings env image_path audio_path config k in
  p = output_path_of settings env /\
  write_error env p = None /\
  In (EvWriteVideo p) (events run) /\
  writes (events run) = 1%nat /\
  filter is_error_log (events run) = [] /\
  (forall h, opens h (events run) = 1%nat /\ closes h (events run) = 1%nat) /\
  exists d,
    AudioFileClip_new env audio_path = inr (Some d) /\ ~ d == 0 /\
    d <= inject_Z (MAX_VIDEO_LENGTH settings) + DURATION_TOLERANCE settings.
Proof.
  cbv zeta. revert Hsuccess. rewrite create_video_run. cbv zeta.
  destruct (create_video_try_cases settings env image_path audio_path config k)
    as [[msg H]|[[img_size [e [opened [H Ho]]]]|[img_size [size [d [Ha [Hd H]]]]]]];
    cbv zeta in H; rewrite H; cbn [outcome events final fst snd];
    try discriminate.
  destruct (create_video_with_shape settings env config
              (LoadedImage image_path size)
              (mkAudioFileClip audio_path (Some d)) k)
    as [pre [tail [Hev [Hpre Htail]]]].
  cbv zeta in Hev, Htail. rewrite Hev.
  destruct (outcome (create_video_with settings env config _ _ k)) as [r|e];
    [|discriminate].
  cbn [outcome events final fst snd].
  intro Hr. injection Hr as ->.
  destruct Htail as [Hp [-> [Hwrite [d' [Hd' [Hnz Hbound]]]]]].
  injection Hp as ->. cbn [audio_duration] in Hd'. injection Hd' as <-.
  destruct (quiet_counts pre Hpre) as [Hwpre [Hepre Hhpre]].
  destruct (close_events_counts env HImage HImage) as [HoII HcII].
  destruct (close_events_counts env HImage HAudio) as [HoIA HcIA].
  destruct (close_events_counts env HAudio HImage) as [HoAI HcAI].
  destruct (close_events_counts env HAudio HAudio) as [HoAA HcAA].
  destruct (close_events_writes env HImage) as [HwI HeI].
  destruct (close_events_writes env HAudio) as [HwA HeA].
  cbn [is_close] in HcII, HcIA, HcAI, HcAA.
  split; [reflexivity|]. split; [exact Hwrite|].
  split.
  { apply in_or_app. right. apply in_or_app. left.
    apply in_or_app. right. left. reflexivity. }
  split.
  { rewrite !writes_app, Hwpre, HwI, HwA. reflexivity. }
  split.
  { rewrite !filter_app, Hepre, HeI, HeA. reflexivity. }
  split.
  { intro h. rewrite !opens_app, !closes_app.
    destruct (Hhpre h) as [Hop Hcp]. rewrite Hop, Hcp.
    destruct h;
      rewrite ?HoII, ?HcII, ?HoIA, ?HcIA, ?HoAI, ?HcAI, ?HoAA, ?HcAA;
      split; reflexivity. }
  exists d. auto.
Qed.

Lemma create_video_success_is_sound_witness :
  write_error quiet_env "output/generated_video_1700000000.mp4" = None /\
  writes (events (create_video default_Settings quiet_env "image.png"
                    "voice.mp3" None 0%nat)) = 1%nat.
Proof.
  destruct (create_video_success_is_sound default_Settings quiet_env
              "image.png" "voice.mp3" None 0%nat
              "output/generated_video_1700000000.mp4" eq_refl)
    as [_ [Hw [_ [Hone _]]]].
  split; [exact Hw | exact Hone].
Defined.

(** X14.  What the two [close()] calls do cannot change the result of
    [create_video]: with any other answers to [close()], the value
    returned and the state of the generator are the same, and so are the
    number of encoder calls and of [ERROR] records. *)
Theorem create_video_result_independent_of_close
    (settings : Settings) (env : Env) (answers : Handle -> option LibError)
    (image_path audio_path : string) (config : option KenBurnsConfig)
    (k : Rng) :
  let run := create_video settings env image_path audio_path config k in
  let run' :=
    create_video settings (with_close_error env answers)
      image_path audio_path config k in
  outcome run' = outcome run /\
  final run' = final run /\
  writes (events run') = writes (events run) /\
  filter is_error_log (events run') = filter is_error_log (events run).
Proof.
  cbv zeta. rewrite !create_video_run. cbv zeta.
  unfold create_video_try, bind.
  change (_validate_inputs (with_close_error env answers))
    with (_validate_inputs env).
  destruct (_validate_inputs env image_path audio_path k) as [[rv lv] kv].
  destruct rv as [[]|ev]; [|repeat split].
  rewrite !manage_clips_run. cbv zeta.
  change (@_manage_clips_try (with_close_error env answers) (option string))
    with (@_manage_clips_try env (option string)).
  change (create_video_with settings (with_close_error env answers))
    with (create_video_with settings env).
  destruct (_manage_clips_try env image_path audio_path
              (create_video_with settings env config) (no_clips, kv))
    as [[r l] [fr k']].
  cbn [outcome events final fst snd].
  destruct (close_events_writes env HImage) as [HwI HeI].
  destruct (close_events_writes env HAudio) as [HwA HeA].
  destruct (close_events_writes (with_close_error env answers) HImage)
    as [HwI' HeI'].
  destruct (close_events_writes (with_close_error env answers) HAudio)
    as [HwA' HeA'].
  destruct (image_clip fr), (audio_clip fr), r as [res|exc];
    cbn [outcome events final fst snd];
    (split; [reflexivity|]; split; [reflexivity|]; split;
     [ rewrite !writes_app, ?HwI, ?HwA, ?HwI', ?HwA'; reflexivity
     | rewrite !filter_app, ?HeI, ?HeA, ?HeI', ?HeA'; reflexivity ]).
Qed.

(* ------------------------------------------------------------------ *)
(** ** The story generator: requests and retries *)

Lemma ollama_posts_app (l1 l2 : list Action) :
  ollama_posts (l1 ++ l2) = (ollama_posts l1 + ollama_posts l2)%nat.
Proof. unfold ollama_posts. rewrite filter_app, length_app. reflexivity. Qed.

Section Retries.
Variable env : AppEnv.
Variable self : StoryGenerator.
Variable prompt : string.

Let max_retries : Z := MAX_RETRIES (sg_settings self).
Let the_post : Action := OllamaPost (sg_endpoint self) "deepseek-r1:32b" prompt.

Lemma retry_actions_S (n : nat) :
  retry_actions self prompt (S n)
  = [the_post; Sleep (RETRY_DELAY (sg_settings self))]
    ++ retry_actions self prompt n.
Proof. reflexivity. Qed.

Lemma ollama_posts_retry (n : nat) :
  ollama_posts (retry_actions self prompt n) = n.
Proof.
  induction n as [|n IH]; [reflexivity|].
  rewrite retry_actions_S, ollama_posts_app, IH. reflexivity.
Qed.

(** One call of [_make_request], by the answer to its request. *)
Lemma make_request_from_step (depth : nat) (retries : Z) (w : World) :
  _make_request_from env depth self prompt retries w =
  let w1 := {| w_rng := w_rng w; w_done := w_done w ++ [the_post] |} in
  match story_answer env self prompt (ollama_posts (w_done w)) with
  | Responded body => (Ok (Some body), [], w1)
  | OtherFailure e => (Raise (LibraryError e), [], w1)
  | RequestFailed e =>
      if (retries <? max_retries)%Z
      then
        let w2 :=
          {| w_rng := w_rng w;
             w_done := w_done w
                       ++ [the_post; Sleep (RETRY_DELAY (sg_settings self))] |} in
        let warning :=
          EvLog WARNING
            (Text ("Ollama request failed, retrying... ("
                   ++ str_int (retries + 1) ++ "/"
                   ++ str_int max_retries ++ ")")%string) in
        match sleep_raises env (RETRY_DELAY (sg_settings self)) with
        | Some e' => (Raise e', [warning], w1)
        | None =>
            match depth with
            | S depth' =>
                let next :=
                  _make_request_from env depth' self prompt (retries + 1) w2 in
                (outcome next, warning :: events next, final next)
            | O =>
                (Raise (LibraryError
                          (mkLibError "RecursionError"
                             "maximum recursion depth exceeded")),
                 [warning], w2)
            end
        end
      else
        (Ok None,
         [EvLog ERROR
            (Text ("Failed to generate story after "
                   ++ str_int max_retries ++ " retries: "
                   ++ err_text e)%string)],
         w1)
  end.
Proof.
  destruct depth as [|depth']; cbn [_make_request_from];
    unfold story_answer, max_retries, the_post, time_sleep;
    cbv [bind post_to_ollama]; cbn [w_rng w_done];
    destruct (ollama_post env _ _ _ _) as [e|e|body]; try reflexivity;
    destruct (retries <? MAX_RETRIES (sg_settings self))%Z; try reflexivity;
    destruct (sleep_raises env (RETRY_DELAY (sg_settings self))) as [e'|];
    try reflexivity.
  - cbv [log emit act raise ret]. cbn [w_rng w_done app].
    rewrite <- app_assoc. reflexivity.
  - cbv [log emit act]. cbn [w_rng w_done app].
    rewrite <- app_assoc. cbn [app].
    destruct (_make_request_from env depth' self prompt (retries + 1) _)
      as [[r l] w']. reflexivity.
Qed.

(** Every run of [_make_request]: [n] failed attempts, each followed by
    a sleep, then one last request whose answer decides the outcome.
    The recursion never exceeds the depth it was given. *)
Lemma make_request_from_shape (depth : nat) (retries : Z) (w : World) :
  sleep_raises env (RETRY_DELAY (sg_settings self)) = None ->
  depth = Z.to_nat (max_retries - retries) ->
  let run := _make_request_from env depth self prompt retries w in
  let first := ollama_posts (w_done w) in
  exists n,
    (n <= depth)%nat /\
    w_done (final run) = w_done w ++ retry_actions self prompt n ++ [the_post] /\
    w_rng (final run) = w_rng w /\
    List.length (events run)
    = (n + match outcome run with Ok None => 1 | _ => 0 end)%nat /\
    (forall i, (i < n)%nat ->
       exists e, story_answer env self prompt (first + i) = RequestFailed e) /\
    match story_answer env self prompt (first + n) with
    | Responded body => outcome run = Ok (Some body)
    | OtherFailure e => outcome run = Raise (LibraryError e)
    | RequestFailed e => outcome run = Ok None /\ n = depth
    end.
Proof.
  intro Hsleep. revert retries w.
  induction depth as [|depth' IH]; intros retries w Hdepth;
    cbv zeta; rewrite make_request_from_step; cbv zeta; rewrite Hsleep.
  - assert (Hlt : (retries <? max_retries)%Z = false)
      by (apply Z.ltb_ge; lia).
    rewrite Hlt. exists 0%nat. rewrite (Nat.add_0_r (ollama_posts (w_done w))).
    destruct (story_answer env self prompt (ollama_posts (w_done w)))
      as [e|e|body] eqn:E; cbn [outcome events final fst snd w_done w_rng];
      (split; [lia|]); (split; [reflexivity|]); (split; [reflexivity|]);
      (split; [reflexivity|]); (split; [intros i Hi; lia|]); auto.
  - destruct (story_answer env self prompt (ollama_posts (w_done w)))
      as [e|e|body] eqn:E.
    + assert (Hlt : (retries <? max_retries)%Z = true)
        by (apply Z.ltb_lt; lia).
      rewrite Hlt.
      specialize (IH (retries + 1)%Z
                    {| w_rng := w_rng w;
                       w_done := w_done w
                                 ++ [the_post;
                                     Sleep (RETRY_DELAY (sg_settings self))] |}).
      cbv zeta in IH. cbn [w_done w_rng] in IH.
      destruct IH as [n [Hn [Hdone [Hrng [Hlen [Hfail Hlast]]]]]]; [lia|].
      assert (Hposts :
                ollama_posts
                  (w_done w ++ [the_post; Sleep (RETRY_DELAY (sg_settings self))])
                = S (ollama_posts (w_done w))).
      { rewrite ollama_posts_app. unfold the_post. cbn. lia. }
      rewrite Hposts in Hfail, Hlast.
      exists (S n). cbn [outcome events final fst snd].
      split; [lia|]. split.
      { rewrite Hdone, retry_actions_S, <- !app_assoc. reflexivity. }
      split; [exact Hrng|]. split.
      { cbn [List.length]. rewrite Hlen.
        destruct (outcome _) as [[body|]|ex]; lia. }
      split.
      { intros i Hi. destruct i as [|i].
        - rewrite Nat.add_0_r. exists e. exact E.
        - destruct (Hfail i) as [e' He']; [lia|].
          exists e'. rewrite <- He'. f_equal. lia. }
      replace (ollama_posts (w_done w) + S n)%nat
        with (S (ollama_posts (w_done w)) + n)%nat by lia.
      destruct (story_answer env self prompt (S (ollama_posts (w_done w)) + n))
        as [e'|e'|body']; try exact Hlast.
      destruct Hlast as [Hout ->]. split; [exact Hout | reflexivity].
    + exists 0%nat. rewrite (Nat.add_0_r (ollama_posts (w_done w))), E.
      cbn [outcome events final fst snd w_done w_rng].
      split; [lia|]. split; [reflexivity|]. split; [reflexivity|].
      split; [reflexivity|]. split; [intros i Hi; lia | reflexivity].
    + exists 0%nat. rewrite (Nat.add_0_r (ollama_posts (w_done w))), E.
      cbn [outcome events final fst snd w_done w_rng].
      split; [lia|]. split; [reflexivity|]. split; [reflexivity|].
      split; [reflexivity|]. split; [intros i Hi; lia | reflexivity].
Qed.
End Retries.

Lemma sleep_raises_none (env : AppEnv) (seconds : Z) :
  (0 <= seconds)%Z -> sleep_error env seconds = None ->
  sleep_raises env seconds = None.
Proof.
  intros H0 Herr. unfold sleep_raises.
  apply Z.ltb_ge in H0. rewrite H0, Herr. reflexivity.
Qed.

(** X15.  [_make_request(prompt)] sends its requests to the fixed local
    endpoint and model, whatever [OLLAMA_ENDPOINT] and [OLLAMA_MODEL] say,
    and retries only on a [RequestException].  When [RETRY_DELAY] is not
    negative and [time.sleep] does not raise on it, a run is [n] failed
    requests, each followed by one sleep of [RETRY_DELAY] seconds, then one
    last request, with [n] at most [MAX_RETRIES].  The answer to the last
    request decides: a response is returned, another exception is raised,
    and a [RequestException] gives [None], which happens only when all
    [MAX_RETRIES] retries are used up. *)
Theorem make_request_retries_then_decides
    (env : AppEnv) (settings : AppSettings) (prompt : string) (w : World)
    (Hdelay : (0 <= RETRY_DELAY settings)%Z)
    (Hsleep : sleep_error env (RETRY_DELAY settings) = None) :
  let self := StoryGenerator_new settings in
  let run := _make_request env self prompt 0 w in
  let first := ollama_posts (w_done w) in
  let post := OllamaPost "http://localhost:11434/api/generate"
                "deepseek-r1:32b" prompt in
  exists n,
    (n <= Z.to_nat (MAX_RETRIES settings))%nat /\
    w_done (final run)
    = w_done w
      ++ List.concat (repeat [post; Sleep (RETRY_DELAY settings)] n)
      ++ [post] /\
    (forall i, (i < n)%nat ->
       exists e, story_answer env self prompt (first + i) = RequestFailed e) /\
    match story_answer env self prompt (first + n) with
    | Responded body => outcome run = Ok (Some body)
    | OtherFailure e => outcome run = Raise (LibraryError e)
    | RequestFailed e =>
        outcome run = Ok None /\ n = Z.to_nat (MAX_RETRIES settings)
    end.
Proof.
  cbv zeta. unfold _make_request.
  destruct (make_request_from_shape env (StoryGenerator_new settings) prompt
              (Z.to_nat (MAX_RETRIES (sg_settings (StoryGenerator_new settings)) - 0))
              0 w (sleep_raises_none env _ Hdelay Hsleep) eq_refl)
    as [n [Hn [Hdone [_ [_ [Hfail Hlast]]]]]].
  rewrite Z.sub_0_r in *. cbn [sg_settings StoryGenerator_new] in *.
  exists n. split; [exact Hn|]. split; [exact Hdone|].
  split; [exact Hfail | exact Hlast].
Qed.

Lemma make_request_retries_then_decides_witness :
  exists n,
    (n <= 3)%nat /\
    w_done (final (_make_request flaky_ollama
                     (StoryGenerator_new (Settings_defaults (fun _ => None)))
                     "tell me a story" 0 {| w_rng := 0%nat; w_done := [] |}))
    = List.concat
        (repeat [OllamaPost "http://localhost:11434/api/generate"
                   "deepseek-r1:32b" "tell me a story"; Sleep 5] n)
      ++ [OllamaPost "http://localhost:11434/api/generate"
            "deepseek-r1:32b" "tell me a story"].
Proof.
  assert (Hdelay : (0 <= 5)%Z) by discriminate.
  destruct (make_request_retries_then_decides flaky_ollama
              (Settings_defaults (fun _ => None)) "tell me a story"
              {| w_rng := 0%nat; w_done := [] |} Hdelay eq_refl)
    as [n [Hn [Hdone _]]].
  exists n. split; [exact Hn | exact Hdone].
Defined.

(** X16.  When every one of the first [MAX_RETRIES + 1] requests fails
    with a [RequestException], [RETRY_DELAY] is not negative and
    [time.sleep] does not raise on it, [_make_request(prompt)] gives up:
    it has sent exactly [MAX_RETRIES + 1] requests, slept [MAX_RETRIES]
    times for [RETRY_DELAY] seconds, logged one warning per retry and one
    final error, and it returns [None] without raising. *)
Theorem make_request_gives_up
    (env : AppEnv) (self : StoryGenerator) (prompt : string) (w : World)
    (Hmax : (0 <= MAX_RETRIES (sg_settings self))%Z)
    (Hdelay : (0 <= RETRY_DELAY (sg_settings self))%Z)
    (Hsleep : sleep_error env (RETRY_DELAY (sg_settings self)) = None)
    (Hfail : forall i, (i <= Z.to_nat (MAX_RETRIES (sg_settings self)))%nat ->
       exists e,
         story_answer env self prompt (ollama_posts (w_done w) + i)
         = RequestFailed e) :
  let run := _make_request env self prompt 0 w in
  let n := Z.to_nat (MAX_RETRIES (sg_settings self)) in
  outcome run = Ok None /\
  w_done (final run)
  = w_done w ++ retry_actions self prompt n
    ++ [OllamaPost (sg_endpoint self) "deepseek-r1:32b" prompt] /\
  ollama_posts (w_done (final run)) = (ollama_posts (w_done w) + n + 1)%nat /\
  List.length (events run) = (n + 1)%nat.
Proof.
  cbv zeta. unfold _make_request.
  destruct (make_request_from_shape env self prompt
              (Z.to_nat (MAX_RETRIES (sg_settings self) - 0)) 0 w
              (sleep_raises_none env _ Hdelay Hsleep) eq_refl)
    as [n [Hn [Hdone [_ [Hlen [_ Hlast]]]]]].
  rewrite Z.sub_0_r in *.
  destruct (Hfail n Hn) as [e He]. rewrite He in Hlast.
  destruct Hlast as [Hout ->].
  rewrite Hout in Hlen.
  split; [exact Hout|]. split; [exact Hdone|]. split; [|exact Hlen].
  rewrite Hdone, !ollama_posts_app, ollama_posts_retry. cbn. lia.
Qed.

Lemma make_request_gives_up_witness :
  outcome (_make_request dead_ollama
             (StoryGenerator_new (Settings_defaults (fun _ => None)))
             "tell me a story" 0 {| w_rng := 0%nat; w_done := [] |})
  = Ok None /\
  ollama_posts
    (w_done (final (_make_request dead_ollama
                      (StoryGenerator_new (Settings_defaults (fun _ => None)))
                      "tell me a story" 0 {| w_rng := 0%nat; w_done := [] |})))
  = 4%nat.
Proof.
  assert (Hmax : (0 <= 3)%Z) by discriminate.
  assert (Hdelay : (0 <= 5)%Z) by discriminate.
  destruct (make_request_gives_up dead_ollama
              (StoryGenerator_new (Settings_defaults (fun _ => None)))
              "tell me a story" {| w_rng := 0%nat; w_done := [] |} Hmax
              Hdelay eq_refl)
    as [Hout [_ [Hposts _]]].
  - intros i _. eexists. reflexivity.
  - split; [exact Hout | exact Hposts].
Defined.

(** X30.  A negative [RETRY_DELAY] turns the first retry into an error:
    when the first request fails with a [RequestException] and a retry is
    allowed, [time.sleep] raises [ValueError] inside the handler, and
    [_make_request] lets it out after the one request and the one warning,
    without sleeping and without a second request. *)
Theorem make_request_negative_delay_raises
    (env : AppEnv) (self : StoryGenerator) (prompt : string) (w : World)
    (e : LibError)
    (Hdelay : (RETRY_DELAY (sg_settings self) < 0)%Z)
    (Hmax : (0 < MAX_RETRIES (sg_settings self))%Z)
    (Hfail : story_answer env self prompt (ollama_posts (w_done w))
             = RequestFailed e) :
  _make_request env self prompt 0 w
  = (Raise (ValueError "sleep length must be non-negative"),
     [EvLog WARNING
        (Text ("Ollama request failed, retrying... (1/"
               ++ str_int (MAX_RETRIES (sg_settings self)) ++ ")"))],
     {| w_rng := w_rng w;
        w_done := w_done w
                  ++ [OllamaPost (sg_endpoint self) "deepseek-r1:32b" prompt] |}).
Proof.
  unfold _make_request. rewrite make_request_from_step. cbv zeta.
  rewrite Hfail.
  assert (Hlt : (0 <? MAX_RETRIES (sg_settings self))%Z = true)
    by (apply Z.ltb_lt; exact Hmax).
  rewrite Hlt. unfold sleep_raises.
  assert (Hneg : (RETRY_DELAY (sg_settings self) <? 0)%Z = true)
    by (apply Z.ltb_lt; exact Hdelay).
  rewrite Hneg. reflexivity.
Qed.

Lemma make_request_negative_delay_raises_witness :
  outcome (_make_request dead_ollama (StoryGenerator_new hasty_settings)
             "tell me a story" 0 {| w_rng := 0%nat; w_done := [] |})
  = Raise (ValueError "sleep length must be non-negative").
Proof.
  rewrite (make_request_negative_delay_raises dead_ollama
             (StoryGenerator_new hasty_settings) "tell me a story"
             {| w_rng := 0%nat; w_done := [] |} HTTP_503
             eq_refl eq_refl eq_refl).
  reflexivity.
Defined.

(* ------------------------------------------------------------------ *)
(** ** The story, image and audio generators *)

Ltac run_world :=
  cbv [bind ret raise emit log act try_except lib_call lib_action
       outcome events final];
  cbn [fst snd app w_rng w_done].

Lemma nonempty_true (s : string) : nonempty s = true <-> s <> ""%string.
Proof.
  unfold nonempty. rewrite negb_true_iff. apply String.eqb_neq.
Qed.

(** X17.  [generate_story] returns the cleaned text of the first answer
    of Ollama, and saves it first; a failure to save it with an [IOError]
    is logged and changes nothing else.  An empty answer is a failure:
    [None], with nothing saved. *)
Theorem generate_story_returns_cleaned_answer
    (env : AppEnv) (settings : AppSettings) (w : World) (raw : string)
    (Hanswer :
       story_answer env (StoryGenerator_new settings) story_prompt
         (ollama_posts (w_done w)) = Responded raw) :
  let self := StoryGenerator_new settings in
  let run := generate_story env self w in
  let post := OllamaPost "http://localhost:11434/api/generate"
                "deepseek-r1:32b" story_prompt in
  let file :=
    path_join (OUTPUT_DIR (video_settings settings)) "generated_story.txt" in
  (raw = ""%string ->
     run = (Ok None, [EvLog ERROR (Text "Failed to generate story")],
            {| w_rng := w_rng w; w_done := w_done w ++ [post] |})) /\
  (raw <> ""%string ->
     final run
     = {| w_rng := w_rng w;
          w_done := w_done w ++ [post; SaveText file (_clean_story raw)] |} /\
     match story_save env file (_clean_story raw) with
     | Saved | SaveIOError _ => outcome run = Ok (Some (_clean_story raw))
     | SaveOtherError e => outcome run = Raise (LibraryError e)
     end).
Proof.
  cbv zeta.
  assert (Hrequest :
            _make_request env (StoryGenerator_new settings) story_prompt 0 w
            = (Ok (Some raw), [],
               {| w_rng := w_rng w;
                  w_done := w_done w
                            ++ [OllamaPost "http://localhost:11434/api/generate"
                                  "deepseek-r1:32b" story_prompt] |})).
  { unfold _make_request. rewrite make_request_from_step. cbv zeta.
    rewrite Hanswer. reflexivity. }
  unfold generate_story, bind. rewrite Hrequest.
  split.
  - intros ->. reflexivity.
  - intro Hraw. apply nonempty_true in Hraw. rewrite Hraw.
    unfold save_story. cbn [sg_story_file StoryGenerator_new].
    destruct (story_save env _ (_clean_story raw)); run_world;
      rewrite <- app_assoc; split; reflexivity.
Qed.

Lemma generate_story_returns_cleaned_answer_witness :
  outcome (generate_story chatty_ollama
             (StoryGenerator_new (Settings_defaults (fun _ => None)))
             {| w_rng := 0%nat; w_done := [] |})
  = Ok (Some "A dark tale."%string).
Proof.
  destruct (generate_story_returns_cleaned_answer chatty_ollama
              (Settings_defaults (fun _ => None))
              {| w_rng := 0%nat; w_done := [] |}
              "<think>plan</think> A  dark  tale." eq_refl) as [_ H].
  destruct H as [_ H]; [discriminate | exact H].
Defined.

Lemma string_length_append (s t : string) :
  String.length (s ++ t) = (String.length s + String.length t)%nat.
Proof. induction s as [|c s IH]; cbn; [reflexivity | rewrite IH; reflexivity]. Qed.

Lemma substring_0_length (n : nat) (s : string) :
  String.length (substring 0 n s) = Nat.min n (String.length s).
Proof.
  revert s. induction n as [|n IH]; intro s.
  - destruct s; reflexivity.
  - destruct s as [|c s]; cbn; [reflexivity | rewrite IH; reflexivity].
Qed.

Lemma substring_0_append (n : nat) (s t : string) :
  (n <= String.length s)%nat -> substring 0 n (s ++ t) = substring 0 n s.
Proof.
  revert s. induction n as [|n IH]; intros s Hn.
  - destruct s; destruct t; reflexivity.
  - destruct s as [|c s]; cbn in Hn |- *; [lia|].
    rewrite IH by lia. reflexivity.
Qed.

(** X18.  The image prompt takes at most the first 200 characters of the
    story: its length is 302 plus the length of the story, capped at 200,
    and whatever follows the first 200 characters of a story does not
    change it. *)
Theorem image_prompt_uses_first_200_characters (story extra : string) :
  String.length (_generate_image_prompt story)
  = (302 + Nat.min 200 (String.length story))%nat /\
  ((200 <= String.length story)%nat ->
   _generate_image_prompt (story ++ extra) = _generate_image_prompt story).
Proof.
  unfold _generate_image_prompt. cbv zeta. split.
  - rewrite !string_length_append, substring_0_length.
    remember (Nat.min 200 (String.length story)) as m eqn:Hm. clear Hm.
    cbn [String.length]. lia.
  - intro Hlen. rewrite substring_0_append by exact Hlen. reflexivity.
Qed.

Section Audio.
Variable env : AppEnv.
Variable self : TTSGenerator.

Let adjusted_path : string :=
  path_join (TEMP_DIR (tts_settings self)) "narration_adjusted.mp3".

Let failure (e : LibError) : list Event :=
  [EvLog ERROR (Text ("Failed to adjust audio speed: " ++ err_text e)%string)].

Let did (w : World) (l : list Action) : World :=
  {| w_rng := w_rng w; w_done := w_done w ++ l |}.

(** [_adjust_audio_speed], answer by answer. *)
Lemma adjust_audio_speed_run (audio_path : string) (target : Z) (w : World) :
  _adjust_audio_speed env self audio_path target w =
  match from_mp3 env audio_path with
  | inl e => (Ok None, failure e, did w [LoadMp3 audio_path])
  | inr len_audio =>
      let current := inject_Z len_audio / 1000 in
      if Qltb (inject_Z target) current
      then
        if (target =? 0)%Z
        then (Ok None,
              failure (mkLibError "ZeroDivisionError" "float division by zero"),
              did w [LoadMp3 audio_path])
        else
          let factor := current / inject_Z target in
          match speedup_error env factor with
          | Some e =>
              (Ok None, failure e, did w [LoadMp3 audio_path; Speedup factor])
          | None =>
              match export_error env adjusted_path with
              | Some e =>
                  (Ok None, failure e,
                   did w [LoadMp3 audio_path; Speedup factor;
                          ExportMp3 adjusted_path])
              | None =>
                  (Ok (Some adjusted_path),
                   [EvLog INFO (Text "Audio adjusted")],
                   did w [LoadMp3 audio_path; Speedup factor;
                          ExportMp3 adjusted_path])
              end
          end
      else (Ok (Some audio_path), [], did w [LoadMp3 audio_path])
  end.
Proof.
  unfold _adjust_audio_speed, float_div, failure, did, adjusted_path.
  run_world.
  destruct (from_mp3 env audio_path) as [e|len_audio]; run_world;
    [reflexivity|].
  destruct (Qltb _ _); [|reflexivity].
  destruct (target =? 0)%Z; run_world; [reflexivity|].
  destruct (speedup_error env _); run_world;
    [rewrite <- app_assoc; reflexivity|].
  destruct (export_error env _); run_world;
    rewrite <- !app_assoc; reflexivity.
Qed.
End Audio.

Lemma milliseconds_fit (len_audio target : Z) :
  inject_Z len_audio / 1000 <= inject_Z target <-> (len_audio <= 1000 * target)%Z.
Proof.
  rewrite Zle_Qle, inject_Z_mult.
  change (inject_Z 1000) with 1000.
  assert (H : inject_Z len_audio / 1000 == inject_Z len_audio * (1 # 1000))
    by reflexivity.
  rewrite H. split; intro; lra.
Qed.

(** X19.  [_adjust_audio_speed] never raises, and it leaves alone audio
    that already fits: when the file is at most [1000 * target_duration]
    milliseconds long, the path given is returned and nothing is sped up
    or exported. *)
Theorem adjust_audio_speed_leaves_fitting_audio
    (env : AppEnv) (self : TTSGenerator) (audio_path : string)
    (target : Z) (w : World) :
  let run := _adjust_audio_speed env self audio_path target w in
  (exists r, outcome run = Ok r) /\
  (forall len_audio,
     from_mp3 env audio_path = inr len_audio ->
     (len_audio <= 1000 * target)%Z ->
     run = (Ok (Some audio_path), [],
            {| w_rng := w_rng w; w_done := w_done w ++ [LoadMp3 audio_path] |})).
Proof.
  cbv zeta. rewrite adjust_audio_speed_run. split.
  - destruct (from_mp3 env audio_path) as [e|len_audio]; [eexists; reflexivity|].
    cbv zeta. destruct (Qltb _ _); [|eexists; reflexivity].
    destruct (target =? 0)%Z; [eexists; reflexivity|].
    destruct (speedup_error env _); [eexists; reflexivity|].
    destruct (export_error env _); eexists; reflexivity.
  - intros len_audio Hlen Hfit. rewrite Hlen. cbv zeta.
    apply milliseconds_fit in Hfit. apply Qltb_ge in Hfit. rewrite Hfit.
    reflexivity.
Qed.

(** X20.  [_adjust_audio_speed] only ever speeds audio up.  For a positive
    target and a file longer than it, the playback speed asked for is
    [len(audio) / 1000 / target_duration], which is greater than one, and
    the adjusted path is returned exactly when neither the speed-up nor
    the export raises.  For a target of zero and a file that is not empty,
    the division by zero is caught: [None], with nothing sped up. *)
Theorem adjust_audio_speed_only_speeds_up
    (env : AppEnv) (self : TTSGenerator) (audio_path : string)
    (target len_audio : Z) (w : World)
    (Hlen : from_mp3 env audio_path = inr len_audio)
    (Hlong : (1000 * target < len_audio)%Z) :
  let run := _adjust_audio_speed env self audio_path target w in
  let factor := inject_Z len_audio / 1000 / inject_Z target in
  let adjusted :=
    path_join (TEMP_DIR (tts_settings self)) "narration_adjusted.mp3" in
  (target = 0%Z ->
     outcome run = Ok None /\
     w_done (final run) = w_done w ++ [LoadMp3 audio_path]) /\
  ((0 < target)%Z ->
     1 < factor /\
     exists rest,
       w_done (final run)
       = w_done w ++ [LoadMp3 audio_path; Speedup factor] ++ rest /\
       outcome run
       = match speedup_error env factor, export_error env adjusted with
         | None, None => Ok (Some adjusted)
         | _, _ => Ok None
         end).
Proof.
  cbv zeta. rewrite adjust_audio_speed_run, Hlen. cbv zeta.
  assert (Hlt : Qltb (inject_Z target) (inject_Z len_audio / 1000) = true).
  { apply Qltb_lt. apply Qnot_le_lt. intro Hle.
    apply milliseconds_fit in Hle. lia. }
  rewrite Hlt. split.
  - intros ->. cbn [Z.eqb]. split; reflexivity.
  - intro Hpos.
    assert (Hnz : (target =? 0)%Z = false) by (apply Z.eqb_neq; lia).
    rewrite Hnz. split.
    + apply Qltb_lt in Hlt.
      assert (Qt : 0 < inject_Z target) by (apply inject_Z_pos; exact Hpos).
      assert (Hinv : 0 < / inject_Z target)
        by (apply Qinv_lt_0_compat; exact Qt).
      assert (Hone : inject_Z target * / inject_Z target == 1)
        by (field; lra).
      unfold Qdiv at 1.
      set (c := inject_Z len_audio / 1000) in *.
      set (t := inject_Z target) in *. nra.
    + destruct (speedup_error env _).
      * exists []. split; reflexivity.
      * destruct (export_error env _);
          eexists; split; reflexivity.
Qed.

Lemma adjust_audio_speed_only_speeds_up_witness :
  1 < inject_Z 200000 / 1000 / inject_Z 180.
Proof.
  exact (proj1 (proj2 (adjust_audio_speed_only_speeds_up long_speech
                         {| tts_settings := Settings_defaults (fun _ => None);
                            speech_synthesis_voice_name := "en-US-JasonNeural" |}
                         "temp/narration.mp3" 180 200000
                         {| w_rng := 0%nat; w_done := [] |} eq_refl eq_refl)
                  eq_refl)).
Defined.

(** X21.  [generate_audio] never raises, and a path it returns is either
    the synthesized [narration.mp3], when that file lasts at most
    [MAX_VIDEO_LENGTH] seconds, or the sped-up [narration_adjusted.mp3],
    when it lasts longer. *)
Theorem generate_audio_returns_fitting_narration
    (env : AppEnv) (self : TTSGenerator) (text : string) (w : World) :
  let run := generate_audio env self text w in
  let narration := path_join (TEMP_DIR (tts_settings self)) "narration.mp3" in
  let adjusted :=
    path_join (TEMP_DIR (tts_settings self)) "narration_adjusted.mp3" in
  let limit := MAX_VIDEO_LENGTH (video_settings (tts_settings self)) in
  (exists r, outcome run = Ok r) /\
  (forall p, outcome run = Ok (Some p) ->
     exists len_audio,
       from_mp3 env narration = inr len_audio /\
       ((p = narration /\ (len_audio <= 1000 * limit)%Z) \/
        (p = adjusted /\ (1000 * limit < len_audio)%Z /\ limit <> 0%Z))).
Proof.
  cbv zeta. unfold generate_audio.
  set (narration := path_join (TEMP_DIR (tts_settings self)) "narration.mp3").
  set (limit := MAX_VIDEO_LENGTH (video_settings (tts_settings self))).
  match goal with
  | |- context [Synthesize ?s narration] => set (ssml := s)
  end.
  cbv [try_except bind log emit act lib_call]. cbn [w_rng w_done app].
  destruct (speak_ssml env ssml narration) as [e|reason];
    [cbv [raise ret outcome]; cbn [fst];
     split; [eexists; reflexivity | intros p Hp; discriminate Hp]|].
  cbv [ret]. cbv beta iota.
  destruct reason as [|is_error cancel_reason details|name];
    try (cbv [outcome]; cbn [fst];
         split; [eexists; reflexivity | intros p Hp; discriminate Hp]).
  rewrite adjust_audio_speed_run.
  destruct (from_mp3 env narration) as [e|len_audio] eqn:Hlen;
    [cbv [outcome]; cbn [fst truthy_str negb];
     split; [eexists; reflexivity | intros p Hp; discriminate Hp]|].
  cbv zeta.
  destruct (Qltb (inject_Z limit) (inject_Z len_audio / 1000)) eqn:Hcmp.
  - apply Qltb_lt in Hcmp.
    assert (Hlong : (1000 * limit < len_audio)%Z).
    { destruct (Z_lt_le_dec (1000 * limit) len_audio) as [H|H]; [exact H|].
      apply milliseconds_fit in H. lra. }
    destruct (limit =? 0)%Z eqn:Hz;
      [cbv [outcome]; cbn [fst truthy_str negb];
       split; [eexists; reflexivity | intros p Hp; discriminate Hp]|].
    apply Z.eqb_neq in Hz.
    destruct (speedup_error env _);
      [cbv [outcome]; cbn [fst truthy_str negb];
       split; [eexists; reflexivity | intros p Hp; discriminate Hp]|].
    destruct (export_error env _);
      [cbv [outcome]; cbn [fst truthy_str negb];
       split; [eexists; reflexivity | intros p Hp; discriminate Hp]|].
    cbn [truthy_str].
    destruct (nonempty _); cbv [outcome]; cbn [fst negb];
      (split; [eexists; reflexivity|]); intros p Hp;
      [|discriminate Hp].
    injection Hp as <-. exists len_audio. split; [reflexivity|].
    right. split; [reflexivity|]. split; assumption.
  - apply Qltb_ge in Hcmp. apply milliseconds_fit in Hcmp.
    cbn [truthy_str].
    destruct (nonempty narration); cbv [outcome]; cbn [fst negb];
      (split; [eexists; reflexivity|]); intros p Hp;
      [|discriminate Hp].
    injection Hp as <-. exists len_audio. split; [reflexivity|].
    left. split; [reflexivity | exact Hcmp].
Qed.

(* ------------------------------------------------------------------ *)
(** ** The image generator, the speech generator and [main] *)

Lemma override_environ_run (key : string) (value : option string) (w : World) :
  override_environ key value w
  = (Ok tt, [], {| w_rng := w_rng w;
                   w_done := w_done w ++ environ_update key value |}).
Proof.
  unfold override_environ, environ_update.
  destruct value as [v|]; [destruct (nonempty v)|];
    cbv [act ret]; rewrite ?app_nil_r; destruct w; reflexivity.
Qed.

Lemma main_with_run (env : AppEnv) (args : Args) (w : World) :
  main_with env args w =
  let w0 := {| w_rng := w_rng w; w_done := w_done w ++ overrides args |} in
  let attempt := main_try env args w0 in
  match outcome attempt with
  | Ok r => attempt
  | Raise e =>
      (Ok None,
       events attempt
       ++ [EvLog ERROR (Text ("Video generation failed: " ++ str_text e))],
       final attempt)
  end.
Proof.
  unfold main_with, bind. rewrite !override_environ_run. cbn [w_rng w_done].
  unfold overrides. rewrite <- !app_assoc.
  unfold try_except. cbn [app].
  destruct (main_try env args _) as [[[r|e] l] w'];
    cbn [outcome events final fst snd]; [reflexivity|].
  cbv [bind log emit ret]. cbn [app]. reflexivity.
Qed.

(** [main_with] lets no exception out. *)
Lemma main_with_returns (env : AppEnv) (args : Args) (w : World) :
  exists r, outcome (main_with env args w) = Ok r.
Proof.
  rewrite main_with_run. cbv zeta.
  destruct (main_try env args _) as [[[r|e] l] w'];
    cbn [outcome events final fst snd]; eexists; reflexivity.
Qed.

(** [main()], by what [parse_args()] does. *)
Lemma main_run (env : AppEnv) (w : World) :
  main env w =
  match parse_args env with
  | Namespace args =>
      let run := main_with env args w in
      (match outcome run with
       | Ok video_path => Ok (Returned video_path)
       | Raise e => Raise e
       end, events run, final run)
  | SystemExit code => (Ok (Exited code), [], w)
  end.
Proof.
  unfold main. destruct (parse_args env) as [args|code]; [|reflexivity].
  cbv zeta. unfold bind.
  destruct (main_with env args w) as [[[r|e] l] w'];
    cbn [outcome events final fst snd ret]; [|reflexivity].
  rewrite app_nil_r. reflexivity.
Qed.

(** X24.  [main] needs [DALLE_API_KEY] in the environment when the
    settings module is imported: if it is missing or empty there, then
    whatever namespace [parse_args()] returns, [--dalle-key] included,
    [main] returns [None] having done nothing but its assignments to
    [os.environ], and logs that the key is required. *)
Theorem main_ignores_key_of_command_line
    (env : AppEnv) (args : Args) (w : World)
    (Hparsed : parse_args env = Namespace args)
    (Hkey : getenv (import_environ env) "DALLE_API_KEY" "" = "") :
  main env w
  = (Ok (Returned None),
     [EvLog ERROR
        (Text "Video generation failed: DALLE_API_KEY environment variable is required")],
     {| w_rng := w_rng w; w_done := w_done w ++ overrides args |}).
Proof.
  rewrite main_run, Hparsed. cbv zeta. rewrite main_with_run. cbv zeta.
  unfold main_try, bind, Settings_new.
  cbn [DALLE_API_KEY Settings_defaults]. rewrite Hkey.
  reflexivity.
Qed.

Lemma main_ignores_key_of_command_line_witness :
  outcome (main (on_command_line (Namespace all_args) chatty_ollama)
             {| w_rng := 0%nat; w_done := [] |})
  = Ok (Returned None).
Proof.
  rewrite (main_ignores_key_of_command_line
             (on_command_line (Namespace all_args) chatty_ollama) all_args
             {| w_rng := 0%nat; w_done := [] |} eq_refl eq_refl).
  reflexivity.
Defined.

Ltac world_eq :=
  cbn [w_rng w_done app str_text]; rewrite <- ?app_assoc; cbn [app];
  reflexivity.

Section Image.
Variable env : AppEnv.
Variable settings : AppSettings.
Variable story : string.

Let prompt : string := _generate_image_prompt story.
Let key : string := DALLE_API_KEY settings.
Let output_path : string := path_join (TEMP_DIR settings) "generated_image.png".

(** [generate_image], by the first call that fails. *)
Lemma generate_image_run (w : World) :
generate_image env settings story w =
let failed e acts :=
  (Ok None,
   [EvLog ERROR (Text ("Failed to generate image: " ++ err_text e))],
   {| w_rng := w_rng w; w_done := w_done w ++ acts |}) in
match image_post env key prompt with
| inl e => failed e [ImagePost key prompt]
| inr url =>
    match image_get env url with
    | inl e => failed e [ImagePost key prompt; ImageGet url]
    | inr content =>
        match image_decode env content with
        | Some e => failed e [ImagePost key prompt; ImageGet url]
        | None =>
            match image_save env output_path with
            | Some e =>
                failed e [ImagePost key prompt; ImageGet url;
                          ImageSave output_path]
            | None =>
                (Ok (Some output_path),
                 [EvLog INFO
                    (Text ("Successfully generated and saved image to "
                           ++ output_path))],
                 {| w_rng := w_rng w;
                    w_done := w_done w
                              ++ [ImagePost key prompt; ImageGet url;
                                  ImageSave output_path] |})
            end
        end
    end
end.
Proof.
unfold generate_image. fold prompt key output_path. cbv zeta.
cbv [try_except bind act lib_call lib_action log emit ret raise].
cbn [w_rng w_done app].
destruct (image_post env key prompt) as [e|url]; [reflexivity|].
destruct (image_get env url) as [e|content]; [world_eq|].
destruct (image_decode env content) as [e|]; [world_eq|].
destruct (image_save env output_path) as [e|]; world_eq.
Qed.
End Image.

(** X22.  [generate_image] never raises.  It sends one request to the
    image API, with the key of the settings and the prompt built from the
    story, and after it only downloads and saves.  A path it returns is
    [TEMP_DIR/generated_image.png], returned only after the request, the
    download, the decoding and the saving all succeeded. *)
Theorem generate_image_returns_saved_file
    (env : AppEnv) (settings : AppSettings) (story : string) (w : World) :
  let run := generate_image env settings story w in
  let key := DALLE_API_KEY settings in
  let prompt := _generate_image_prompt story in
  let path := path_join (TEMP_DIR settings) "generated_image.png" in
  (exists r, outcome run = Ok r) /\
  (exists rest,
     w_done (final run) = w_done w ++ ImagePost key prompt :: rest /\
     forall a, In a rest -> exists x, a = ImageGet x \/ a = ImageSave x) /\
  (forall p, outcome run = Ok (Some p) ->
     p = path /\
     image_save env path = None /\
     exists url content,
       image_post env key prompt = inr url /\
       image_get env url = inr content /\
       image_decode env content = None /\
       w_done (final run)
       = w_done w ++ [ImagePost key prompt; ImageGet url; ImageSave path]).
Proof.
  cbv zeta. rewrite generate_image_run. cbv zeta.
  destruct (image_post env _ _) as [e|url] eqn:Hpost.
  { cbn [outcome events final fst snd w_done].
    split; [eexists; reflexivity|]. split; [|intros p Hp; discriminate Hp].
    exists []. split; [reflexivity | intros a []]. }
  destruct (image_get env url) as [e|content] eqn:Hget.
  { cbn [outcome events final fst snd w_done].
    split; [eexists; reflexivity|]. split; [|intros p Hp; discriminate Hp].
    exists [ImageGet url]. split; [reflexivity|].
    intros a [<-|[]]. exists url. left. reflexivity. }
  destruct (image_decode env content) as [e|] eqn:Hdecode.
  { cbn [outcome events final fst snd w_done].
    split; [eexists; reflexivity|]. split; [|intros p Hp; discriminate Hp].
    exists [ImageGet url]. split; [reflexivity|].
    intros a [<-|[]]. exists url. left. reflexivity. }
  destruct (image_save env _) as [e|] eqn:Hsave;
    cbn [outcome events final fst snd w_done];
    (split; [eexists; reflexivity|]); split;
    try (intros p Hp; discriminate Hp).
  1,2: eexists [ImageGet url; ImageSave _]; (split; [reflexivity|]);
    intros a [<-|[<-|[]]]; eexists; [left|right]; reflexivity.
  intros p Hp. injection Hp as <-.
  split; [reflexivity|]. split; [reflexivity|].
  exists url, content. auto.
Qed.


Lemma bind_run {S A B : Type} (m : M S A) (k : A -> M S B) (s : S) :
  bind m k s =
  match outcome (m s) with
  | Ok a =>
      let next := k a (final (m s)) in
      (outcome next, events (m s) ++ events next, final next)
  | Raise e => (Raise e, events (m s), final (m s))
  end.
Proof.
  unfold bind. destruct (m s) as [[[a|e] l] s1];
    cbn [outcome events final fst snd]; [|reflexivity].
  destruct (k a s1) as [[r l2] s2]. reflexivity.
Qed.

Lemma run_eta {S A : Type} (x : Result A * list Event * S) :
  (outcome x, events x, final x) = x.
Proof. destruct x as [[r l] s]. reflexivity. Qed.

Lemma ollama_posts_after (w : World) (acts : list Action) :
  forallb (fun a => negb (is_ollama_post a)) acts = true ->
  ollama_posts (w_done (world_after w acts)) = ollama_posts (w_done w).
Proof.
  intro H. unfold world_after. cbn [w_done]. rewrite ollama_posts_app.
  assert (Hz : ollama_posts acts = 0%nat).
  { unfold ollama_posts. induction acts as [|a acts IH]; [reflexivity|].
    cbn [forallb] in H. apply andb_prop in H as [Ha Hacts].
    cbn [filter]. destruct (is_ollama_post a); [discriminate Ha|].
    exact (IH Hacts). }
  rewrite Hz. lia.
Qed.

Section Setup.
Variable env : AppEnv.

Let s0 : AppSettings := Settings_defaults (import_environ env).

(** [Settings()]: a missing key is detected before anything is done. *)
Lemma Settings_new_run (w : World) :
Settings_new env w =
if nonempty (DALLE_API_KEY s0)
then
  match makedirs_error env (TEMP_DIR s0) with
  | Some e => (Raise (LibraryError e), [], world_after w [Makedirs (TEMP_DIR s0)])
  | None =>
      match makedirs_error env (OUTPUT_DIR (video_settings s0)) with
      | Some e =>
          (Raise (LibraryError e), [],
           world_after w [Makedirs (TEMP_DIR s0);
                          Makedirs (OUTPUT_DIR (video_settings s0))])
      | None =>
          (Ok s0, [],
           world_after w [Makedirs (TEMP_DIR s0);
                          Makedirs (OUTPUT_DIR (video_settings s0))])
      end
  end
else (Raise (ValueError "DALLE_API_KEY environment variable is required"),
      [], w).
Proof.
unfold Settings_new. fold s0.
destruct (nonempty (DALLE_API_KEY s0)); cbn [negb]; [|reflexivity].
unfold makedirs, world_after.
cbv [bind act lib_action ret raise]. cbn [w_rng w_done app].
destruct (makedirs_error env (TEMP_DIR s0)); [reflexivity|].
destruct (makedirs_error env (OUTPUT_DIR (video_settings s0)));
  world_eq.
Qed.

(** [TTSGenerator(settings)], answer by answer. *)
Lemma TTSGenerator_new_run (settings : AppSettings) (w : World) :
TTSGenerator_new env settings w =
let key := AZURE_TTS_KEY settings in
let region := AZURE_TTS_REGION settings in
let voice := AZURE_TTS_VOICE settings in
let w1 := world_after w [SpeechInit key region voice] in
let started :=
  EvLog INFO (Text ("Initializing Azure Speech Service in region: " ++ region)) in
let failed text :=
  (Raise (ValueError
            ("Failed to initialize Azure Speech service. Please check your credentials. Error: "
             ++ text)%string),
   [started; EvLog ERROR (Text ("Failed to initialize speech config: " ++ text))],
   w1) in
if nonempty key
then
  match speech_init env key region voice with
  | inl e => failed (err_text e)
  | inr SynthesizingAudioCompleted =>
      (Ok {| tts_settings := settings; speech_synthesis_voice_name := voice |},
       [started;
        EvLog INFO (Text ("Successfully initialized TTS with region: " ++ region))],
       w1)
  | inr (Canceled true _ details) => failed ("Speech service error: " ++ details)%string
  | inr (Canceled false _ _) =>
      failed "Speech synthesis test failed: ResultReason.Canceled"
  | inr (OtherReason name) => failed ("Speech synthesis test failed: " ++ name)%string
  end
else (Raise (ValueError "AZURE_TTS_KEY is required for TTS generation"), [], w).
Proof.
unfold TTSGenerator_new. cbv zeta.
destruct (nonempty (AZURE_TTS_KEY settings)); cbn [negb]; [|reflexivity].
unfold world_after.
cbv [try_except bind log emit act lib_call ret raise].
cbn [w_rng w_done app].
destruct (speech_init env _ _ _) as [e|[|[|] reason details|name]];
  reflexivity.
Qed.
End Setup.


(** X23.  [TTSGenerator(settings)] raises nothing but [ValueError].  With
    an empty [AZURE_TTS_KEY] it raises at once, before the speech service
    is touched.  It returns only if the key is non-empty and the test
    synthesis completed, and then the voice of the generator is
    [AZURE_TTS_VOICE] and no [ERROR] record was logged. *)
Theorem tts_generator_init_raises_only_ValueError
    (env : AppEnv) (settings : AppSettings) (w : World) :
  let run := TTSGenerator_new env settings w in
  (forall e, outcome run = Raise e -> exists text, e = ValueError text) /\
  (AZURE_TTS_KEY settings = ""%string ->
   run = (Raise (ValueError "AZURE_TTS_KEY is required for TTS generation"),
          [], w)) /\
  (forall self, outcome run = Ok self ->
     AZURE_TTS_KEY settings <> ""%string /\
     speech_init env (AZURE_TTS_KEY settings) (AZURE_TTS_REGION settings)
       (AZURE_TTS_VOICE settings) = inr SynthesizingAudioCompleted /\
     self = {| tts_settings := settings;
               speech_synthesis_voice_name := AZURE_TTS_VOICE settings |} /\
     filter is_error_log (events run) = [] /\
     final run
     = world_after w [SpeechInit (AZURE_TTS_KEY settings)
                        (AZURE_TTS_REGION settings) (AZURE_TTS_VOICE settings)]).
Proof.
  cbv zeta. rewrite TTSGenerator_new_run. cbv zeta.
  destruct (nonempty (AZURE_TTS_KEY settings)) eqn:Hkey.
  - apply nonempty_true in Hkey.
    destruct (speech_init env _ _ _) as [e|[|[|] reason details|name]];
      cbn [outcome events final fst snd];
      (split; [intros e' He'; try discriminate He';
               injection He' as <-; eexists; reflexivity|]);
      (split; [intro Hempty; contradiction|]);
      intros self Hself; try discriminate Hself.
    injection Hself as <-. repeat split; try reflexivity. exact Hkey.
  - cbn [outcome events final fst snd].
    split; [intros e' He'; injection He' as <-; eexists; reflexivity|].
    split; [reflexivity|]. intros self Hself. discriminate Hself.
Qed.

Section MainSetup.
Variable env : AppEnv.
Variable args : Args.

Let s0 : AppSettings := Settings_defaults (import_environ env).
Let settings : AppSettings := main_settings env args.

Lemma main_settings_fields :
DALLE_API_KEY settings = DALLE_API_KEY s0 /\
AZURE_TTS_KEY settings = AZURE_TTS_KEY s0 /\
AZURE_TTS_REGION settings = AZURE_TTS_REGION s0 /\
AZURE_TTS_VOICE settings = AZURE_TTS_VOICE s0 /\
TEMP_DIR settings = TEMP_DIR s0 /\
MAX_VIDEO_LENGTH (video_settings settings)
= MAX_VIDEO_LENGTH (video_settings s0).
Proof.
unfold settings, main_settings. fold s0.
destruct (output_dir args) as [dir|]; [destruct (nonempty dir)|];
  cbn; repeat split; reflexivity.
Qed.

(** [main] up to the first stage: either something raises before any
  request is sent to Ollama, or the keys are there, the speech service
  passed its test, and the stages run. *)
Lemma main_try_setup (w : World) :
(exists e l acts,
   main_try env args w = (Raise e, l, world_after w acts) /\
   forallb (fun a => negb (is_ollama_post a)) acts = true) \/
(nonempty (DALLE_API_KEY s0) = true /\
 nonempty (AZURE_TTS_KEY s0) = true /\
 speech_init env (AZURE_TTS_KEY s0) (AZURE_TTS_REGION s0) (AZURE_TTS_VOICE s0)
 = inr SynthesizingAudioCompleted /\
 main_try env args w =
 let stages :=
   main_stages env settings (StoryGenerator_new settings)
     {| tts_settings := settings;
        speech_synthesis_voice_name := AZURE_TTS_VOICE s0 |}
     (world_after w (setup_actions env args)) in
 (outcome stages,
  [EvLog INFO (Text ("Initializing Azure Speech Service in region: "
                     ++ AZURE_TTS_REGION s0));
   EvLog INFO (Text ("Successfully initialized TTS with region: "
                     ++ AZURE_TTS_REGION s0))]
  ++ events stages,
  final stages)).
Proof.
unfold main_try, Settings_new, makedirs.
unfold settings, main_settings, setup_actions. fold s0.
destruct (nonempty (DALLE_API_KEY s0)) eqn:Hkey; cbn [negb].
2:{ left. exists (ValueError "DALLE_API_KEY environment variable is required"),
      [], [].
    split; [|reflexivity]. cbv [bind raise world_after].
    rewrite app_nil_r. destruct w; reflexivity. }
destruct (makedirs_error env (TEMP_DIR s0)) as [e|] eqn:Htemp.
{ left. exists (LibraryError e), [], [Makedirs (TEMP_DIR s0)].
  split; [|reflexivity].
  cbv [bind act lib_action raise world_after]. world_eq. }
destruct (makedirs_error env (OUTPUT_DIR (video_settings s0))) as [e|] eqn:Hout.
{ left. exists (LibraryError e), [],
    [Makedirs (TEMP_DIR s0); Makedirs (OUTPUT_DIR (video_settings s0))].
  split; [|reflexivity].
  cbv [bind act lib_action raise ret world_after]. cbn [w_rng w_done].
  world_eq. }
assert (Hfirst :
          bind (bind (act (Makedirs (TEMP_DIR s0)))
                  (fun _ => lib_action None))
            (fun _ =>
               bind (bind (act (Makedirs (OUTPUT_DIR (video_settings s0))))
                       (fun _ => lib_action None))
                 (fun _ => ret s0)) w
          = (Ok s0, [],
             world_after w [Makedirs (TEMP_DIR s0);
                            Makedirs (OUTPUT_DIR (video_settings s0))])).
{ cbv [bind act lib_action ret world_after]. world_eq. }
rewrite bind_run, Hfirst.
clear Hfirst. cbn [outcome events final fst snd app]. cbv zeta.
set (w1 := world_after w _).
set (tail := fun settings' : AppSettings => bind _ _).
assert (Htts :
          forall (settings' : AppSettings) (acts : list Action),
            AZURE_TTS_KEY settings' = AZURE_TTS_KEY s0 ->
            AZURE_TTS_REGION settings' = AZURE_TTS_REGION s0 ->
            AZURE_TTS_VOICE settings' = AZURE_TTS_VOICE s0 ->
            forallb (fun a => negb (is_ollama_post a)) acts = true ->
            (exists e l acts',
               tail settings' (world_after w acts)
               = (Raise e, l, world_after w acts') /\
               forallb (fun a => negb (is_ollama_post a)) acts' = true) \/
            (nonempty (AZURE_TTS_KEY s0) = true /\
             speech_init env (AZURE_TTS_KEY s0) (AZURE_TTS_REGION s0)
               (AZURE_TTS_VOICE s0) = inr SynthesizingAudioCompleted /\
             tail settings' (world_after w acts) =
             let stages :=
               main_stages env settings' (StoryGenerator_new settings')
                 {| tts_settings := settings';
                    speech_synthesis_voice_name := AZURE_TTS_VOICE s0 |}
                 (world_after w
                    (acts ++ [SpeechInit (AZURE_TTS_KEY s0) (AZURE_TTS_REGION s0)
                                (AZURE_TTS_VOICE s0)])) in
             (outcome stages,
              [EvLog INFO (Text ("Initializing Azure Speech Service in region: "
                                 ++ AZURE_TTS_REGION s0));
               EvLog INFO (Text ("Successfully initialized TTS with region: "
                                 ++ AZURE_TTS_REGION s0))]
              ++ events stages,
              final stages))).
{ intros settings' acts Hk Hr Hv Hacts. unfold tail.
  rewrite bind_run.
  rewrite TTSGenerator_new_run. cbv zeta. rewrite Hk, Hr, Hv.
  destruct (nonempty (AZURE_TTS_KEY s0)) eqn:Hazure.
  2:{ left. exists (ValueError "AZURE_TTS_KEY is required for TTS generation"),
        [], acts. split; [reflexivity | exact Hacts]. }
  assert (Hacts' :
            forallb (fun a => negb (is_ollama_post a))
              (acts ++ [SpeechInit (AZURE_TTS_KEY s0) (AZURE_TTS_REGION s0)
                          (AZURE_TTS_VOICE s0)]) = true).
  { rewrite forallb_app, Hacts. reflexivity. }
  assert (Hw : world_after (world_after w acts)
                 [SpeechInit (AZURE_TTS_KEY s0) (AZURE_TTS_REGION s0)
                    (AZURE_TTS_VOICE s0)]
               = world_after w
                   (acts ++ [SpeechInit (AZURE_TTS_KEY s0) (AZURE_TTS_REGION s0)
                               (AZURE_TTS_VOICE s0)])).
  { unfold world_after. cbn [w_rng w_done]. rewrite app_assoc. reflexivity. }
  rewrite Hw.
  destruct (speech_init env _ _ _) as [e|[|[|] reason details|name]] eqn:Hinit;
    cbn [outcome events final fst snd app].
  2:{ right. split; [reflexivity|]. split; [reflexivity|]. reflexivity. }
  all: left; eexists _, _, _; split; [reflexivity | exact Hacts']. }
destruct (output_dir args) as [dir|]; [destruct (nonempty dir)|].
- rewrite bind_run.
  assert (Hstep :
            bind (bind (act (Makedirs (OUTPUT_DIR (video_settings
                                                    (set_OUTPUT_DIR s0 dir)))))
                    (fun _ =>
                       lib_action
                         (makedirs_error env
                            (OUTPUT_DIR (video_settings (set_OUTPUT_DIR s0 dir))))))
              (fun _ => ret (set_OUTPUT_DIR s0 dir)) w1
            = match makedirs_error env dir with
              | Some e =>
                  (Raise (LibraryError e), [],
                   world_after w
                     [Makedirs (TEMP_DIR s0);
                      Makedirs (OUTPUT_DIR (video_settings s0)); Makedirs dir])
              | None =>
                  (Ok (set_OUTPUT_DIR s0 dir), [],
                   world_after w
                     [Makedirs (TEMP_DIR s0);
                      Makedirs (OUTPUT_DIR (video_settings s0)); Makedirs dir])
              end).
  { cbn [OUTPUT_DIR video_settings set_OUTPUT_DIR].
    unfold w1. cbv [bind act lib_action ret raise world_after].
    cbn [w_rng w_done].
    destruct (makedirs_error env dir); world_eq. }
  cbv zeta. rewrite Hstep. clear Hstep.
  destruct (makedirs_error env dir) as [e|].
  { left. eexists _, _, _. cbn [outcome events final fst snd].
    split; reflexivity. }
  cbn [outcome events final fst snd app].
  destruct (Htts (set_OUTPUT_DIR s0 dir)
              [Makedirs (TEMP_DIR s0);
               Makedirs (OUTPUT_DIR (video_settings s0)); Makedirs dir]
              eq_refl eq_refl eq_refl eq_refl)
    as [[e [l [acts [Hrun Hacts]]]]|[Hazure [Hinit Hrun]]].
  + left. exists e, l, acts. rewrite ?run_eta, ?bind_run.
    cbn [outcome events final fst snd app]. rewrite ?run_eta.
    split; [exact Hrun | exact Hacts].
  + right. split; [reflexivity|]. split; [exact Hazure|].
    split; [exact Hinit|]. rewrite ?run_eta, ?bind_run.
    cbn [outcome events final fst snd app]. rewrite ?run_eta. exact Hrun.
- cbv [ret]. cbn [outcome events final fst snd app].
  destruct (Htts s0
              [Makedirs (TEMP_DIR s0);
               Makedirs (OUTPUT_DIR (video_settings s0))]
              eq_refl eq_refl eq_refl eq_refl)
    as [[e [l [acts [Hrun Hacts]]]]|[Hazure [Hinit Hrun]]].
  + left. exists e, l, acts. rewrite ?run_eta, ?bind_run.
    cbn [outcome events final fst snd app]. rewrite ?run_eta.
    split; [exact Hrun | exact Hacts].
  + right. split; [reflexivity|]. split; [exact Hazure|].
    split; [exact Hinit|]. rewrite ?run_eta, ?bind_run.
    cbn [outcome events final fst snd app]. rewrite ?run_eta. exact Hrun.
- cbv [ret]. cbn [outcome events final fst snd app].
  destruct (Htts s0
              [Makedirs (TEMP_DIR s0);
               Makedirs (OUTPUT_DIR (video_settings s0))]
              eq_refl eq_refl eq_refl eq_refl)
    as [[e [l [acts [Hrun Hacts]]]]|[Hazure [Hinit Hrun]]].
  + left. exists e, l, acts. rewrite ?run_eta, ?bind_run.
    cbn [outcome events final fst snd app]. rewrite ?run_eta.
    split; [exact Hrun | exact Hacts].
  + right. split; [reflexivity|]. split; [exact Hazure|].
    split; [exact Hinit|]. rewrite ?run_eta, ?bind_run.
    cbn [outcome events final fst snd app]. rewrite ?run_eta. exact Hrun.
Qed.
End MainSetup.


Lemma ollama_posts_overrides (args : Args) :
  forallb (fun a => negb (is_ollama_post a)) (overrides args) = true.
Proof.
  unfold overrides, environ_update. rewrite !forallb_app.
  destruct (ollama_endpoint args) as [v1|]; [destruct (nonempty v1)|];
    (destruct (ollama_model args) as [v2|]; [destruct (nonempty v2)|]);
    (destruct (dalle_key args) as [v3|]; [destruct (nonempty v3)|]);
    reflexivity.
Qed.

(** X25.  No [Exception] leaves [main]: it returns, or it leaves through
    the [SystemExit] of [parse_args()], and then it has done nothing.  It
    sends no request to Ollama unless the command line was parsed, both
    keys were in the environment at import and the test synthesis of the
    speech service completed. *)
Theorem main_sets_up_before_first_request (env : AppEnv) (w : World) :
  let run := main env w in
  let s0 := Settings_defaults (import_environ env) in
  (exists r, outcome run = Ok r) /\
  (forall code, parse_args env = SystemExit code ->
     run = (Ok (Exited code), [], w)) /\
  (forall r, outcome run = Ok (Returned r) ->
     exists args, parse_args env = Namespace args) /\
  ((ollama_posts (w_done w) < ollama_posts (w_done (final run)))%nat ->
   (exists args, parse_args env = Namespace args) /\
   DALLE_API_KEY s0 <> ""%string /\
   AZURE_TTS_KEY s0 <> ""%string /\
   speech_init env (AZURE_TTS_KEY s0) (AZURE_TTS_REGION s0) (AZURE_TTS_VOICE s0)
   = inr SynthesizingAudioCompleted).
Proof.
  cbv zeta. rewrite main_run.
  destruct (parse_args env) as [args|code].
  2:{ cbn [outcome events final fst snd].
      split; [eexists; reflexivity|].
      split; [intros c Hc; injection Hc as <-; reflexivity|].
      split; [intros r Hr; discriminate Hr|]. intro H. lia. }
  cbv zeta.
  destruct (main_with_returns env args w) as [r Hr].
  rewrite Hr. cbn [outcome events final fst snd].
  split; [eexists; reflexivity|].
  split; [intros code Hcode; discriminate Hcode|].
  split; [intros r' _; exists args; reflexivity|].
  clear r Hr. rewrite main_with_run. cbv zeta.
  assert (Hw0 : ollama_posts
                  (w_done {| w_rng := w_rng w;
                             w_done := w_done w ++ overrides args |})
                = ollama_posts (w_done w)).
  { apply (ollama_posts_after w (overrides args)), ollama_posts_overrides. }
  destruct (main_try_setup env args
              {| w_rng := w_rng w; w_done := w_done w ++ overrides args |})
    as [[e [l [acts [Hrun Hacts]]]]|[Hkey [Hazure [Hinit Hrun]]]].
  - rewrite Hrun. cbn [outcome events final fst snd].
    rewrite (ollama_posts_after _ acts Hacts), Hw0. intro H. lia.
  - intros _. split; [exists args; reflexivity|].
    apply nonempty_true in Hkey, Hazure. auto.
Qed.

Lemma main_sets_up_before_first_request_witness :
  speech_init healthy_world "azure-key" "ukwest" "en-US-JasonNeural"
  = inr SynthesizingAudioCompleted.
Proof.
  destruct (main_sets_up_before_first_request healthy_world
              {| w_rng := 0%nat; w_done := [] |}) as [_ [_ [_ H]]].
  assert (Hposts :
            (ollama_posts (w_done {| w_rng := 0%nat; w_done := [] |})
             < ollama_posts
                 (w_done (final (main healthy_world
                                   {| w_rng := 0%nat; w_done := [] |}))))%nat)
    by (vm_compute; lia).
  destruct (H Hposts) as [_ [_ [_ Hinit]]]. exact Hinit.
Defined.

(** An answer returned by [_make_request]: that of the last request,
    after [n] failed ones and their sleeps. *)
Lemma make_request_some (env : AppEnv) (self : StoryGenerator)
    (prompt : string) (w : World) (raw : string) :
  outcome (_make_request env self prompt 0 w) = Ok (Some raw) ->
  exists n,
    story_answer env self prompt (ollama_posts (w_done w) + n) = Responded raw /\
    final (_make_request env self prompt 0 w)
    = world_after w
        (retry_actions self prompt n
         ++ [OllamaPost (sg_endpoint self) "deepseek-r1:32b" prompt]).
Proof.
  unfold _make_request.
  destruct (sleep_raises env (RETRY_DELAY (sg_settings self))) as [e'|] eqn:Hs.
  - rewrite make_request_from_step. cbv zeta. rewrite Hs.
    destruct (story_answer env self prompt (ollama_posts (w_done w)))
      as [e|e|body] eqn:Hans.
    + destruct (0 <? MAX_RETRIES (sg_settings self))%Z;
        cbn [outcome fst]; discriminate.
    + cbn [outcome fst]. discriminate.
    + cbn [outcome final fst snd]. intro H. injection H as <-.
      exists 0%nat. rewrite Nat.add_0_r. split; [exact Hans|]. reflexivity.
  - destruct (make_request_from_shape env self prompt _ 0 w Hs eq_refl)
      as [n [_ [Hdone [Hrng [_ [_ Hlast]]]]]].
    cbv zeta in Hdone, Hrng, Hlast. intro Hout.
    exists n.
    destruct (story_answer env self prompt (ollama_posts (w_done w) + n))
      as [e|e|body]; [destruct Hlast; congruence | congruence |].
    rewrite Hlast in Hout. injection Hout as <-.
    split; [reflexivity|].
    destruct (final (_make_request_from env _ self prompt 0 w)) as [rng done].
    cbn [w_rng w_done] in Hdone, Hrng. unfold world_after.
    rewrite Hdone, Hrng. reflexivity.
Qed.

(** A story returned by [generate_story]: the cleaned text of a non-empty
    answer; before it is returned, it is written to the story file, or the
    write fails with an [IOError] that is only logged. *)
Lemma generate_story_some (env : AppEnv) (self : StoryGenerator) (w : World)
    (story : string) :
  outcome (generate_story env self w) = Ok (Some story) ->
  exists n raw,
    raw <> ""%string /\
    story = _clean_story raw /\
    story_answer env self story_prompt (ollama_posts (w_done w) + n)
    = Responded raw /\
    (story_save env (sg_story_file self) story = Saved \/
     exists e, story_save env (sg_story_file self) story = SaveIOError e) /\
    final (generate_story env self w)
    = world_after w
        (retry_actions self story_prompt n
         ++ [OllamaPost (sg_endpoint self) "deepseek-r1:32b" story_prompt;
             SaveText (sg_story_file self) story]).
Proof.
  unfold generate_story. rewrite bind_run.
  destruct (outcome (_make_request env self story_prompt 0 w))
    as [[raw|]|e] eqn:Hrequest;
    cbn [outcome events final fst snd]; try discriminate.
  destruct (make_request_some env self story_prompt w raw Hrequest)
    as [n [Hans Hfinal]].
  rewrite Hfinal. cbv zeta.
  destruct (nonempty raw) eqn:Hraw; [|discriminate].
  unfold save_story. cbv [bind act log emit ret raise world_after].
  cbn [w_rng w_done app outcome events final fst snd].
  destruct (story_save env _ _) as [|e|e] eqn:Hsave;
    cbn [outcome events final fst snd];
    try discriminate;
    intro H; injection H as <-;
    exists n, raw; (split; [apply nonempty_true; exact Hraw|]);
    (split; [reflexivity|]); (split; [exact Hans|]);
    (split; [first [left; exact Hsave | right; exists e; exact Hsave]|]);
    rewrite <- !app_assoc; reflexivity.
Qed.

(** [generate_audio] always asks for the synthesis, of the text it was
    given in the voice of the generator, and leaves the generator of
    random numbers alone. *)
Lemma generate_audio_done (env : AppEnv) (self : TTSGenerator) (text : string)
    (w : World) :
  exists rest,
    final (generate_audio env self text w)
    = world_after w
        (Synthesize (ssml_of (speech_synthesis_voice_name self) text)
           (path_join (TEMP_DIR (tts_settings self)) "narration.mp3")
         :: rest) /\
    forallb is_audio_action rest = true.
Proof.
  unfold generate_audio.
  change ("<speak version=" ++ _)%string
    with (ssml_of (speech_synthesis_voice_name self) text).
  set (ssml := ssml_of _ _).
  set (narration := path_join _ "narration.mp3").
  cbv [try_except bind log emit act lib_call]. cbn [w_rng w_done app].
  destruct (speak_ssml env ssml narration) as [e|reason];
    [cbv [raise ret final]; cbn [snd]; exists []; split; reflexivity|].
  cbv [ret]. cbv beta iota.
  destruct reason as [|is_error cancel_reason details|name];
    try (cbv [final]; cbn [snd]; exists []; split; reflexivity).
  rewrite adjust_audio_speed_run.
  destruct (from_mp3 env narration) as [e|len_audio];
    [cbv [final world_after]; cbn [snd w_rng w_done truthy_str negb];
     exists [LoadMp3 narration]; rewrite <- app_assoc; split; reflexivity|].
  cbv zeta.
  destruct (Qltb _ _).
  - destruct (_ =? 0)%Z;
      [cbv [final world_after]; cbn [snd w_rng w_done truthy_str negb];
       exists [LoadMp3 narration]; rewrite <- app_assoc; split; reflexivity|].
    destruct (speedup_error env _);
      [cbv [final world_after]; cbn [snd w_rng w_done truthy_str negb];
       eexists [LoadMp3 narration; Speedup _]; rewrite <- app_assoc;
       split; reflexivity|].
    destruct (export_error env _);
      [cbv [final world_after]; cbn [snd w_rng w_done truthy_str negb];
       eexists [LoadMp3 narration; Speedup _; ExportMp3 _];
       rewrite <- app_assoc; split; reflexivity|].
    cbn [truthy_str]. destruct (nonempty _);
      cbv [final world_after]; cbn [snd w_rng w_done negb];
      eexists [LoadMp3 narration; Speedup _; ExportMp3 _];
      rewrite <- app_assoc; split; reflexivity.
  - cbn [truthy_str]. destruct (nonempty narration);
      cbv [final world_after]; cbn [snd w_rng w_done negb];
      exists [LoadMp3 narration]; rewrite <- app_assoc; split; reflexivity.
Qed.

(** A path returned by [create_video] is the one the encoder wrote. *)
Lemma create_video_some (settings : Settings) (env : Env)
    (image_path audio_path : string) (config : option KenBurnsConfig)
    (k : Rng) (p : string) :
  outcome (create_video settings env image_path audio_path config k)
  = Ok (Some p) ->
  p = output_path_of settings env /\
  In (EvWriteVideo p)
    (events (create_video settings env image_path audio_path config k)).
Proof.
  rewrite create_video_run. cbv zeta.
  destruct (create_video_try_cases settings env image_path audio_path config k)
    as [[msg H]|[[img_size [e [opened [H Ho]]]]|[img_size [size [d [Ha [Hd H]]]]]]];
    cbv zeta in H; rewrite H; cbn [outcome events final fst snd];
    try discriminate.
  destruct (create_video_with_shape settings env config
              (LoadedImage image_path size)
              (mkAudioFileClip audio_path (Some d)) k)
    as [pre [tail [Hev [Hpre Htail]]]].
  cbv zeta in Hev, Htail. rewrite Hev.
  destruct (outcome (create_video_with settings env config _ _ k)) as [r|e];
    [|discriminate].
  cbn [outcome events final fst snd].
  intro Hr. injection Hr as ->.
  destruct Htail as [Hp [-> _]]. injection Hp as ->.
  split; [reflexivity|].
  apply in_or_app. right. apply in_or_app. left.
  apply in_or_app. right. left. reflexivity.
Qed.


Lemma with_rng_run {A : Type} (m : M Rng A) (w : World) :
  with_rng m w
  = (outcome (m (w_rng w)), events (m (w_rng w)),
     {| w_rng := final (m (w_rng w)); w_done := w_done w |}).
Proof. unfold with_rng. destruct (m (w_rng w)) as [[r l] k]. reflexivity. Qed.

Section Stages.
Variable env : AppEnv.
Variable settings : AppSettings.
Variable tts_gen : TTSGenerator.

Let story_gen : StoryGenerator := StoryGenerator_new settings.

(** The stages, when they return a path. *)
Lemma main_stages_some (w : World) (p : string) :
let run := main_stages env settings story_gen tts_gen w in
outcome run = Ok (Some p) ->
exists n raw url rest,
  let story := _clean_story raw in
  let image := path_join (TEMP_DIR settings) "generated_image.png" in
  story_answer env story_gen story_prompt (ollama_posts (w_done w) + n)
  = Responded raw /\
  story <> ""%string /\
  (story_save env (sg_story_file story_gen) story = Saved \/
   exists e, story_save env (sg_story_file story_gen) story = SaveIOError e) /\
  w_done (final run)
  = w_done w
    ++ retry_actions story_gen story_prompt n
    ++ [OllamaPost (sg_endpoint story_gen) "deepseek-r1:32b" story_prompt;
        SaveText (sg_story_file story_gen) story;
        ImagePost (DALLE_API_KEY settings) (_generate_image_prompt story);
        ImageGet url;
        ImageSave image;
        Synthesize (ssml_of (speech_synthesis_voice_name tts_gen) story)
          (path_join (TEMP_DIR (tts_settings tts_gen)) "narration.mp3")]
    ++ rest /\
  forallb is_audio_action rest = true /\
  p = output_path_of (video_settings settings) (media env) /\
  In (EvWriteVideo p) (events run).
Proof.
cbv zeta. unfold main_stages.
rewrite bind_run. cbv [log emit]. cbn [outcome events final fst snd].
cbv zeta. rewrite bind_run.
destruct (outcome (generate_story env story_gen w)) as [[story|]|e] eqn:Hstory;
  cbn [outcome events final fst snd]; try discriminate.
destruct (generate_story_some env story_gen w story Hstory)
  as [n [raw [Hraw [-> [Hanswer [Hsaved Hfinal]]]]]].
rewrite Hfinal. clear Hfinal.
set (story := _clean_story raw) in *.
destruct (nonempty story) eqn:Hnonempty; cbn [negb];
  [|cbn [outcome events final fst snd]; discriminate].
rewrite bind_run. cbn [outcome events final fst snd]. cbv zeta.
rewrite bind_run, generate_image_run. cbv zeta.
set (w1 := world_after w _).
destruct (image_post env _ _) as [e|url];
  [cbn [outcome events final fst snd]; discriminate|].
destruct (image_get env url) as [e|content];
  [cbn [outcome events final fst snd]; discriminate|].
destruct (image_decode env content) as [e|];
  [cbn [outcome events final fst snd]; discriminate|].
destruct (image_save env _) as [e|];
  [cbn [outcome events final fst snd]; discriminate|].
cbn [outcome events final fst snd]. cbv zeta.
set (image := path_join (TEMP_DIR settings) "generated_image.png").
destruct (nonempty image); cbn [negb];
  [|cbn [outcome events final fst snd]; discriminate].
rewrite bind_run. cbn [outcome events final fst snd]. cbv zeta.
rewrite bind_run.
set (w2 := {| w_rng := w_rng w1; w_done := _ |}).
destruct (generate_audio_done env tts_gen story w2) as [rest [Haudio Hrest]].
rewrite Haudio. clear Haudio.
destruct (outcome (generate_audio env tts_gen story w2)) as [[audio|]|e];
  cbn [outcome events final fst snd]; try discriminate.
destruct (nonempty audio); cbn [negb];
  [|cbn [outcome events final fst snd]; discriminate].
rewrite bind_run. cbn [outcome events final fst snd]. cbv zeta.
rewrite bind_run, with_rng_run. cbn [outcome events final fst snd].
set (video := create_video (video_settings settings) (media env) image audio
                None _).
destruct (outcome video) as [[path|]|e] eqn:Hvideo;
  cbn [outcome events final fst snd]; try discriminate.
destruct (create_video_some _ _ _ _ _ _ _ Hvideo) as [Hpath Hwritten].
destruct (nonempty path); cbn [negb];
  [|cbn [outcome events final fst snd]; discriminate].
cbv [bind ret]. cbn [outcome events final fst snd w_done w_rng].
intro H. injection H as <-.
exists n, raw, url, rest.
split; [exact Hanswer|].
split; [apply nonempty_true; exact Hnonempty|].
split; [exact Hsaved|].
split.
{ unfold w2, w1, world_after. cbn [w_done w_rng].
  rewrite <- !app_assoc. cbn [app]. reflexivity. }
split; [exact Hrest|].
split; [exact Hpath|].
do 7 (apply in_or_app; right).
apply in_or_app. left. exact Hwritten.
Qed.
End Stages.


(** X26.  When [main] returns a path, [parse_args()] returned a
    namespace and every stage ran, in order, on the same story: after the
    set-up, the requests to Ollama, the last of which answered; the
    cleaned, non-empty answer was written to the story file under the
    output directory in force (the write succeeded, or it failed with an
    [IOError] that was only logged), then sent to the image API and to
    the speech service; then only audio adjustments.  The path is the one the encoder wrote,
    under that output directory. *)
Theorem main_success_runs_every_stage
    (env : AppEnv) (w : World) (p : string)
    (Hsuccess : outcome (main env w) = Ok (Returned (Some p))) :
  let run := main env w in
  exists args n raw url rest,
    let settings := main_settings env args in
    let story_gen := StoryGenerator_new settings in
    let story := _clean_story raw in
    let story_file :=
      path_join (OUTPUT_DIR (video_settings settings)) "generated_story.txt" in
    parse_args env = Namespace args /\
    story_answer env story_gen story_prompt (ollama_posts (w_done w) + n)
    = Responded raw /\
    story <> ""%string /\
    (story_save env story_file story = Saved \/
     exists e, story_save env story_file story = SaveIOError e) /\
    w_done (final run)
    = w_done w
      ++ overrides args
      ++ setup_actions env args
      ++ retry_actions story_gen story_prompt n
      ++ [OllamaPost "http://localhost:11434/api/generate" "deepseek-r1:32b"
            story_prompt;
          SaveText story_file story;
          ImagePost (DALLE_API_KEY settings) (_generate_image_prompt story);
          ImageGet url;
          ImageSave (path_join (TEMP_DIR settings) "generated_image.png");
          Synthesize (ssml_of (AZURE_TTS_VOICE settings) story)
            (path_join (TEMP_DIR settings) "narration.mp3")]
      ++ rest /\
    forallb is_audio_action rest = true /\
    p = output_path_of (video_settings settings) (media env) /\
    In (EvWriteVideo p) (events run).
Proof.
  cbv zeta. revert Hsuccess. rewrite main_run.
  destruct (parse_args env) as [args|code];
    [|cbn [outcome events final fst snd]; discriminate].
  cbv zeta. rewrite main_with_run. cbv zeta.
  set (w0 := {| w_rng := w_rng w; w_done := w_done w ++ overrides args |}).
  assert (Hw0 : ollama_posts (w_done w0) = ollama_posts (w_done w)).
  { apply (ollama_posts_after w (overrides args)), ollama_posts_overrides. }
  destruct (main_try_setup env args w0)
    as [[e [l [acts [Hrun Hacts]]]]|[Hkey [Hazure [Hinit Hrun]]]];
    rewrite Hrun; cbn [outcome events final fst snd]; [discriminate|].
  cbv zeta. cbn [outcome events final fst snd].
  set (w1 := world_after w0 (setup_actions env args)).
  assert (Hw1 : ollama_posts (w_done w1) = ollama_posts (w_done w)).
  { rewrite <- Hw0. apply ollama_posts_after.
    unfold setup_actions.
    destruct (output_dir args) as [dir|]; [destruct (nonempty dir)|];
      reflexivity. }
  destruct (main_settings_fields env args) as [_ [_ [_ [Hvoice _]]]].
  destruct (outcome (main_stages env _ _ _ w1)) as [[path|]|e] eqn:Hstages;
    try discriminate.
  intro H. injection H as ->.
  destruct (main_stages_some env _ _ w1 p Hstages)
    as [n [raw [url [rest [Hanswer [Hstory [Hsaved [Hdone [Hrest
         [Hpath Hwritten]]]]]]]]]].
  cbv zeta in Hanswer, Hstory, Hsaved, Hdone, Hpath, Hwritten.
  unfold outcome, events, final in *. cbn [fst snd app].
  exists args, n, raw, url, rest.
  split; [reflexivity|].
  split; [rewrite <- Hw1; exact Hanswer|].
  split; [exact Hstory|].
  split; [exact Hsaved|].
  split.
  { rewrite Hdone. cbn [tts_settings speech_synthesis_voice_name].
    rewrite Hvoice. unfold w1, w0, world_after. cbn [w_done w_rng].
    rewrite <- !app_assoc. reflexivity. }
  split; [exact Hrest|].
  split; [exact Hpath|].
  right. right. exact Hwritten.
Qed.

Lemma main_success_runs_every_stage_witness :
  In (EvWriteVideo "out/generated_video_1700000000.mp4")
    (events (main (on_command_line (Namespace all_args) healthy_world)
               {| w_rng := 0%nat; w_done := [] |})).
Proof.
  assert (Hsuccess :
            outcome (main (on_command_line (Namespace all_args) healthy_world)
                       {| w_rng := 0%nat; w_done := [] |})
            = Ok (Returned (Some "out/generated_video_1700000000.mp4"%string)))
    by (vm_compute; reflexivity).
  destruct (main_success_runs_every_stage
              (on_command_line (Namespace all_args) healthy_world)
              {| w_rng := 0%nat; w_done := [] |}
              "out/generated_video_1700000000.mp4" Hsuccess)
    as [args [n [raw [url [rest [_ [_ [_ [_ [_ [_ [_ H]]]]]]]]]]]].
  exact H.
Defined.

(* ------------------------------------------------------------------ *)
(** ** [_clean_story]: what the three substitutions and the strip leave *)

Section Substitution.
Variable match_at : list ascii -> option nat.
Variable repl : list ascii.

Lemma re_sub_skip (k : nat) (l : list ascii) :
re_sub match_at repl k l = re_sub match_at repl 0 (skipn k l).
Proof.
revert k. induction l as [|c rest IH]; intro k.
- destruct k; reflexivity.
- destruct k as [|k]; [reflexivity|]. cbn [re_sub skipn]. apply IH.
Qed.

(** Where the pattern matches nowhere, [re.sub] changes nothing. *)
Lemma re_sub_fixed (l : list ascii) :
(forall pre post, l = pre ++ post -> match_at post = None) ->
re_sub match_at repl 0 l = l.
Proof.
induction l as [|c rest IH]; intro Hfree; [reflexivity|].
cbn [re_sub]. rewrite (Hfree [] (c :: rest) eq_refl).
f_equal. apply IH. intros pre post ->.
apply (Hfree (c :: pre) post). reflexivity.
Qed.

Lemma matches_nowhere_spec (l : list ascii) :
match_at [] = None ->
matches_nowhere match_at l = true ->
forall pre post, l = pre ++ post -> match_at post = None.
Proof.
intros Hnil Hfree pre. revert l Hfree.
induction pre as [|a pre IH]; intros l Hfree post Hl.
- cbn [app] in Hl. subst post. destruct l as [|c rest]; [exact Hnil|].
  cbn [matches_nowhere] in Hfree.
  destruct (match_at (c :: rest)); [discriminate | reflexivity].
- destruct l as [|c rest]; [discriminate|].
  injection Hl as -> Hrest. cbn [matches_nowhere] in Hfree.
  destruct (match_at (a :: rest)); [discriminate|].
  exact (IH rest Hfree post Hrest).
Qed.
End Substitution.

Lemma re_sub_deletes_only (match_at : list ascii -> option nat) (k : nat)
    (l : list ascii) (c : ascii) :
  In c (re_sub match_at [] k l) -> In c l.
Proof.
  revert k. induction l as [|a rest IH]; intros k H; [destruct k; exact H|].
  cbn [re_sub] in H. destruct k as [|k].
  - destruct (match_at (a :: rest)) as [[|n]|].
    + destruct H as [<-|H]; [left; reflexivity | right; exact (IH _ H)].
    + right. exact (IH _ H).
    + destruct H as [<-|H]; [left; reflexivity | right; exact (IH _ H)].
  - right. exact (IH _ H).
Qed.

(** *** The tag pattern *)

Lemma find_end_gt (l : list ascii) :
  ~ In ">"%char l -> find_end [">"%char] l = None.
Proof.
  induction l as [|c rest IH]; intro H; [reflexivity|].
  cbn [find_end starts_with List.length].
  destruct (Ascii.eqb ">" c) eqn:Hc.
  - apply Ascii.eqb_eq in Hc. exfalso. apply H. left. symmetry. exact Hc.
  - cbn [andb]. rewrite IH; [reflexivity|]. intro Hin. apply H. right. exact Hin.
Qed.

Lemma find_end_gt_inv (l : list ascii) :
  find_end [">"%char] l = None -> ~ In ">"%char l.
Proof.
  induction l as [|c rest IH]; intros H Hin; [exact Hin|].
  cbn [find_end starts_with List.length] in H.
  destruct (Ascii.eqb ">" c) eqn:Hc; [discriminate H|]. cbn [andb] in H.
  destruct Hin as [->|Hin].
  - rewrite Ascii.eqb_refl in Hc. discriminate Hc.
  - destruct (find_end [">"%char] rest); [discriminate H|].
    exact (IH eq_refl Hin).
Qed.

Lemma tag_match_without_gt (c : ascii) (l : list ascii) :
  ~ In ">"%char l -> tag_match (c :: l) = None.
Proof.
  intro H. unfold tag_match.
  destruct l as [|d rest];
    [destruct c as [[] [] [] [] [] [] [] []]; reflexivity|].
  destruct c as [[] [] [] [] [] [] [] []]; try reflexivity.
  destruct (Ascii.eqb d ">"); [reflexivity|].
  rewrite find_end_gt; [reflexivity|].
  intro Hin. apply H. right. exact Hin.
Qed.

Lemma tag_match_none_inv (d : ascii) (rest : list ascii) :
  tag_match ("<"%char :: d :: rest) = None ->
  d = ">"%char \/ ~ In ">"%char (d :: rest).
Proof.
  unfold tag_match. destruct (Ascii.eqb d ">") eqn:Hd.
  - intros _. left. apply Ascii.eqb_eq. exact Hd.
  - intro H. right. intros [Hin|Hin].
    + subst d. discriminate Hd.
    + destruct (find_end [">"%char] rest) eqn:Hf; [discriminate H|].
      exact (find_end_gt_inv rest Hf Hin).
Qed.

Lemma tag_match_not_zero (l : list ascii) : tag_match l <> Some 0%nat.
Proof.
  unfold tag_match.
  destruct l as [|c [|d rest]]; try discriminate;
    destruct c as [[] [] [] [] [] [] [] []]; try discriminate.
  destruct (Ascii.eqb d ">"); [discriminate|].
  destruct (find_end [">"%char] rest); discriminate.
Qed.

Lemma tag_match_head (c : ascii) (l : list ascii) :
  c <> "<"%char -> tag_match (c :: l) = None.
Proof.
  intro H. unfold tag_match.
  destruct l as [|d rest];
    destruct c as [[] [] [] [] [] [] [] []]; try reflexivity.
  exfalso. apply H. reflexivity.
Qed.

(** A [<] kept by the second substitution still opens no tag behind
    what the substitution leaves of the rest. *)
Lemma tag_match_kept (c : ascii) (rest : list ascii) :
  tag_match (c :: rest) = None ->
  tag_match (c :: re_sub tag_match [] 0 rest) = None.
Proof.
  intro H.
  destruct (Ascii.eqb c "<") eqn:Hc.
  2:{ apply tag_match_head. intros ->. discriminate Hc. }
  apply Ascii.eqb_eq in Hc. subst c.
  destruct rest as [|d rest']; [reflexivity|].
  destruct (tag_match_none_inv d rest' H) as [->|Hgt].
  - cbn [re_sub]. cbn [tag_match]. reflexivity.
  - apply tag_match_without_gt. intro Hin. apply Hgt.
    exact (re_sub_deletes_only tag_match 0 _ _ Hin).
Qed.

Lemma re_sub_tag_free_upto (n : nat) :
  forall l, (List.length l <= n)%nat ->
    matches_nowhere tag_match (re_sub tag_match [] 0 l) = true.
Proof.
  induction n as [|n IH]; intros l Hlen.
  - destruct l; [reflexivity | cbn in Hlen; lia].
  - destruct l as [|c rest]; [reflexivity|].
    cbn [List.length] in Hlen.
    cbn [re_sub].
    destruct (tag_match (c :: rest)) as [[|k]|] eqn:Hm.
    + exfalso. exact (tag_match_not_zero _ Hm).
    + cbn [app]. rewrite re_sub_skip. apply IH.
      rewrite length_skipn. lia.
    + assert (Hkept := tag_match_kept c rest Hm).
      assert (Hrest := IH rest ltac:(lia)).
      remember (re_sub tag_match [] 0 rest) as R.
      cbn [matches_nowhere]. rewrite Hkept. exact Hrest.
Qed.

Lemma re_sub_tag_free (l : list ascii) :
  matches_nowhere tag_match (re_sub tag_match [] 0 l) = true.
Proof. exact (re_sub_tag_free_upto (List.length l) l (le_n _)). Qed.

(** *** The white space pattern *)

Lemma space_run_squeeze (l : list ascii) :
  re_sub space_match [" "%char] 0 l = squeeze false l /\
  re_sub space_match [" "%char] (space_run l) l = squeeze true l.
Proof.
  induction l as [|c rest [IH0 IHrun]]; [split; reflexivity|].
  assert (Hm : space_match (c :: rest)
               = if is_space c then Some (S (space_run rest)) else None).
  { unfold space_match. cbn [space_run]. destruct (is_space c); reflexivity. }
  cbn [re_sub squeeze space_run]. rewrite Hm.
  destruct (is_space c).
  - split; [|exact IHrun]. cbn [app]. rewrite IHrun. reflexivity.
  - rewrite IH0. split; reflexivity.
Qed.

Lemma squeeze_chars (b : bool) (l : list ascii) (c : ascii) :
  In c (squeeze b l) -> c = " "%char \/ (In c l /\ is_space c = false).
Proof.
  revert b. induction l as [|a rest IH]; intros b H; [destruct H|].
  cbn [squeeze] in H. destruct (is_space a) eqn:Ha.
  - destruct b.
    + destruct (IH _ H) as [->|[Hin Hc]]; [left; reflexivity|].
      right. split; [right; exact Hin | exact Hc].
    + destruct H as [<-|H]; [left; reflexivity|].
      destruct (IH _ H) as [->|[Hin Hc]]; [left; reflexivity|].
      right. split; [right; exact Hin | exact Hc].
  - destruct H as [<-|H]; [right; split; [left; reflexivity | exact Ha]|].
    destruct (IH _ H) as [->|[Hin Hc]]; [left; reflexivity|].
    right. split; [right; exact Hin | exact Hc].
Qed.

Lemma squeeze_starts_clean (l : list ascii) :
  starts_clean (squeeze true l) = true.
Proof.
  induction l as [|c rest IH]; [reflexivity|].
  cbn [squeeze]. destruct (is_space c) eqn:Hc; [exact IH|].
  cbn [starts_clean]. rewrite Hc. reflexivity.
Qed.

Lemma no_adjacent_cons (c d : ascii) (l : list ascii) :
  no_adjacent_spaces (c :: d :: l)
  = negb (is_space c && is_space d) && no_adjacent_spaces (d :: l).
Proof. reflexivity. Qed.

Lemma squeeze_no_adjacent (b : bool) (l : list ascii) :
  no_adjacent_spaces (squeeze b l) = true.
Proof.
  revert b. induction l as [|c rest IH]; intro b; [reflexivity|].
  cbn [squeeze]. destruct (is_space c) eqn:Hc.
  - destruct b; [apply IH|].
    assert (Hs := squeeze_starts_clean rest). assert (Hn := IH true).
    destruct (squeeze true rest) as [|d tail]; [reflexivity|].
    cbn [starts_clean] in Hs. rewrite no_adjacent_cons.
    apply negb_true_iff in Hs. rewrite Hs, andb_false_r. exact Hn.
  - assert (Hn := IH false).
    destruct (squeeze false rest) as [|d tail]; [reflexivity|].
    rewrite no_adjacent_cons, Hc. exact Hn.
Qed.

Lemma squeeze_tag_free (b : bool) (l : list ascii) :
  matches_nowhere tag_match l = true ->
  matches_nowhere tag_match (squeeze b l) = true.
Proof.
  revert b. induction l as [|c rest IH]; intros b H; [reflexivity|].
  cbn [matches_nowhere] in H.
  destruct (tag_match (c :: rest)) eqn:Hm; [discriminate H|].
  cbn [squeeze]. destruct (is_space c) eqn:Hc.
  - destruct b; [exact (IH true H)|].
    assert (Hrest := IH true H).
    remember (squeeze true rest) as R. cbn [matches_nowhere].
    rewrite tag_match_head by discriminate. exact Hrest.
  - assert (Hrest := IH false H).
    assert (Hkept : tag_match (c :: squeeze false rest) = None).
    { destruct (Ascii.eqb c "<") eqn:Hlt.
      2:{ apply tag_match_head. intros ->. discriminate Hlt. }
      apply Ascii.eqb_eq in Hlt. subst c.
      destruct rest as [|d rest']; [reflexivity|].
      destruct (tag_match_none_inv d rest' Hm) as [->|Hgt].
      - reflexivity.
      - apply tag_match_without_gt. intro Hin.
        destruct (squeeze_chars _ _ _ Hin) as [Heq|[Hin' _]];
          [discriminate Heq | exact (Hgt Hin')]. }
    remember (squeeze false rest) as R. cbn [matches_nowhere].
    rewrite Hkept. exact Hrest.
Qed.

Lemma think_match_is_tag (l : list ascii) :
  tag_match l = None -> think_match l = None.
Proof.
  intro H. unfold think_match.
  destruct (starts_with (list_ascii_of_string "<think>") l) eqn:Hs;
    [|reflexivity].
  exfalso. cbn [list_ascii_of_string] in Hs.
  destruct l as [|c1 [|c2 [|c3 [|c4 [|c5 [|c6 [|c7 rest]]]]]]];
    cbn [starts_with] in Hs;
    repeat (apply andb_prop in Hs as [?E Hs]); try discriminate Hs.
  apply Ascii.eqb_eq in E, E0, E1, E2, E3, E4, E5. subst.
  cbn in H. discriminate H.
Qed.

Lemma tag_match_extends (x y : list ascii) :
  tag_match (x ++ y) = None -> tag_match x = None.
Proof.
  intro H. destruct x as [|c x']; [reflexivity|].
  destruct (Ascii.eqb c "<") eqn:Hc.
  2:{ apply tag_match_head. intros ->. discriminate Hc. }
  apply Ascii.eqb_eq in Hc. subst c.
  destruct x' as [|d rest]; [reflexivity|].
  cbn [app] in H.
  destruct (tag_match_none_inv d (rest ++ y) H) as [->|Hgt]; [reflexivity|].
  apply tag_match_without_gt. intro Hin. apply Hgt.
  destruct Hin as [<-|Hin]; [left; reflexivity|].
  right. apply in_or_app. left. exact Hin.
Qed.

(** *** [strip] *)

Lemma lstrip_suffix (l : list ascii) : exists lead, l = lead ++ lstrip l.
Proof.
  induction l as [|c rest [lead IH]]; [exists []; reflexivity|].
  cbn [lstrip]. destruct (is_space c).
  - exists (c :: lead). cbn [app]. f_equal. exact IH.
  - exists []. reflexivity.
Qed.

Lemma lstrip_starts_clean (l : list ascii) : starts_clean (lstrip l) = true.
Proof.
  induction l as [|c rest IH]; [reflexivity|].
  cbn [lstrip]. destruct (is_space c) eqn:Hc; [exact IH|].
  cbn [starts_clean]. rewrite Hc. reflexivity.
Qed.

Lemma lstrip_fixed (l : list ascii) : starts_clean l = true -> lstrip l = l.
Proof.
  destruct l as [|c rest]; [reflexivity|].
  cbn [starts_clean lstrip]. intro H. apply negb_true_iff in H.
  rewrite H. reflexivity.
Qed.

Lemma starts_clean_prefix (x y : list ascii) :
  starts_clean (x ++ y) = true -> starts_clean x = true.
Proof. destruct x; [reflexivity | exact (fun H => H)]. Qed.

(** [strip] cuts a piece out of the text, clean at both ends. *)
Lemma strip_infix (l : list ascii) :
  exists lead trail,
    l = lead ++ strip l ++ trail /\
    starts_clean (strip l) = true /\
    starts_clean (rev (strip l)) = true.
Proof.
  unfold strip.
  destruct (lstrip_suffix l) as [lead Hlead].
  destruct (lstrip_suffix (rev (lstrip l))) as [back Hback].
  assert (Ht : lstrip l = rev (lstrip (rev (lstrip l))) ++ rev back).
  { rewrite <- rev_app_distr, <- Hback, rev_involutive. reflexivity. }
  exists lead, (rev back).
  split; [rewrite <- Ht; exact Hlead|].
  split.
  - apply (starts_clean_prefix _ (rev back)). rewrite <- Ht.
    apply lstrip_starts_clean.
  - rewrite rev_involutive. apply lstrip_starts_clean.
Qed.

Lemma strip_fixed (l : list ascii) :
  starts_clean l = true -> starts_clean (rev l) = true -> strip l = l.
Proof.
  intros Hhead Hlast. unfold strip.
  rewrite (lstrip_fixed l Hhead), (lstrip_fixed (rev l) Hlast).
  apply rev_involutive.
Qed.

Lemma no_adjacent_tail (c : ascii) (l : list ascii) :
  no_adjacent_spaces (c :: l) = true -> no_adjacent_spaces l = true.
Proof.
  destruct l as [|d l']; [reflexivity|].
  rewrite no_adjacent_cons. intro H. apply andb_prop in H as [_ H]. exact H.
Qed.

Lemma no_adjacent_suffix (x y : list ascii) :
  no_adjacent_spaces (x ++ y) = true -> no_adjacent_spaces y = true.
Proof.
  induction x as [|c x IH]; [exact (fun H => H)|].
  cbn [app]. intro H. exact (IH (no_adjacent_tail _ _ H)).
Qed.

Lemma no_adjacent_prefix (x y : list ascii) :
  no_adjacent_spaces (x ++ y) = true -> no_adjacent_spaces x = true.
Proof.
  induction x as [|c x IH]; [reflexivity|].
  cbn [app]. intro H. assert (Hx := IH (no_adjacent_tail _ _ H)).
  destruct x as [|d x']; [reflexivity|].
  cbn [app] in H. rewrite no_adjacent_cons in H |- *.
  apply andb_prop in H as [H _]. rewrite H, Hx. reflexivity.
Qed.

Lemma squeeze_fixed (l : list ascii) :
  (forall c, In c l -> is_space c = true -> c = " "%char) ->
  no_adjacent_spaces l = true ->
  squeeze false l = l /\ (starts_clean l = true -> squeeze true l = l).
Proof.
  induction l as [|c rest IH]; intros Hblank Hadj; [split; reflexivity|].
  assert (Hrest : squeeze false rest = rest /\
                  (starts_clean rest = true -> squeeze true rest = rest)).
  { apply IH; [|exact (no_adjacent_tail _ _ Hadj)].
    intros a Ha. apply Hblank. right. exact Ha. }
  destruct Hrest as [H0 H1].
  cbn [squeeze starts_clean]. destruct (is_space c) eqn:Hc.
  - split; [|discriminate].
    rewrite <- (Hblank c (or_introl eq_refl) Hc). f_equal. apply H1.
    destruct rest as [|d rest']; [reflexivity|].
    rewrite no_adjacent_cons, Hc in Hadj. cbn [andb] in Hadj.
    apply andb_prop in Hadj as [Hd _]. exact Hd.
  - rewrite H0. split; reflexivity.
Qed.

Lemma clean_chars_cleaned (l : list ascii) : cleaned (clean_chars l).
Proof.
  unfold clean_chars. cbv zeta.
  set (x := re_sub tag_match [] 0 (re_sub think_match [] 0 l)).
  assert (Hx : matches_nowhere tag_match x = true) by apply re_sub_tag_free.
  destruct (space_run_squeeze x) as [-> _].
  assert (Hs := squeeze_tag_free false x Hx).
  assert (Hadj := squeeze_no_adjacent false x).
  destruct (strip_infix (squeeze false x)) as [lead [trail [Hcut [Hhead Hlast]]]].
  set (r := strip (squeeze false x)) in *.
  repeat split.
  - intros c Hin Hc.
    assert (Hin' : In c (squeeze false x)).
    { rewrite Hcut. apply in_or_app. right. apply in_or_app. left. exact Hin. }
    destruct (squeeze_chars _ _ _ Hin') as [Heq|[_ Hns]]; [exact Heq|].
    rewrite Hns in Hc. discriminate Hc.
  - rewrite Hcut in Hadj.
    exact (no_adjacent_prefix _ _ (no_adjacent_suffix _ _ Hadj)).
  - exact Hhead.
  - exact Hlast.
  - intros pre post Hr. apply (tag_match_extends post trail).
    apply (matches_nowhere_spec tag_match (squeeze false x) eq_refl Hs
             (lead ++ pre) (post ++ trail)).
    rewrite Hcut, Hr, <- !app_assoc. reflexivity.
Qed.

Lemma clean_story_chars (text : string) :
  list_ascii_of_string (_clean_story text)
  = clean_chars (list_ascii_of_string text).
Proof. unfold _clean_story. apply list_ascii_of_string_of_list_ascii. Qed.

(** X27.  In the text [_clean_story] returns, every white space
    character is a blank that stands between two characters that are not
    white space: no tab or line break is left, no run of blanks, and no
    white space at either end. *)
Theorem clean_story_spaces_are_single_blanks
    (text : string) (pre post : list ascii) (c : ascii)
    (Hsplit : list_ascii_of_string (_clean_story text) = pre ++ c :: post)
    (Hspace : is_space c = true) :
  c = " "%char /\
  (exists a pre', pre = pre' ++ [a] /\ is_space a = false) /\
  (exists b post', post = b :: post' /\ is_space b = false).
Proof.
  rewrite clean_story_chars in Hsplit.
  destruct (clean_chars_cleaned (list_ascii_of_string text))
    as [Hblank [Hadj [Hhead [Hlast _]]]].
  rewrite Hsplit in Hblank, Hadj, Hhead, Hlast.
  split.
  { apply Hblank; [|exact Hspace]. apply in_or_app. right. left. reflexivity. }
  split.
  - destruct pre as [|p pre0].
    { cbn [app starts_clean] in Hhead. rewrite Hspace in Hhead.
      discriminate Hhead. }
    destruct (exists_last (l := p :: pre0) ltac:(discriminate))
      as [pre' [a Hpre]].
    exists a, pre'. split; [exact Hpre|].
    rewrite Hpre, <- app_assoc in Hadj. cbn [app] in Hadj.
    apply no_adjacent_suffix in Hadj. rewrite no_adjacent_cons in Hadj.
    apply andb_prop in Hadj as [Hadj _]. rewrite Hspace, andb_true_r in Hadj.
    apply negb_true_iff. exact Hadj.
  - destruct post as [|b post'].
    { rewrite rev_app_distr in Hlast. cbn [rev app starts_clean] in Hlast.
      rewrite Hspace in Hlast. discriminate Hlast. }
    exists b, post'. split; [reflexivity|].
    apply no_adjacent_suffix in Hadj. rewrite no_adjacent_cons in Hadj.
    apply andb_prop in Hadj as [Hadj _]. rewrite Hspace in Hadj.
    cbn [andb] in Hadj. apply negb_true_iff. exact Hadj.
Qed.

Lemma clean_story_spaces_are_single_blanks_witness :
  exists b post', ["b"%char] = b :: post' /\ is_space b = false.
Proof.
  destruct (clean_story_spaces_are_single_blanks
              (String "009" (String "a" (String "010" (String " " (String "b" (String " " EmptyString))))))
              ["a"%char] ["b"%char] " "%char eq_refl eq_refl)
    as [_ [_ H]].
  exact H.
Defined.

(** X28.  The text [_clean_story] returns contains no match of the tag
    pattern [<[^>]+>] and none of [<think>.*?</think>], at any position:
    the later substitutions and the strip bring no tag back. *)
Theorem clean_story_leaves_no_tag
    (text : string) (pre post : list ascii)
    (Hsplit : list_ascii_of_string (_clean_story text) = pre ++ post) :
  tag_match post = None /\ think_match post = None.
Proof.
  rewrite clean_story_chars in Hsplit.
  destruct (clean_chars_cleaned (list_ascii_of_string text))
    as [_ [_ [_ [_ Htag]]]].
  assert (H := Htag pre post Hsplit).
  split; [exact H | exact (think_match_is_tag post H)].
Qed.

Lemma clean_story_leaves_no_tag_witness :
  tag_match (list_ascii_of_string "b>c") = None.
Proof.
  destruct (clean_story_leaves_no_tag "<i>a <<b>b>c</i>"
              ["a"%char; " "%char] (list_ascii_of_string "b>c") eq_refl)
    as [H _].
  exact H.
Defined.

(** X29.  [_clean_story] is idempotent: cleaning a cleaned story changes
    nothing. *)
Theorem clean_story_idempotent (text : string) :
  _clean_story (_clean_story text) = _clean_story text.
Proof.
  unfold _clean_story at 1. rewrite clean_story_chars.
  unfold _clean_story. f_equal.
  set (r := clean_chars (list_ascii_of_string text)).
  destruct (clean_chars_cleaned (list_ascii_of_string text))
    as [Hblank [Hadj [Hhead [Hlast Htag]]]].
  fold r in Hblank, Hadj, Hhead, Hlast, Htag.
  unfold clean_chars. cbv zeta.
  rewrite (re_sub_fixed think_match [] r)
    by (intros pre post Hr; exact (think_match_is_tag post (Htag pre post Hr))).
  rewrite (re_sub_fixed tag_match [] r Htag).
  destruct (space_run_squeeze r) as [-> _].
  destruct (squeeze_fixed r Hblank Hadj) as [-> _].
  exact (strip_fixed r Hhead Hlast).
Qed.
